(** * nock.py: a Nock evaluator over Python tuples

    Shallow embedding of [src/nock.py] (a Python 2 module) and the
    properties of its noun constructor [_t], its axiomatic functions
    [_wut], [_lus], [_tis], its slot operator [_fas] and its reducer
    [_tar], together with the public wrappers [wut], [lus], [tis],
    [fas], [tar] that the module exports and that [_tar] itself
    recurses through.

    Modelling conventions.
    - A Python value is an integer, a tuple of values, or [None] (what a
      function body returns when it falls off its end).  The module is
      Python 2: an integer within the machine range, up to [sys.maxint],
      is of type [int], and an integer beyond it is a [long], which is no
      [int].  [isinstance(x, int)] is the test "x is an integer within
      the machine range", [isinstance(x, collections.Iterable)] the test
      "x is a tuple".  The type follows the magnitude: a [long] within
      the machine range, which only a caller writing [5L] can make and no
      operation of the module makes from what it is given, is outside the
      model.
    - A Python call either returns a value, raises an exception, or
      recurses deeper than the interpreter allows.  The last case is
      [Timeout]: every recursive function takes a [fuel : nat] that
      bounds the depth of its call tree.  None of the [except] clauses
      of the module catches it.
    - [_d] and [_indent] only feed the [logging] module and keep its
      indentation counter; they never change a result and are left out.
      The argument of [_d] is evaluated before the call, so [_r] is
      modelled: it raises on [None] and on a [long]. *)

From Stdlib Require Import ZArith List String Lia Bool Arith.
From Stdlib Require Import DecimalString.
Import ListNotations.
Local Open Scope Z_scope.

(** ** Python values *)

#[local] Set Warnings "-register-all".
Inductive pyval : Type :=
| PInt (z : Z)
| PTuple (l : list pyval)
| PNone.

Coercion PInt : Z >-> pyval.

Declare Scope py_scope.
Delimit Scope py_scope with py.
Notation "'<(' x , .. , y ')>'" :=
  (PTuple (@cons pyval x .. (@cons pyval y nil) ..))
  (at level 0, x at level 99, y at level 99) : py_scope.
Notation "<( )>" := (PTuple nil) (at level 0) : py_scope.
Open Scope py_scope.

(** The induction principle that reaches inside tuples. *)
Section PyvalInd.
Variable P : pyval -> Prop.
Hypothesis HInt : forall z, P (PInt z).
Hypothesis HNone : P PNone.
Hypothesis HTuple : forall l, Forall P l -> P (PTuple l).

Fixpoint pyval_ind' (v : pyval) : P v :=
  match v with
  | PInt z => HInt z
  | PNone => HNone
  | PTuple l =>
      HTuple l
        ((fix go (l : list pyval) : Forall P l :=
            match l with
            | [] => Forall_nil P
            | x :: xs => Forall_cons x (pyval_ind' x) (go xs)
            end) l)
  end.
End PyvalInd.

(** ** Outcomes of a call *)

Inductive exn : Type := TypeError | IndexError | ValueError.

Inductive res (A : Type) : Type :=
| Ok (a : A)
| Raise (e : exn)
| Timeout.
Arguments Ok {A} a.
Arguments Raise {A} e.
Arguments Timeout {A}.

Definition bind {A B} (m : res A) (k : A -> res B) : res B :=
  match m with
  | Ok a => k a
  | Raise e => Raise e
  | Timeout => Timeout
  end.

Notation "x <- m ;; k" := (bind m (fun x => k))
  (at level 61, m at next level, right associativity).
Notation "m ;;; k" := (bind m (fun _ => k))
  (at level 61, right associativity).

(** [try: m except TypeError: h]. *)
Definition try_TypeError {A} (m : res A) (h : res A) : res A :=
  match m with
  | Raise TypeError => h
  | _ => m
  end.

(** A call ended: it returned or raised, within the depth it was given. *)
Definition ended {A} (r : res A) : Prop := r <> Timeout.

(** A call crashed: it raised an exception. *)
Definition crashed {A} (r : res A) : Prop := exists e, r = Raise e.

(** ** Python operators on values *)

(** [a == b]: integers by value, tuples by length and element-wise,
    [None] only to itself, values of different kinds never. *)
Fixpoint py_eq (a b : pyval) : bool :=
  match a, b with
  | PInt x, PInt y => Z.eqb x y
  | PNone, PNone => true
  | PTuple l, PTuple m =>
      (fix eq_list (l m : list pyval) {struct l} : bool :=
         match l, m with
         | [], [] => true
         | x :: xs, y :: ys => py_eq x y && eq_list xs ys
         | _, _ => false
         end) l m
  | _, _ => false
  end.

(** [sys.maxint], on a 64-bit build of Python 2. *)
Definition sys_maxint : Z := 9223372036854775807.

(** [isinstance(x, int)]: an integer up to [sys.maxint] is an [int], an
    integer beyond it is a [long] and no [int]. *)
Definition is_int (x : pyval) : bool :=
  match x with
  | PInt z => (- sys_maxint - 1 <=? z) && (z <=? sys_maxint)
  | _ => false
  end.

(** [x[i]] *)
Definition getitem (x : pyval) (i : nat) : res pyval :=
  match x with
  | PTuple l =>
      match nth_error l i with
      | Some v => Ok v
      | None => Raise IndexError
      end
  | _ => Raise TypeError
  end.

(** [x % k], for an integer literal [k > 0] *)
Definition py_mod (x : pyval) (k : Z) : res pyval :=
  match x with
  | PInt z => Ok (PInt (z mod k))
  | _ => Raise TypeError
  end.

(** [x // k], for an integer literal [k > 0] *)
Definition py_floordiv (x : pyval) (k : Z) : res pyval :=
  match x with
  | PInt z => Ok (PInt (z / k))
  | _ => Raise TypeError
  end.

(** [x - k], for an integer literal [k] *)
Definition py_sub (x : pyval) (k : Z) : res pyval :=
  match x with
  | PInt z => Ok (PInt (z - k))
  | _ => Raise TypeError
  end.

(** ** Noun construction: [_aorc] and [_t] *)

(** [_aorc] and [_t] call each other.  [_aorc] is the fixpoint over the
    value, and [_t] over the argument list [lst] sits inside it; the
    definition of [_t] below repeats that inner function under its own
    name.  With no argument at all, neither length test of [_t] holds and
    [lst[0]] raises [IndexError]. *)
Fixpoint _aorc (a : pyval) : res pyval :=
  match a with
  | PTuple l =>
      (fix _t (lst : list pyval) : res pyval :=
         match lst with
         | [] => Raise IndexError
         | [a] => x <- _aorc a ;; Ok <( x, 0 )>
         | [a; b] => x <- _aorc a ;; y <- _aorc b ;; Ok <( x, y )>
         | a :: rest => x <- _aorc a ;; y <- _t rest ;; Ok <( x, y )>
         end) l
  | _ => Ok a
  end.

Definition _t : list pyval -> res pyval :=
  fix _t (lst : list pyval) : res pyval :=
    match lst with
    | [] => Raise IndexError
    | [a] => x <- _aorc a ;; Ok <( x, 0 )>
    | [a; b] => x <- _aorc a ;; y <- _aorc b ;; Ok <( x, y )>
    | a :: rest => x <- _aorc a ;; y <- _t rest ;; Ok <( x, y )>
    end.

(** The argument list of a call that unpacks [x] with a star. *)
Definition star (x : pyval) : res (list pyval) :=
  match x with
  | PTuple l => Ok l
  | _ => Raise TypeError
  end.

(** ** Truth values and the axiomatic functions *)

Definition YES : Z := 0.
Definition NO : Z := 1.

Definition _wut (noun : pyval) : res pyval :=
  Ok (PInt (if is_int noun then NO else YES)).

(** [(1 + noun) if isinstance(noun, int) else noun]: a [long] is returned
    as it is, and [1 + sys.maxint] is a [long]. *)
Definition _lus (noun : pyval) : res pyval :=
  match noun with
  | PInt z => if is_int noun then Ok (PInt (1 + z)) else Ok noun
  | _ => Ok noun
  end.

Definition _tis (noun : pyval) : res pyval :=
  a <- getitem noun 0 ;;
  b <- getitem noun 1 ;;
  Ok (PInt (if py_eq a b then YES else NO)).

(** ** Rendering and the public wrappers *)

(** [repr] of an integer. *)
Definition repr (z : Z) : string := NilZero.string_of_int (Z.to_int z).

(** [_r]: an [int] renders as its digits, a tuple as its space-separated
    elements between brackets; a [long] and [None] are neither [int] nor
    iterable, and the loop over them raises [TypeError]. *)
Fixpoint _r (noun : pyval) : res string :=
  match noun with
  | PInt z => if is_int noun then Ok (repr z) else Raise TypeError
  | PTuple l =>
      parts <- (fix each (l : list pyval) : res (list string) :=
                  match l with
                  | [] => Ok []
                  | i :: rest => s <- _r i ;; ss <- each rest ;; Ok (s :: ss)
                  end) l ;;
      Ok ("[" ++ String.concat " " parts ++ "]")%string
  | PNone => Raise TypeError
  end.

(** [_public(original_func, formatter)]: render the argument for the log,
    call, render the result for the log, return the result. *)
Definition _public (original_func : pyval -> res pyval) (noun : pyval)
  : res pyval :=
  _r noun ;;;
  result <- original_func noun ;;
  _r result ;;;
  Ok result.

Definition wut : pyval -> res pyval := _public _wut.
Definition lus : pyval -> res pyval := _public _lus.
Definition tis : pyval -> res pyval := _public _tis.

(** ** Slot addressing: [_fas] *)

(** [def _fas((n, noun))]: the parameter unpacks a pair.  The whole body
    after the normalisation of [noun] sits in [try: ... except TypeError:
    return noun]. *)
Fixpoint _fas (fuel : nat) (arg : pyval) : res pyval :=
  match fuel with
  | O => Timeout
  | S fuel =>
      match arg with
      | PTuple [n; noun] =>
          noun <- _aorc noun ;;
          try_TypeError
            (if py_eq n 1 then Ok noun
             else if py_eq n 2 then getitem noun 0
             else if py_eq n 3 then getitem noun 1
             else
               m <- py_mod n 2 ;;
               if py_eq m 0 then
                 h <- py_floordiv n 2 ;;
                 inner <- _fas fuel <( h, noun )> ;;
                 _fas fuel <( 2, inner )>
               else
                 m <- py_mod n 2 ;;
                 if py_eq m 1 then
                   p <- py_sub n 1 ;;
                   h <- py_floordiv p 2 ;;
                   inner <- _fas fuel <( h, noun )> ;;
                   _fas fuel <( 3, inner )>
                 else Ok noun)
            (Ok noun)
      | PTuple _ => Raise ValueError
      | _ => Raise TypeError
      end
  end.

Definition fas (fuel : nat) : pyval -> res pyval := _public (_fas fuel).

(** ** The reducer: [_tar] *)

Definition OP_FAS : Z := 0.
Definition OP_CON : Z := 1.
Definition OP_TAR : Z := 2.
Definition OP_WUT : Z := 3.
Definition OP_LUS : Z := 4.
Definition OP_TIS : Z := 5.
Definition OP_IF : Z := 6.
Definition OP_H07 : Z := 7.
Definition OP_H08 : Z := 8.
Definition OP_H09 : Z := 9.
Definition OP_H10 : Z := 10.

(** The body of [_tar] from [with _indent():] on: the dispatch on [op],
    over the reducer [tar] and the slot functions it calls one level down.
    When no opcode test holds the body ends without a [return]: the call
    returns [None]. *)
Definition tar_dispatch (_fas fas tar : pyval -> res pyval)
  (subj op obj : pyval) : res pyval :=
  w <- _wut op ;;
  if py_eq w YES then
    x <- tar <( subj, op )> ;;
    y <- tar <( subj, obj )> ;;
    Ok <( x, y )>
  else if py_eq op OP_FAS then
    fas <( obj, subj )>
  else if py_eq op OP_CON then
    Ok obj
  else if py_eq op OP_TAR then
    b <- _fas <( 2, obj )> ;;
    c <- _fas <( 3, obj )> ;;
    s <- tar <( subj, b )> ;;
    f <- tar <( subj, c )> ;;
    tar <( s, f )>
  else if py_eq op OP_WUT then
    r <- tar <( subj, obj )> ;; wut r
  else if py_eq op OP_LUS then
    r <- tar <( subj, obj )> ;; lus r
  else if py_eq op OP_TIS then
    r <- tar <( subj, obj )> ;; tis r
  else if py_eq op OP_IF then
    let a := subj in
    b <- _fas <( 2, obj )> ;;
    c <- _fas <( 6, obj )> ;;
    d <- _fas <( 7, obj )> ;;
    tar <( a, 2, <( 0, 1 )>, 2, <( 1, c, d )>, <( 1, 0 )>, 2,
           <( 1, 2, 3 )>, <( 1, 0 )>, 4, 4, b )>
  else if py_eq op OP_H07 then
    b <- _fas <( 2, obj )> ;;
    c <- _fas <( 3, obj )> ;;
    tar <( subj, 2, b, 1, c )>
  else if py_eq op OP_H08 then
    b <- _fas <( 2, obj )> ;;
    c <- _fas <( 3, obj )> ;;
    tar <( subj, 7, <( <( 7, <( 0, 1 )>, b )>, 0, 1 )>, c )>
  else if py_eq op OP_H09 then
    b <- _fas <( 2, obj )> ;;
    c <- _fas <( 3, obj )> ;;
    tar <( subj, 7, c, 2, <( 0, 1 )>, 0, b )>
  else if py_eq op OP_H10 then
    hint <- _fas <( 2, obj )> ;;
    w <- _wut hint ;;
    if py_eq w YES then
      c <- _fas <( 2, hint )> ;;
      tar <( subj, 8, c, 7, <( 0, 3 )>, obj )>
    else
      c <- _fas <( 3, obj )> ;;
      tar <( subj, c )>
  else Ok PNone.

(** One level of [_tar]: normalise the argument, carve it with [_fas],
    dispatch. *)
Definition tar_body (_fas fas tar : pyval -> res pyval) (noun : pyval)
  : res pyval :=
  lst <- star noun ;;
  noun <- _t lst ;;
  subj <- _fas <( 2, noun )> ;;
  op <- _fas <( 6, noun )> ;;
  obj <- _fas <( 7, noun )> ;;
  tar_dispatch _fas fas tar subj op obj.

Fixpoint _tar (fuel : nat) (noun : pyval) : res pyval :=
  match fuel with
  | O => Timeout
  | S fuel =>
      tar_body (_fas fuel) (_public (_fas fuel)) (_public (_tar fuel)) noun
  end.

Definition tar (fuel : nat) : pyval -> res pyval := _public (_tar fuel).

(** [nock(n)] on a value that is not a string. *)
Definition nock (fuel : nat) (n : pyval) : res pyval := tar fuel n.

(** ** Nouns and their flat notation *)

(** A noun: a natural number, or a pair of nouns. *)
Fixpoint is_noun (v : pyval) : bool :=
  match v with
  | PInt z => 0 <=? z
  | PTuple [h; t] => is_noun h && is_noun t
  | _ => false
  end.

(** A raw argument of the constructor: a natural number, or a non-empty
    tuple of raw arguments. *)
Fixpoint raw (v : pyval) : bool :=
  match v with
  | PInt z => 0 <=? z
  | PTuple l => match l with [] => false | _ :: _ => forallb raw l end
  | PNone => false
  end.

(** The values [_aorc] leaves alone: no tuple but pairs, at any depth. *)
Fixpoint binary (v : pyval) : bool :=
  match v with
  | PTuple [h; t] => binary h && binary t
  | PTuple _ => false
  | _ => true
  end.

(** No [None] anywhere inside. *)
Fixpoint none_free (v : pyval) : bool :=
  match v with
  | PInt _ => true
  | PTuple l => forallb none_free l
  | PNone => false
  end.

(** A value the reducer works on: pairs all the way down, no [None]. *)
Definition value (v : pyval) : bool := binary v && none_free v.

(** Every integer inside is an [int]: none lies beyond [sys.maxint]. *)
Fixpoint small (v : pyval) : bool :=
  match v with
  | PInt _ => is_int v
  | PTuple l => forallb small l
  | PNone => true
  end.

(** A value that [_r] renders: built of pairs, of machine integers only. *)
Definition word (v : pyval) : bool := value v && small v.

(** What a returning [_aorc] guarantees about its result. *)
Definition aorc_post (a : pyval) : Prop :=
  forall x, _aorc a = Ok x ->
            binary x = true /\ none_free x = none_free a.

(** The bracket convention in the words of the specification: [[a]] is
    [(a, 0)], [[a b]] is [(a, b)], a longer list nests to the right. *)
Fixpoint rassoc (xs : list pyval) : pyval :=
  match xs with
  | [] => PNone
  | [a] => <( a, 0 )>
  | [a; b] => <( a, b )>
  | a :: rest => <( a, rassoc rest )>
  end.

(** The fuel order on outcomes: more depth can only turn [Timeout] into an
    outcome. *)
Definition le_res {A} (r r' : res A) : Prop := r = Timeout \/ r = r'.

(** [slot n t v]: at some depth, [_fas((n, t))] returns [v]. *)
Definition slot (n t v : pyval) : Prop :=
  exists fuel, _fas fuel <( n, t )> = Ok v.

(** [reduces x r]: at some depth, [tar(x)] ends with outcome [r]. *)
Definition reduces (x : pyval) (r : res pyval) : Prop :=
  exists fuel, tar fuel x = r /\ ended r.

(** ** Shapes of Python values, continued *)

(** Only naturals inside: no negative integer, no [None]. *)
Fixpoint natural (v : pyval) : bool :=
  match v with
  | PInt z => 0 <=? z
  | PTuple l => forallb natural l
  | PNone => false
  end.

(** [_t] has nothing to build from: no argument at all, or an empty tuple
    somewhere inside an argument. *)
Fixpoint has_empty (v : pyval) : bool :=
  match v with
  | PTuple l => match l with [] => true | _ :: _ => existsb has_empty l end
  | _ => false
  end.

Definition lacks_args (lst : list pyval) : bool :=
  match lst with [] => true | _ :: _ => existsb has_empty lst end.

(** What [_aorc] does with an argument, by whether it has an empty tuple. *)
Definition aorc_outcome (a : pyval) : Prop :=
  if has_empty a then _aorc a = Raise IndexError
  else exists x, _aorc a = Ok x.

(** A function that maps arguments of naturals to results of naturals. *)
Definition keeps_natural (F : pyval -> res pyval) : Prop :=
  forall x v, natural x = true -> F x = Ok v -> natural v = true.

(** ** The parser *)

From Stdlib Require DecimalPos.

(** The parser reads a byte string.  It raises two exceptions of its own,
    [StopIteration] (the token iterator is exhausted) and [SyntaxError],
    and lets through what the operators raise. *)
Inductive pexn : Type := StopIteration | SyntaxError | Inner (e : exn).

Inductive pres (A : Type) : Type :=
| Parsed (a : A)
| Failed (e : pexn)
| Starved.
Arguments Parsed {A} a.
Arguments Failed {A} e.
Arguments Starved {A}.

(** An outcome of the evaluator, seen from the parser. *)
Definition of_res {A} (r : res A) : pres A :=
  match r with
  | Ok a => Parsed a
  | Raise e => Failed (Inner e)
  | Timeout => Starved
  end.

(** [tk_iter] is a list iterator that every call of [_construct] advances:
    a computation takes the tokens not yet drawn and hands back those it
    left. *)
Definition parser (A : Type) : Type := list string -> pres (A * list string).

Definition ret {A} (a : A) : parser A := fun tk_iter => Parsed (a, tk_iter).

Definition fail {A} (e : pexn) : parser A := fun _ => Failed e.

Definition lift {A} (r : res A) : parser A :=
  fun tk_iter =>
    match r with
    | Ok a => Parsed (a, tk_iter)
    | Raise e => Failed (Inner e)
    | Timeout => Starved
    end.

Definition pbind {A B} (m : parser A) (k : A -> parser B) : parser B :=
  fun tk_iter =>
    match m tk_iter with
    | Parsed (a, tk_iter') => k a tk_iter'
    | Failed e => Failed e
    | Starved => Starved
    end.

Notation "x <~ m ;; k" := (pbind m (fun x => k))
  (at level 61, m at next level, right associativity).

(** [tk_iter.next()]. *)
Definition next : parser string :=
  fun tk_iter =>
    match tk_iter with
    | [] => Failed StopIteration
    | token :: tk_iter' => Parsed (token, tk_iter')
    end.

Definition NUMBERS : list Ascii.ascii := list_ascii_of_string "0123456789".

Definition in_NUMBERS (c : Ascii.ascii) : bool := existsb (Ascii.eqb c) NUMBERS.

(** The one-character alternatives of [TOKENS_CP]: the two brackets and
    the class of the five operators. *)
Definition token_chars : list Ascii.ascii := list_ascii_of_string "[]*?=/+".

Definition is_token_char (c : Ascii.ascii) : bool :=
  existsb (Ascii.eqb c) token_chars.

(** A run of digits that has ended is a token. *)
Definition flush (num : string) (tokens : list string) : list string :=
  match num with
  | EmptyString => tokens
  | _ => num :: tokens
  end.

(** [TOKENS_CP.findall(s)], scanning [s] from the left with [num] the run
    of digits under way: a digit extends the run (the run is greedy), any
    other character ends it; a bracket or an operator is a token of its
    own and every other character is skipped. *)
Fixpoint findall_from (num s : string) : list string :=
  match s with
  | EmptyString => flush num []
  | String c s' =>
      if in_NUMBERS c then findall_from (num ++ String c EmptyString) s'
      else flush num (if is_token_char c
                      then String c EmptyString :: findall_from EmptyString s'
                      else findall_from EmptyString s')
  end%string.

Definition TOKENS_CP_findall (s : string) : list string :=
  findall_from EmptyString s.

(** [OPS], the public functions by operator; those that recurse take the
    depth left. *)
Definition OPS (fuel : nat) : list (string * (pyval -> res pyval)) :=
  [("/", fas fuel); ("+", lus); ("*", tar fuel); ("=", tis); ("?", wut)]%string.

(** [OPS[token]] when [token in OPS]. *)
Fixpoint lookup {A} (token : string) (d : list (string * A)) : option A :=
  match d with
  | [] => None
  | (k, f) :: d' => if (token =? k)%string then Some f else lookup token d'
  end.

(** [token[0]]. *)
Definition first_char (token : string) : res Ascii.ascii :=
  match token with
  | EmptyString => Raise IndexError
  | String c _ => Ok c
  end.

(** What [str.isspace] holds of a byte. *)
Definition isspace (c : Ascii.ascii) : bool :=
  let n := Ascii.nat_of_ascii c in
  ((9 <=? n) && (n <=? 13) || (n =? 32))%nat.

(** [s.rstrip()]. *)
Fixpoint rstrip (s : string) : string :=
  match s with
  | EmptyString => EmptyString
  | String c s' =>
      match rstrip s' with
      | EmptyString => if isspace c then EmptyString else String c EmptyString
      | r => String c r
      end
  end.

(** [int(token)] where [token[0]] is a digit, as at its one call: no blank
    and no sign to skip in front; blanks may follow the digits, anything
    else after them is a [ValueError]. *)
Definition int (token : string) : res pyval :=
  match NilZero.uint_of_string (rstrip token) with
  | Some d => Ok (PInt (Z.of_uint d))
  | None => Raise ValueError
  end.

(** [_construct(tk_iter, token)], and its [while] loop from the test of
    [token] on as [construct_loop]; [fuel] bounds the calls and the turns
    of the loop together. *)
Fixpoint _construct (fuel : nat) (token : string) : parser pyval :=
  match fuel with
  | O => fun _ => Starved
  | S fuel =>
      if (token =? "[")%string then
        token <~ next ;;
        construct_loop fuel [] token
      else
        match lookup token (OPS fuel) with
        | Some op =>
            token <~ next ;;
            noun <~ _construct fuel token ;;
            lift (op noun)
        | None =>
            c <~ lift (first_char token) ;;
            if in_NUMBERS c then lift (int token)
            else fail SyntaxError
        end
  end
with construct_loop (fuel : nat) (out : list pyval) (token : string)
  : parser pyval :=
  match fuel with
  | O => fun _ => Starved
  | S fuel =>
      if (token =? "]")%string then ret (PTuple out)
      else
        x <~ _construct fuel token ;;
        token <~ next ;;
        construct_loop fuel (out ++ [x]) token
  end.

(** [parse(s)]: the value of the first expression of [s]; the iterator is
    dropped with what it still holds. *)
Definition parse (fuel : nat) (s : string) : pres pyval :=
  match (token <~ next ;; _construct fuel token) (TOKENS_CP_findall s) with
  | Parsed (expr, _) => Parsed expr
  | Failed e => Failed e
  | Starved => Starved
  end.

(** [nock(n)] on a string. *)
Definition nock_str (fuel : nat) (n : string) : pres pyval :=
  match parse fuel n with
  | Parsed expr =>
      if String.prefix "*" n then Parsed expr else of_res (tar fuel expr)
  | Failed e => Failed e
  | Starved => Starved
  end.

(** [parses s r]: with depth enough, [parse(s)] ends with outcome [r]. *)
Definition parses (s : string) (r : pres pyval) : Prop :=
  exists fuel, parse fuel s = r /\ r <> Starved.

(** The tokens of the rendering of a value. *)
Fixpoint toks (v : pyval) : list string :=
  match v with
  | PInt z => [repr z]
  | PTuple l => "[" :: flat_map toks l ++ ["]"]
  | PNone => []
  end%string.

(** [nock_ends s r]: with depth enough, [nock(s)] ends with outcome [r]. *)
Definition nock_ends (s : string) (r : pres pyval) : Prop :=
  exists fuel, nock_str fuel s = r /\ r <> Starved.

(** The fuel order on the outcomes of the parser. *)
Definition le_pres {A} (r r' : pres A) : Prop := r = Starved \/ r = r'.

(** Digits only. *)
Fixpoint all_digits (s : string) : bool :=
  match s with
  | EmptyString => true
  | String c s' => in_NUMBERS c && all_digits s'
  end.

(** The text goes on with a digit. *)
Definition starts_digit (s : string) : bool :=
  match s with
  | EmptyString => false
  | String c _ => in_NUMBERS c
  end.

(** A depth that suffices to parse the rendering of a value. *)
Fixpoint pcost (v : pyval) : nat :=
  match v with
  | PTuple l => 2 + List.length l + list_sum (map pcost l)
  | _ => 1
  end.

(** The one-character tokens of the operators. *)
Definition is_op_char (c : Ascii.ascii) : bool :=
  existsb (Ascii.eqb c) (list_ascii_of_string "*?=/+").

(** A text without operators. *)
Fixpoint operator_free (s : string) : bool :=
  match s with
  | EmptyString => true
  | String c s' => negb (is_op_char c) && operator_free s'
  end.

(** A token that is a bracket or a number. *)
Definition plain_token (token : string) : bool :=
  (token =? "[")%string || (token =? "]")%string
  || (all_digits token && negb (token =? EmptyString)%string).

(** What the parser itself can end with: a value, or one of its own two
    exceptions. *)
Definition parser_outcome {A} (r : pres A) : Prop :=
  match r with
  | Parsed _ => True
  | Failed StopIteration => True
  | Failed SyntaxError => True
  | _ => False
  end.

(** * Properties *)

(** ** The doctests of the module *)

Example doctest_aorc_t :
  _aorc 1 = Ok (PInt 1) /\
  _aorc <( 1, 2 )> = Ok <( 1, 2 )> /\
  _t [PInt 1] = Ok <( 1, 0 )> /\
  _t [PInt 1; PInt 2] = Ok <( 1, 2 )> /\
  _t [PInt 1; PInt 2; PInt 3] = Ok <( 1, <( 2, 3 )> )> /\
  _t [PInt 1; PInt 2; PInt 3; PInt 4] = Ok <( 1, <( 2, <( 3, 4 )> )> )> /\
  _t [PInt 42; <( <( 4, 0, 1 )>, <( 3, 0, 1 )> )>]
  = Ok <( 42, <( <( 4, <( 0, 1 )> )>, <( 3, <( 0, 1 )> )> )> )>.
Proof. repeat split. Qed.

Example doctest_axioms :
  wut <( 1, 2 )> = Ok (PInt 0) /\ wut 1 = Ok (PInt 1) /\
  lus <( 1, 2 )> = Ok <( 1, 2 )> /\ lus 1 = Ok (PInt 2) /\
  tis <( 1, 1 )> = Ok (PInt 0) /\ tis <( 1, 0 )> = Ok (PInt 1).
Proof. repeat split. Qed.

Example doctest_fas :
  let tree := <( <( 4, 5 )>, <( 6, 14, 15 )> )> in
  fas 2 <( 1, tree )> = Ok <( <( 4, 5 )>, <( 6, <( 14, 15 )> )> )> /\
  fas 2 <( 2, tree )> = Ok <( 4, 5 )> /\
  fas 2 <( 3, tree )> = Ok <( 6, <( 14, 15 )> )> /\
  fas 2 <( 7, tree )> = Ok <( 14, 15 )>.
Proof. repeat split. Qed.

Example doctest_tar :
  tar 9 <( 42, <( <( 4, 0, 1 )>, <( 3, 0, 1 )> )> )> = Ok <( 43, 1 )> /\
  tar 9 <( 2, 0, 1 )> = Ok (PInt 2) /\
  tar 9 <( <( <( 4, 5 )>, <( 6, 14, 15 )> )>, <( 0, 7 )> )>
  = Ok <( 14, 15 )> /\
  tar 9 <( 42, 1, 5 )> = Ok (PInt 5) /\
  tar 9 <( 42, <( 1, 153, 218 )> )> = Ok <( 153, 218 )> /\
  tar 9 <( 77, <( 2, <( 1, 42 )>, <( 1, 1, 153, 218 )> )> )>
  = Ok <( 153, 218 )> /\
  tar 9 <( 57, <( 0, 1 )> )> = Ok (PInt 57) /\
  tar 9 <( <( 132, 19 )>, <( 0, 3 )> )> = Ok (PInt 19) /\
  tar 9 <( <( 42, 43 )>, <( 3, 0, 1 )> )> = Ok (PInt 0) /\
  tar 9 <( 42, <( 3, 0, 1 )> )> = Ok (PInt 1) /\
  tar 9 <( 57, <( 4, 0, 1 )> )> = Ok (PInt 58) /\
  tar 9 <( <( 57, 57 )>, <( 5, 0, 1 )> )> = Ok (PInt 0) /\
  tar 9 <( <( 57, 58 )>, <( 5, 0, 1 )> )> = Ok (PInt 1) /\
  tar 9 <( 42, <( 7, <( 4, 0, 1 )>, <( 4, 0, 1 )> )> )> = Ok (PInt 44) /\
  tar 18 <( 42, <( 8, <( 4, 0, 1 )>, <( 0, 1 )> )> )> = Ok <( 43, 42 )> /\
  tar 18 <( 42, <( 8, <( 4, 0, 1 )>, <( 4, 0, 3 )> )> )> = Ok (PInt 43) /\
  tar 9 <( <( 132, 19 )>, <( 10, 37, <( 4, 0, 3 )> )> )> = Ok (PInt 20) /\
  nock 9 <( 2, 0, 1 )> = Ok (PInt 2) /\
  _r <( 42, 0, 1 )> = Ok "[42 0 1]"%string.
Proof. vm_compute. repeat split. Qed.

(** ** The result monad *)

Lemma le_res_refl {A} (r : res A) : le_res r r.
Proof. now right. Qed.

Lemma le_res_trans {A} (a b c : res A) :
  le_res a b -> le_res b c -> le_res a c.
Proof.
  intros [H | H] H'; [now left | now subst].
Qed.

Lemma bind_le {A B} (m m' : res A) (k k' : A -> res B) :
  le_res m m' -> (forall a, le_res (k a) (k' a)) ->
  le_res (bind m k) (bind m' k').
Proof.
  intros [-> | ->] Hk; [now left |].
  destruct m' as [a | e |]; simpl; [apply Hk | now right | now right].
Qed.

Lemma try_le {A} (m m' h : res A) :
  le_res m m' -> le_res (try_TypeError m h) (try_TypeError m' h).
Proof. intros [-> | ->]; [now left | now right]. Qed.

Lemma public_le (f g : pyval -> res pyval) :
  (forall x, le_res (f x) (g x)) ->
  forall x, le_res (_public f x) (_public g x).
Proof.
  intros H x. unfold _public.
  apply bind_le; [apply le_res_refl | intros _].
  apply bind_le; [apply H | intros r; apply le_res_refl].
Qed.

Lemma if_le {A} (c : bool) (a a' b b' : res A) :
  le_res a a' -> le_res b b' ->
  le_res (if c then a else b) (if c then a' else b').
Proof. now destruct c. Qed.

Ltac le_step :=
  first
    [ apply le_res_refl
    | apply if_le
    | apply try_le
    | apply bind_le; [ | intro ] ].

(** ** Fuel monotonicity *)

Lemma fas_step (fuel : nat) :
  forall arg, le_res (_fas fuel arg) (_fas (S fuel) arg).
Proof.
  induction fuel as [| fuel IH]; intros arg; [now left |].
  change (_fas (S (S fuel)) arg) with
    (match arg with
     | PTuple [n; noun] =>
         noun <- _aorc noun ;;
         try_TypeError
           (if py_eq n 1 then Ok noun
            else if py_eq n 2 then getitem noun 0
            else if py_eq n 3 then getitem noun 1
            else
              m <- py_mod n 2 ;;
              if py_eq m 0 then
                h <- py_floordiv n 2 ;;
                inner <- _fas (S fuel) <( h, noun )> ;;
                _fas (S fuel) <( 2, inner )>
              else
                m <- py_mod n 2 ;;
                if py_eq m 1 then
                  p <- py_sub n 1 ;;
                  h <- py_floordiv p 2 ;;
                  inner <- _fas (S fuel) <( h, noun )> ;;
                  _fas (S fuel) <( 3, inner )>
                else Ok noun)
           (Ok noun)
     | PTuple _ => Raise ValueError
     | _ => Raise TypeError
     end).
  cbn [_fas].
  destruct arg as [z | l |]; try apply le_res_refl.
  destruct l as [| n [| noun [| ? ?]]]; try apply le_res_refl.
  repeat (le_step; try apply IH).
Qed.

Lemma tar_body_le (f1 f1' f2 f2' f3 f3' : pyval -> res pyval) :
  (forall x, le_res (f1 x) (f1' x)) ->
  (forall x, le_res (f2 x) (f2' x)) ->
  (forall x, le_res (f3 x) (f3' x)) ->
  forall noun, le_res (tar_body f1 f2 f3 noun) (tar_body f1' f2' f3' noun).
Proof.
  intros H1 H2 H3 noun. unfold tar_body, tar_dispatch.
  repeat (le_step; try apply H1; try apply H2; try apply H3).
Qed.

Lemma tar_step (fuel : nat) :
  forall noun, le_res (_tar fuel noun) (_tar (S fuel) noun).
Proof.
  induction fuel as [| fuel IH]; intros noun; [now left |].
  change (_tar (S (S fuel)) noun) with
    (tar_body (_fas (S fuel)) (_public (_fas (S fuel)))
       (_public (_tar (S fuel))) noun).
  change (_tar (S fuel) noun) with
    (tar_body (_fas fuel) (_public (_fas fuel)) (_public (_tar fuel)) noun).
  apply tar_body_le.
  - apply fas_step.
  - apply public_le, fas_step.
  - apply public_le, IH.
Qed.

Lemma fas_le (fuel fuel' : nat) (arg : pyval) :
  (fuel <= fuel')%nat -> le_res (_fas fuel arg) (_fas fuel' arg).
Proof.
  induction 1 as [| k _ IH]; [apply le_res_refl |].
  eapply le_res_trans; [exact IH | apply fas_step].
Qed.

Lemma _tar_le (fuel fuel' : nat) (noun : pyval) :
  (fuel <= fuel')%nat -> le_res (_tar fuel noun) (_tar fuel' noun).
Proof.
  induction 1 as [| k _ IH]; [apply le_res_refl |].
  eapply le_res_trans; [exact IH | apply tar_step].
Qed.

Lemma tar_le (fuel fuel' : nat) (noun : pyval) :
  (fuel <= fuel')%nat -> le_res (tar fuel noun) (tar fuel' noun).
Proof.
  intros H. apply public_le. intros x. now apply _tar_le.
Qed.

Lemma fas_mono (fuel fuel' : nat) (arg v : pyval) :
  (fuel <= fuel')%nat -> _fas fuel arg = Ok v -> _fas fuel' arg = Ok v.
Proof.
  intros H E. destruct (fas_le fuel fuel' arg H) as [T | T]; congruence.
Qed.

Lemma tar_mono (fuel fuel' : nat) (noun : pyval) (r : res pyval) :
  (fuel <= fuel')%nat -> tar fuel noun = r -> ended r -> tar fuel' noun = r.
Proof.
  intros H E En. destruct (tar_le fuel fuel' noun H) as [T | T].
  - unfold ended in En. congruence.
  - congruence.
Qed.

(** ** Equality of values *)

Lemma py_eq_refl (a : pyval) : py_eq a a = true.
Proof.
  induction a as [z | | l IH] using pyval_ind'; simpl.
  - apply Z.eqb_refl.
  - reflexivity.
  - induction IH as [| x xs Hx _ IHxs]; [reflexivity |].
    now rewrite Hx, IHxs.
Qed.

Lemma py_eq_true (a : pyval) : forall b, py_eq a b = true -> a = b.
Proof.
  induction a as [z | | l IH] using pyval_ind'; intros [y | m |] H;
    simpl in H; try discriminate.
  - apply Z.eqb_eq in H. now subst.
  - reflexivity.
  - f_equal. revert m H.
    induction IH as [| x xs Hx _ IHxs]; intros [| y ys] H;
      try discriminate; [reflexivity |].
    apply andb_true_iff in H as [H1 H2].
    f_equal; [now apply Hx | now apply IHxs].
Qed.

Lemma py_eq_spec (a b : pyval) : py_eq a b = true <-> a = b.
Proof.
  split; [apply py_eq_true | intros ->; apply py_eq_refl].
Qed.

Lemma py_eq_false (a b : pyval) : py_eq a b = false <-> a <> b.
Proof.
  rewrite <- py_eq_spec. destruct (py_eq a b); split; congruence.
Qed.

(** ** The constructor on nouns and on raw arguments *)

Lemma aorc_tuple (l : list pyval) : _aorc (PTuple l) = _t l.
Proof. reflexivity. Qed.

Lemma t_one (a : pyval) : _t [a] = x <- _aorc a ;; Ok <( x, 0 )>.
Proof. reflexivity. Qed.

Lemma t_two (a b : pyval) :
  _t [a; b] = x <- _aorc a ;; y <- _aorc b ;; Ok <( x, y )>.
Proof. reflexivity. Qed.

Lemma t_more (a b c : pyval) (rest : list pyval) :
  _t (a :: b :: c :: rest) =
  x <- _aorc a ;; y <- _t (b :: c :: rest) ;; Ok <( x, y )>.
Proof. reflexivity. Qed.

Lemma aorc_noun (v : pyval) : is_noun v = true -> _aorc v = Ok v.
Proof.
  induction v as [z | | l IH] using pyval_ind'; intros H;
    [reflexivity | discriminate |].
  destruct l as [| h [| t [| ? ?]]]; try discriminate.
  simpl in H. apply andb_true_iff in H as [Hh Ht].
  inversion IH as [| ? ? IHh IH']; subst.
  inversion IH' as [| ? ? IHt _]; subst.
  rewrite aorc_tuple, t_two, (IHh Hh), (IHt Ht). reflexivity.
Qed.

Lemma t_raw (lst : list pyval) :
  Forall (fun a => exists x, _aorc a = Ok x /\ is_noun x = true) lst ->
  lst <> [] ->
  exists xs,
    Forall2 (fun a x => _aorc a = Ok x /\ is_noun x = true) lst xs /\
    _t lst = Ok (rassoc xs) /\ is_noun (rassoc xs) = true.
Proof.
  induction 1 as [| a rest (x & Hx & Nx) Hrest IH]; intros Hne;
    [contradiction |].
  destruct rest as [| b rest].
  - exists [x]. split; [now repeat constructor |].
    rewrite t_one, Hx. simpl. now rewrite Nx.
  - destruct IH as (ys & Hys & Ht & Ny); [discriminate |].
    exists (x :: ys). split; [now constructor |].
    inversion Hys as [| ? y ? ys' (Hy & Nyy) Hys']; subst.
    destruct rest as [| c rest].
    + inversion Hys'; subst.
      rewrite t_two, Hx, Hy. simpl. now rewrite Nx, Nyy.
    + inversion Hys' as [| ? y' ? ys'' ? ?]; subst.
      rewrite t_more, Hx, Ht. simpl bind.
      change (rassoc (x :: y :: y' :: ys''))
        with <( x, rassoc (y :: y' :: ys'') )>.
      split; [reflexivity |].
      cbn [is_noun]. now rewrite Nx, Ny.
Qed.

Lemma aorc_raw (a : pyval) :
  raw a = true -> exists x, _aorc a = Ok x /\ is_noun x = true.
Proof.
  induction a as [z | | l IH] using pyval_ind'; intros H;
    [now exists (PInt z) | discriminate |].
  assert (Hne : l <> []) by (destruct l; [discriminate | discriminate]).
  assert (Hall : forallb raw l = true) by (destruct l; [discriminate | exact H]).
  rewrite forallb_forall in Hall.
  destruct (t_raw l) as (xs & _ & Ht & Nx); [| exact Hne |].
  - rewrite Forall_forall in IH |- *. intros a Ha. apply IH; auto.
  - exists (rassoc xs). now rewrite aorc_tuple.
Qed.

(** ** Rendering *)

(** [_r] returns on a value without [None] and without [long], and
    raises [TypeError] on every other. *)
Lemma r_spec (v : pyval) :
  if none_free v && small v then exists s, _r v = Ok s
  else _r v = Raise TypeError.
Proof.
  induction v as [z | | l IH] using pyval_ind'.
  - cbn [none_free small andb _r]. destruct (is_int (PInt z)); eauto.
  - reflexivity.
  - cbn [none_free small _r].
    set (each := fix each (l : list pyval) : res (list string) :=
                   match l with
                   | [] => Ok []
                   | i :: rest => s <- _r i ;; ss <- each rest ;; Ok (s :: ss)
                   end).
    assert (E : if forallb none_free l && forallb small l
                then exists ss, each l = Ok ss
                else each l = Raise TypeError).
    { induction IH as [| x xs Hx _ IHxs]; [now eexists |].
      cbn [forallb each].
      destruct (none_free x), (small x), (forallb none_free xs),
        (forallb small xs); cbn [andb] in Hx, IHxs |- *;
        try destruct Hx as (s & ->); try rewrite Hx;
        try destruct IHxs as (ss & ->); try rewrite IHxs;
        cbn [bind]; eauto. }
    destruct (forallb none_free l && forallb small l).
    + destruct E as (ss & ->). now eexists.
    + now rewrite E.
Qed.

Lemma r_none_free (v : pyval) :
  none_free v = true -> small v = true -> exists s, _r v = Ok s.
Proof. intros N S. pose proof (r_spec v) as H. now rewrite N, S in H. Qed.

Lemma r_has_none (v : pyval) :
  none_free v = false -> _r v = Raise TypeError.
Proof. intros N. pose proof (r_spec v) as H. now rewrite N in H. Qed.

(** A [long] somewhere inside: the rendering raises. *)
Lemma r_long (v : pyval) : small v = false -> _r v = Raise TypeError.
Proof.
  intros S. pose proof (r_spec v) as H. now rewrite S, andb_false_r in H.
Qed.

Lemma r_Ok_inv (v : pyval) (s : string) :
  _r v = Ok s -> none_free v = true /\ small v = true.
Proof.
  intros E. pose proof (r_spec v) as H.
  destruct (none_free v), (small v); cbn [andb] in H; try congruence; auto.
Qed.

Lemma noun_none_free (v : pyval) : is_noun v = true -> none_free v = true.
Proof.
  induction v as [z | | l IH] using pyval_ind'; intros H;
    [reflexivity | discriminate |].
  destruct l as [| h [| t [| ? ?]]]; try discriminate.
  simpl in H. apply andb_true_iff in H as [Hh Ht].
  inversion IH as [| ? ? IHh IH']; subst.
  inversion IH' as [| ? ? IHt _]; subst.
  simpl. now rewrite (IHh Hh), (IHt Ht).
Qed.

Lemma small_pair (x y : pyval) :
  small <( x, y )> = true <-> small x = true /\ small y = true.
Proof. cbn [small forallb]. rewrite andb_true_r. apply andb_true_iff. Qed.

Lemma small_int (z : Z) : is_int (PInt z) = true -> small (PInt z) = true.
Proof. intros H. exact H. Qed.

(** The public wrapper raises at once on an argument it cannot render. *)
Lemma public_long (f : pyval -> res pyval) (x : pyval) :
  small x = false -> _public f x = Raise TypeError.
Proof. intros S. unfold _public. now rewrite (r_long x S). Qed.

Lemma public_ok (f : pyval -> res pyval) (x v : pyval) :
  none_free x = true -> small x = true -> f x = Ok v ->
  none_free v = true -> small v = true ->
  _public f x = Ok v.
Proof.
  intros Hx Sx E Hv Sv. unfold _public.
  destruct (r_none_free x Hx Sx) as (s & ->). simpl. rewrite E. simpl.
  destruct (r_none_free v Hv Sv) as (s' & ->). reflexivity.
Qed.

(** ** Noun construction *)

(** C7.  On a non-empty argument list whose elements are raw (naturals, or
    non-empty tuples of raw elements) [_t] returns, and what it returns is
    the right-nested pair structure of the specification over the
    constructed elements: [(x, 0)] for one element, [(x, y)] for two,
    [(x, rest)] with [rest] the construction of the remaining elements for
    three or more.  Each element goes through [_aorc], which leaves an
    integer as it is and hands the elements of a tuple to [_t] again. *)
Theorem t_right_assoc (lst : list pyval)
  (Hne : lst <> []) (Hraw : forallb raw lst = true) :
  exists xs,
    Forall2 (fun a x => _aorc a = Ok x /\ is_noun x = true) lst xs /\
    _t lst = Ok (rassoc xs) /\
    is_noun (rassoc xs) = true /\
    (forall x, xs = [x] -> _t lst = Ok <( x, 0 )>) /\
    (forall x y, xs = [x; y] -> _t lst = Ok <( x, y )>) /\
    (forall x y z more r,
        xs = x :: y :: z :: more ->
        _t (tl lst) = Ok r -> _t lst = Ok <( x, r )>) /\
    (forall l, _aorc (PTuple l) = _t l) /\
    (forall z, _aorc (PInt z) = Ok (PInt z)).
Proof.
  destruct (t_raw lst) as (xs & F & E & N); [| exact Hne |].
  { rewrite forallb_forall in Hraw. apply Forall_forall.
    intros a Ha. apply aorc_raw. auto. }
  exists xs. repeat split; auto.
  - intros x ->. exact E.
  - intros x y ->. exact E.
  - intros x y z more r -> Hr.
    inversion F as [| a ? rest ? (Ha & _) F1]; subst.
    inversion F1 as [| b ? rest1 ? _ F2]; subst.
    inversion F2 as [| c ? rest2 ? _ _]; subst.
    simpl tl in Hr. rewrite t_more, Ha, Hr. reflexivity.
Qed.

Lemma t_right_assoc_witness :
  exists xs,
    _t [PInt 1; <( 2, 3, 4 )>; <( 5 )>; PInt 6] = Ok (rassoc xs) /\
    is_noun (rassoc xs) = true.
Proof.
  destruct (t_right_assoc [PInt 1; <( 2, 3, 4 )>; <( 5 )>; PInt 6])
    as (xs & _ & E & N & _); [discriminate | reflexivity |].
  exists xs. split; assumption.
Defined.

Example t_flat_example :
  _t [PInt 1; <( 2, 3, 4 )>; <( 5 )>; PInt 6]
  = Ok <( 1, <( <( 2, <( 3, 4 )> )>, <( <( 5, 0 )>, 6 )> )> )>.
Proof. reflexivity. Qed.

(** The constructor does raise when a tuple is empty. *)
Remark t_empty : _t [] = Raise IndexError /\ _t [<( )>] = Raise IndexError.
Proof. split; reflexivity. Qed.

(** ** The axiomatic functions *)

(** C5, as the specification states it, fails on a cell: [_wut] answers
    [0] there, not [1]. *)
Lemma wut_cell_is_not_one :
  is_noun <( 1, 2 )> = true /\
  _wut <( 1, 2 )> = Ok (PInt 0) /\ wut <( 1, 2 )> = Ok (PInt 0) /\
  _wut <( 1, 2 )> <> Ok (PInt 1) /\ wut <( 1, 2 )> <> Ok (PInt 1).
Proof. repeat split; try reflexivity; discriminate. Qed.

(** C5 (amended).  [_wut] answers [YES = 0] on a cell and [NO = 1] on an
    atom that is an [int], as its docstring has it; it returns on every
    value.  The public [wut] gives the same answer on every noun of
    machine integers, and raises from its log rendering on a noun that
    holds a [long]. *)
Theorem wut_yes_on_cells (n h t : pyval) (z : Z)
  (Hz : is_int (PInt z) = true) (Hn : is_noun n = true) :
  _wut <( h, t )> = Ok (PInt YES) /\
  _wut (PInt z) = Ok (PInt NO) /\
  YES = 0 /\ NO = 1 /\
  _wut n = Ok (PInt (if is_int n then 1 else 0)) /\
  (small n = true -> wut n = _wut n) /\
  (small n = false -> wut n = Raise TypeError).
Proof.
  repeat match goal with |- _ /\ _ => split end; try reflexivity.
  - unfold _wut. now rewrite Hz.
  - intros Sn. apply public_ok;
      [now apply noun_none_free | exact Sn | reflexivity | reflexivity |].
    now destruct (is_int n).
  - apply public_long.
Qed.

Lemma wut_yes_on_cells_witness :
  wut <( 4, 5 )> = Ok (PInt 0) /\ wut 7 = Ok (PInt 1).
Proof.
  split.
  - destruct (wut_yes_on_cells <( 4, 5 )> 4 5 0 eq_refl eq_refl)
      as (_ & _ & _ & _ & E & W & _). rewrite W by reflexivity. exact E.
  - destruct (wut_yes_on_cells 7 4 5 0 eq_refl eq_refl)
      as (_ & _ & _ & _ & E & W & _). rewrite W by reflexivity. exact E.
Defined.

(** An integer beyond [sys.maxint] is a [long], which [isinstance(noun,
    int)] does not take for an atom: [_wut] answers as on a cell, and the
    public [wut] raises when it renders its argument for the log. *)
Remark wut_long (z : Z) :
  is_int (PInt z) = false ->
  _wut (PInt z) = Ok (PInt YES) /\ wut (PInt z) = Raise TypeError.
Proof.
  intros H. split.
  - unfold _wut. now rewrite H.
  - apply public_long. exact H.
Qed.




Lemma tis_pair (a b : pyval) :
  _tis <( a, b )> = Ok (PInt (if py_eq a b then YES else NO)).
Proof. reflexivity. Qed.

(** C9.  [_tis] on a pair answers [0] exactly when the two components are
    the same noun and [1] otherwise: it answers [0] on [(x, x)] and [1] on
    [(0, 1)]; two atoms are the same when they are the same integer, two
    cells when their heads and their tails are, an atom and a cell never.
    The public [tis] gives the same answers on nouns of machine integers,
    and raises on the others when it renders them for the log. *)
Theorem tis_structural (x a b h1 t1 h2 t2 : pyval) (m n : Z)
  (Hx : is_noun x = true) (Ha : is_noun a = true) (Hb : is_noun b = true) :
  _tis <( x, x )> = Ok (PInt 0) /\
  (small x = true -> tis <( x, x )> = Ok (PInt 0)) /\
  _tis <( 0, 1 )> = Ok (PInt 1) /\ tis <( 0, 1 )> = Ok (PInt 1) /\
  (_tis <( a, b )> = Ok (PInt 0) <-> a = b) /\
  (_tis <( a, b )> = Ok (PInt 1) <-> a <> b) /\
  (small <( a, b )> = true -> tis <( a, b )> = _tis <( a, b )>) /\
  (small <( a, b )> = false -> tis <( a, b )> = Raise TypeError) /\
  (_tis <( PInt m, PInt n )> = Ok (PInt 0) <-> m = n) /\
  (_tis <( <( h1, t1 )>, <( h2, t2 )> )> = Ok (PInt 0) <->
     _tis <( h1, h2 )> = Ok (PInt 0) /\ _tis <( t1, t2 )> = Ok (PInt 0)) /\
  _tis <( PInt m, <( h1, t1 )> )> = Ok (PInt 1) /\
  _tis <( <( h1, t1 )>, PInt m )> = Ok (PInt 1).
Proof.
  assert (Eq0 : forall u v, _tis <( u, v )> = Ok (PInt 0) <-> u = v).
  { intros u v. rewrite tis_pair, <- py_eq_spec.
    destruct (py_eq u v); split; intros H; try reflexivity; discriminate. }
  assert (Pub : forall u v, is_noun u = true -> is_noun v = true ->
                       small <( u, v )> = true ->
                       tis <( u, v )> = _tis <( u, v )>).
  { intros u v Hu Hv S. rewrite tis_pair. apply public_ok.
    - simpl. now rewrite !noun_none_free.
    - exact S.
    - apply tis_pair.
    - reflexivity.
    - now destruct (py_eq u v). }
  repeat match goal with |- _ /\ _ => split end.
  - now apply Eq0.
  - intros S. rewrite Pub; [now apply Eq0 | assumption ..|].
    apply small_pair. auto.
  - reflexivity.
  - reflexivity.
  - apply Eq0.
  - rewrite tis_pair. split; intros H.
    + apply py_eq_false. destruct (py_eq a b); [discriminate | reflexivity].
    + apply py_eq_false in H. now rewrite H.
  - now apply Pub.
  - apply public_long.
  - rewrite Eq0. split; [now inversion 1 | now intros ->].
  - rewrite !Eq0. split; [now inversion 1 | now intros [-> ->]].
  - reflexivity.
  - reflexivity.
Qed.

Lemma tis_structural_witness :
  tis <( <( 3, 4 )>, <( 3, 4 )> )> = Ok (PInt 0) /\
  tis <( <( 3, 4 )>, <( 3, 5 )> )> = Ok (PInt 1).
Proof.
  destruct (tis_structural <( 3, 4 )> <( 3, 4 )> <( 3, 5 )> 0 0 0 0 0 0
              eq_refl eq_refl eq_refl)
    as (_ & E1 & _ & _ & _ & E2 & E3 & _).
  split; [apply E1; reflexivity |].
  rewrite E3 by reflexivity. apply E2. discriminate.
Defined.

(** ** What the constructor returns *)

Lemma aorc_binary (v : pyval) : binary v = true -> _aorc v = Ok v.
Proof.
  induction v as [z | | l IH] using pyval_ind'; intros H;
    [reflexivity | reflexivity |].
  destruct l as [| h [| t [| ? ?]]]; try discriminate.
  simpl in H. apply andb_true_iff in H as [Hh Ht].
  inversion IH as [| ? ? IHh IH']; subst.
  inversion IH' as [| ? ? IHt _]; subst.
  rewrite aorc_tuple, t_two, (IHh Hh), (IHt Ht). reflexivity.
Qed.

Lemma bind_Ok {A B} (m : res A) (k : A -> res B) (b : B) :
  bind m k = Ok b -> exists a, m = Ok a /\ k a = Ok b.
Proof. destruct m as [a | e |]; try discriminate. now exists a. Qed.

Lemma t_post (lst : list pyval) :
  Forall aorc_post lst ->
  forall v, _t lst = Ok v ->
    exists x y, v = <( x, y )> /\ binary x = true /\ binary y = true /\
                none_free v = forallb none_free lst.
Proof.
  induction 1 as [| a rest Ha Hrest IH]; intros v E; [discriminate |].
  destruct rest as [| b rest].
  - rewrite t_one in E. apply bind_Ok in E as (x & Ex & E).
    injection E as <-. destruct (Ha x Ex) as (Bx & Nx).
    exists x, (PInt 0). simpl. rewrite Nx. now repeat split.
  - destruct rest as [| c rest].
    + rewrite t_two in E. apply bind_Ok in E as (x & Ex & E).
      apply bind_Ok in E as (y & Ey & E). injection E as <-.
      destruct (Ha x Ex) as (Bx & Nx).
      inversion Hrest as [| ? ? Hb _]; subst.
      destruct (Hb y Ey) as (By & Ny).
      exists x, y. simpl. rewrite Nx, Ny. now repeat split.
    + rewrite t_more in E. apply bind_Ok in E as (x & Ex & E).
      apply bind_Ok in E as (y & Ey & E). injection E as <-.
      destruct (Ha x Ex) as (Bx & Nx).
      destruct (IH y Ey) as (y1 & y2 & -> & B1 & B2 & Ny).
      exists x, <( y1, y2 )>. repeat split; auto.
      * simpl. now rewrite B1, B2.
      * change (none_free <( x, <( y1, y2 )> )>)
          with (none_free x && (none_free <( y1, y2 )> && true)).
        rewrite Ny, Nx, andb_true_r. reflexivity.
Qed.

Lemma aorc_post_all (a : pyval) : aorc_post a.
Proof.
  induction a as [z | | l IH] using pyval_ind'; intros x E.
  - injection E as <-. now split.
  - injection E as <-. now split.
  - rewrite aorc_tuple in E.
    destruct (t_post l IH x E) as (x1 & x2 & -> & B1 & B2 & N).
    split; [simpl; now rewrite B1, B2 | exact N].
Qed.

Lemma t_pair (lst : list pyval) (v : pyval) :
  _t lst = Ok v ->
  exists x y, v = <( x, y )> /\ binary x = true /\ binary y = true /\
              none_free v = forallb none_free lst.
Proof.
  apply t_post. apply Forall_forall. intros a _. apply aorc_post_all.
Qed.

Lemma t_idem (lst : list pyval) (x y : pyval) :
  _t lst = Ok <( x, y )> -> _t [x; y] = Ok <( x, y )>.
Proof.
  intros E. destruct (t_pair lst _ E) as (x' & y' & Ev & Bx & By & _).
  injection Ev as -> ->.
  now rewrite t_two, (aorc_binary _ Bx), (aorc_binary _ By).
Qed.

Lemma noun_binary (v : pyval) : is_noun v = true -> binary v = true.
Proof.
  induction v as [z | | l IH] using pyval_ind'; intros H;
    [reflexivity | reflexivity |].
  destruct l as [| h [| t [| ? ?]]]; try discriminate.
  simpl in H. apply andb_true_iff in H as [Hh Ht].
  inversion IH as [| ? ? IHh IH']; subst.
  inversion IH' as [| ? ? IHt _]; subst.
  simpl. now rewrite (IHh Hh), (IHt Ht).
Qed.

(** The constructor brings in no [long]: only the atom [0]. *)
Lemma t_small_post (lst : list pyval) :
  Forall (fun a => forall x, _aorc a = Ok x -> small x = small a) lst ->
  forall v, _t lst = Ok v -> small v = forallb small lst.
Proof.
  induction 1 as [| a rest Ha Hrest IH]; intros v E; [discriminate |].
  destruct rest as [| b rest].
  - rewrite t_one in E. apply bind_Ok in E as (x & Ex & E).
    injection E as <-. cbn [small forallb]. now rewrite (Ha x Ex).
  - destruct rest as [| c rest].
    + rewrite t_two in E. apply bind_Ok in E as (x & Ex & E).
      apply bind_Ok in E as (y & Ey & E). injection E as <-.
      inversion Hrest as [| ? ? Hb _]; subst.
      cbn [small forallb]. now rewrite (Ha x Ex), (Hb y Ey).
    + rewrite t_more in E. apply bind_Ok in E as (x & Ex & E).
      apply bind_Ok in E as (y & Ey & E). injection E as <-.
      change (small <( x, y )>) with (small x && (small y && true)).
      rewrite (Ha x Ex), (IH y Ey), andb_true_r. reflexivity.
Qed.

Lemma aorc_small (a x : pyval) : _aorc a = Ok x -> small x = small a.
Proof.
  revert x. induction a as [z | | l IH] using pyval_ind'; intros x E.
  - now injection E as <-.
  - now injection E as <-.
  - rewrite aorc_tuple in E. now apply (t_small_post l IH).
Qed.

Lemma t_small (lst : list pyval) (v : pyval) :
  _t lst = Ok v -> small v = forallb small lst.
Proof.
  apply t_small_post. apply Forall_forall. intros a _ x. apply aorc_small.
Qed.

(** The log rendering only decides between going on and [TypeError]. *)
Lemma r_then {B} (x y : pyval) (k : res B) :
  none_free x = none_free y -> small x = small y ->
  (_r x ;;; k) = (_r y ;;; k).
Proof.
  intros H S. pose proof (r_spec x) as Hx. pose proof (r_spec y) as Hy.
  rewrite <- H, <- S in Hy.
  destruct (none_free x && small x).
  - destruct Hx as (s & ->). destruct Hy as (s' & ->). reflexivity.
  - now rewrite Hx, Hy.
Qed.

Lemma t_head_int (op : Z) (rest : list pyval) (w : pyval) :
  _t (PInt op :: rest) = Ok w -> exists r, w = <( PInt op, r )>.
Proof.
  destruct rest as [| b [| c rest]]; intros E.
  - injection E as <-. now eexists.
  - rewrite t_two in E. cbn [_aorc bind] in E.
    apply bind_Ok in E as (y & _ & E). injection E as <-. now eexists.
  - rewrite t_more in E. cbn [_aorc bind] in E.
    apply bind_Ok in E as (y & _ & E). injection E as <-. now eexists.
Qed.

Lemma t_no_timeout (lst : list pyval) : _t lst <> Timeout.
Proof.
  assert (A : forall a, _aorc a <> Timeout).
  { induction a as [z | | l IH] using pyval_ind'; try discriminate.
    rewrite aorc_tuple.
    induction IH as [| x xs Hx _ IHxs]; [discriminate |].
    destruct xs as [| b [| c rest]].
    - rewrite t_one. destruct (_aorc x); [discriminate | discriminate | easy].
    - rewrite t_two. destruct (_aorc x); [| discriminate | easy].
      cbn [bind]. rewrite t_one in IHxs.
      destruct (_aorc b); [discriminate | discriminate | easy].
    - rewrite t_more. destruct (_aorc x); [| discriminate | easy].
      cbn [bind]. destruct (_t (b :: c :: rest));
        [discriminate | discriminate | easy]. }
  destruct lst as [| a [| b [| c rest]]]; [discriminate | | |].
  - rewrite t_one. specialize (A a).
    destruct (_aorc a); [discriminate | discriminate | easy].
  - rewrite t_two. pose proof (A a). pose proof (A b).
    destruct (_aorc a); [| discriminate | easy]. cbn [bind].
    destruct (_aorc b); [discriminate | discriminate | easy].
  - rewrite t_more. pose proof (A a).
    pose proof (A (PTuple (b :: c :: rest))) as Hb.
    rewrite aorc_tuple in Hb.
    destruct (_aorc a); [| discriminate | easy]. cbn [bind].
    destruct (_t (b :: c :: rest)); [discriminate | discriminate | easy].
Qed.

(** ** Slot addressing *)

Lemma fas_unfold (fuel : nat) (n : Z) (t : pyval) :
  binary t = true ->
  _fas (S fuel) <( n, t )> =
  try_TypeError
    (if n =? 1 then Ok t
     else if n =? 2 then getitem t 0
     else if n =? 3 then getitem t 1
     else if n mod 2 =? 0 then
       inner <- _fas fuel <( n / 2, t )> ;; _fas fuel <( 2, inner )>
     else if n mod 2 =? 1 then
       inner <- _fas fuel <( (n - 1) / 2, t )> ;; _fas fuel <( 3, inner )>
     else Ok t)
    (Ok t).
Proof.
  intros Ht. cbn [_fas]. rewrite (aorc_binary t Ht). cbn [bind py_eq].
  destruct (n =? 1); [reflexivity |].
  destruct (n =? 2); [reflexivity |].
  destruct (n =? 3); [reflexivity |].
  cbn [py_mod bind py_eq py_floordiv py_sub].
  destruct (n mod 2 =? 0); [reflexivity |].
  destruct (n mod 2 =? 1); reflexivity.
Qed.

Lemma fas_S (fuel : nat) (n : Z) (t : pyval) :
  is_noun t = true ->
  _fas (S fuel) <( n, t )> =
  try_TypeError
    (if n =? 1 then Ok t
     else if n =? 2 then getitem t 0
     else if n =? 3 then getitem t 1
     else if n mod 2 =? 0 then
       inner <- _fas fuel <( n / 2, t )> ;; _fas fuel <( 2, inner )>
     else if n mod 2 =? 1 then
       inner <- _fas fuel <( (n - 1) / 2, t )> ;; _fas fuel <( 3, inner )>
     else Ok t)
    (Ok t).
Proof. intros Ht. now apply fas_unfold, noun_binary. Qed.

Lemma getitem_noun (t : pyval) (i : nat) :
  is_noun t = true -> (i < 2)%nat ->
  (exists v, getitem t i = Ok v /\ is_noun v = true) \/
  (getitem t i = Raise TypeError).
Proof.
  intros Ht Hi. destruct t as [z | l |]; [now right | | discriminate].
  destruct l as [| h [| tl [| ? ?]]]; try discriminate.
  simpl in Ht. apply andb_true_iff in Ht as [Hh Htl].
  left. destruct i as [| [| i]]; [now exists h | now exists tl | lia].
Qed.

(** On a noun [_fas] never raises, whatever the address is. *)
Lemma fas_noun (fuel : nat) :
  forall (n t : pyval), is_noun t = true ->
  (exists v, _fas fuel <( n, t )> = Ok v /\ is_noun v = true) \/
  _fas fuel <( n, t )> = Timeout.
Proof.
  induction fuel as [| fuel IH]; intros n t Ht; [now right |].
  cbn [_fas]. rewrite (aorc_noun t Ht). cbn [bind].
  assert (Hsub : forall k (q : pyval),
    (exists v, try_TypeError
                 (inner <- _fas fuel <( q, t )> ;; _fas fuel <( PInt k, inner )>)
                 (Ok t) = Ok v /\ is_noun v = true) \/
    try_TypeError
      (inner <- _fas fuel <( q, t )> ;; _fas fuel <( PInt k, inner )>)
      (Ok t) = Timeout).
  { intros k q. destruct (IH q t Ht) as [(m & -> & Hm) | ->]; [| now right].
    cbn [bind]. destruct (IH (PInt k) m Hm) as [(v & -> & Hv) | ->];
      [left; now exists v | now right]. }
  destruct (py_eq n 1); [left; now exists t |].
  destruct (py_eq n 2).
  { destruct (getitem_noun t 0 Ht) as [(v & -> & Hv) | ->]; [lia | |];
      left; [now exists v | now exists t]. }
  destruct (py_eq n 3).
  { destruct (getitem_noun t 1 Ht) as [(v & -> & Hv) | ->]; [lia | |];
      left; [now exists v | now exists t]. }
  destruct n as [z | l |]; cbn [py_mod bind];
    try (left; now exists t).
  destruct (py_eq (PInt (z mod 2)) 0); cbn [py_floordiv py_sub bind];
    [apply Hsub |].
  destruct (py_eq (PInt (z mod 2)) 1); cbn [py_floordiv py_sub bind];
    [apply Hsub |].
  left; now exists t.
Qed.

Lemma getitem_small (t w : pyval) (i : nat) :
  small t = true -> getitem t i = Ok w -> small w = true.
Proof.
  intros S E. destruct t as [z | l |]; try discriminate.
  cbn [getitem] in E. destruct (nth_error l i) eqn:N; [| discriminate].
  injection E as <-. cbn [small] in S. rewrite forallb_forall in S.
  apply S. eapply nth_error_In; eauto.
Qed.

(** [_fas] returns a part of the noun it is given: no [long] comes out of
    a noun that holds none. *)
Lemma fas_small (fuel : nat) :
  forall (n t v : pyval),
    small t = true -> _fas fuel <( n, t )> = Ok v -> small v = true.
Proof.
  induction fuel as [| fuel IH]; intros n t v St E; [discriminate |].
  cbn [_fas] in E. apply bind_Ok in E as (t' & Et & E).
  assert (St' : small t' = true) by now rewrite (aorc_small t t' Et).
  assert (R : forall (q : pyval) (k : Z) (w : pyval),
             (inner <- _fas fuel <( q, t' )> ;; _fas fuel <( PInt k, inner )>)
             = Ok w -> small w = true).
  { intros q k w Ew. apply bind_Ok in Ew as (m & Em & Ew).
    apply IH in Em; [| exact St']. now apply IH in Ew. }
  assert (T : forall (m : res pyval),
             (forall w, m = Ok w -> small w = true) ->
             try_TypeError m (Ok t') = Ok v -> small v = true).
  { intros m Hm Em. destruct m as [w | [] |]; cbn in Em; try discriminate;
      try (injection Em as <-; assumption).
    now apply Hm. }
  revert E. apply T. intros w.
  destruct (py_eq n 1); [intros Ew; now injection Ew as <- |].
  destruct (py_eq n 2); [now apply getitem_small |].
  destruct (py_eq n 3); [now apply getitem_small |].
  destruct n as [z | l |]; cbn [py_mod bind]; try discriminate.
  destruct (py_eq (PInt (z mod 2)) 0); cbn [py_floordiv py_sub bind];
    [apply R |].
  destruct (py_eq (PInt (z mod 2)) 1); cbn [py_floordiv py_sub bind];
    [apply R |].
  intros Ew; now injection Ew as <-.
Qed.

(** The public [fas] on a noun: what [_fas] gives when the address and the
    noun are of machine integers, [TypeError] from the rendering when
    not. *)
Lemma fas_public (fuel : nat) (n : Z) (t : pyval) :
  is_noun t = true -> small <( n, t )> = true ->
  fas fuel <( n, t )> = _fas fuel <( n, t )>.
Proof.
  intros Ht S. unfold fas. pose proof S as S'.
  apply small_pair in S' as [_ St].
  destruct (fas_noun fuel n t Ht) as [(v & E & Hv) | E]; rewrite E.
  - apply public_ok;
      [| exact S | exact E | now apply noun_none_free
       | exact (fas_small fuel n t v St E)].
    simpl. now rewrite (noun_none_free t Ht).
  - unfold _public.
    destruct (r_none_free <( n, t )>) as (s & ->).
    + simpl. now rewrite (noun_none_free t Ht).
    + exact S.
    + simpl. now rewrite E.
Qed.

Lemma fas_public_if (fuel : nat) (n : Z) (t : pyval) :
  is_noun t = true ->
  fas fuel <( n, t )>
  = if small <( n, t )> then _fas fuel <( n, t )> else Raise TypeError.
Proof.
  intros Ht. destruct (small <( n, t )>) eqn:S.
  - now apply fas_public.
  - now apply public_long.
Qed.

Lemma slot_det (n t v v' : pyval) : slot n t v -> slot n t v' -> v = v'.
Proof.
  intros (f & E) (f' & E').
  apply (fas_mono f (Nat.max f f')) in E; [| lia].
  apply (fas_mono f' (Nat.max f f')) in E'; [| lia].
  congruence.
Qed.

Lemma slot_one (t : pyval) : is_noun t = true -> slot 1 t t.
Proof. intros Ht. exists 1%nat. now rewrite fas_S. Qed.

Lemma slot_head (h tl : pyval) :
  is_noun h = true -> is_noun tl = true -> slot 2 <( h, tl )> h.
Proof.
  intros Hh Ht. exists 1%nat. rewrite fas_S; [reflexivity |].
  simpl. now rewrite Hh, Ht.
Qed.

Lemma slot_tail (h tl : pyval) :
  is_noun h = true -> is_noun tl = true -> slot 3 <( h, tl )> tl.
Proof.
  intros Hh Ht. exists 1%nat. rewrite fas_S; [reflexivity |].
  simpl. now rewrite Hh, Ht.
Qed.

(** The two recursive rules, for the halved address [q] and the last
    step [k]. *)
Lemma slot_rec (n q k : Z) (t : pyval) :
  is_noun t = true ->
  (forall fuel,
      _fas (S fuel) <( n, t )> =
      try_TypeError
        (inner <- _fas fuel <( q, t )> ;; _fas fuel <( k, inner )>) (Ok t)) ->
  forall v, slot n t v <-> exists m, slot q t m /\ slot k m v.
Proof.
  intros Ht Eq v. split.
  - intros ([| fuel] & E); [discriminate |].
    rewrite Eq in E.
    destruct (fas_noun fuel q t Ht) as [(m & Em & Hm) | Em];
      rewrite Em in E; [| discriminate].
    cbn [bind] in E.
    destruct (fas_noun fuel k m Hm) as [(v' & Ev & Hv) | Ev];
      rewrite Ev in E; [| discriminate].
    cbn [try_TypeError] in E.
    exists m. split; [now exists fuel | exists fuel; congruence].
  - intros (m & (f1 & E1) & (f2 & E2)).
    exists (S (Nat.max f1 f2)). rewrite Eq.
    rewrite (fas_mono f1 (Nat.max f1 f2) _ _ (Nat.le_max_l _ _) E1).
    cbn [bind].
    rewrite (fas_mono f2 (Nat.max f1 f2) _ _ (Nat.le_max_r _ _) E2).
    reflexivity.
Qed.

Lemma slot_even (n : Z) (t : pyval) :
  is_noun t = true -> 2 < n -> n mod 2 = 0 ->
  forall v, slot n t v <-> exists m, slot (n / 2) t m /\ slot 2 m v.
Proof.
  intros Ht Hn He. apply slot_rec; [exact Ht |].
  intros fuel. rewrite fas_S by exact Ht.
  replace (n =? 1) with false by lia.
  replace (n =? 2) with false by lia.
  replace (n =? 3) with false by (symmetry; apply Z.eqb_neq; intros ->; discriminate).
  now rewrite He.
Qed.

Lemma slot_odd (n : Z) (t : pyval) :
  is_noun t = true -> 3 < n -> n mod 2 = 1 ->
  forall v, slot n t v <-> exists m, slot ((n - 1) / 2) t m /\ slot 3 m v.
Proof.
  intros Ht Hn Ho. apply slot_rec; [exact Ht |].
  intros fuel. rewrite fas_S by exact Ht.
  replace (n =? 1) with false by lia.
  replace (n =? 2) with false by lia.
  replace (n =? 3) with false by lia.
  now rewrite Ho.
Qed.

(** For an address [n >= 2] the recursion is [log2 n] calls deep; for
    [n = 1] it is one call. *)
Lemma fas_returns (fuel : nat) :
  forall (n : Z) (t : pyval),
    is_noun t = true -> 1 <= n ->
    (1 <= fuel)%nat -> Z.log2 n <= Z.of_nat fuel ->
    exists v, _fas fuel <( n, t )> = Ok v /\ is_noun v = true.
Proof.
  induction fuel as [| fuel IH]; intros n t Ht Hn Hf1 Hf; [lia |].
  destruct (fas_noun (S fuel) n t Ht) as [H | E]; [exact H | exfalso].
  rewrite fas_S in E by exact Ht.
  destruct (n =? 1) eqn:E1; [discriminate |].
  destruct (n =? 2) eqn:E2.
  { destruct (getitem_noun t 0 Ht) as [(v & Ev & _) | Ev]; [lia | |];
      rewrite Ev in E; discriminate. }
  destruct (n =? 3) eqn:E3.
  { destruct (getitem_noun t 1 Ht) as [(v & Ev & _) | Ev]; [lia | |];
      rewrite Ev in E; discriminate. }
  apply Z.eqb_neq in E1, E2, E3.
  assert (H4 : 4 <= n) by lia.
  assert (Hlog : forall q, 2 <= q -> 2 * q <= n -> Z.log2 q <= Z.of_nat fuel).
  { intros q Hq Hqn.
    assert (Z.log2 (2 * q) = Z.succ (Z.log2 q)) by (apply Z.log2_double; lia).
    pose proof (Z.log2_le_mono (2 * q) n Hqn). lia. }
  assert (Hfuel : (1 <= fuel)%nat).
  { pose proof (Z.log2_le_mono 4 n H4). change (Z.log2 4) with 2 in H. lia. }
  assert (Hk : forall (k : Z) m, is_noun m = true -> 2 <= k <= 3 ->
             exists v, _fas fuel <( k, m )> = Ok v).
  { intros k m Hm Hk.
    destruct (IH k m Hm) as (v & Ev & _); [lia | lia | | now exists v].
    assert (Z.log2 k = 1).
    { assert (k = 2 \/ k = 3) as [-> | ->] by lia; reflexivity. }
    lia. }
  assert (Hq : forall q k, 2 <= q -> 2 * q <= n -> 2 <= k <= 3 ->
     try_TypeError
       (inner <- _fas fuel <( q, t )> ;; _fas fuel <( k, inner )>) (Ok t)
     <> Timeout).
  { intros q k H2 Hqn Hk3.
    destruct (IH q t Ht) as (m & Em & Hm); [lia | lia | now apply Hlog |].
    rewrite Em. cbn [bind].
    destruct (Hk k m Hm Hk3) as (v & ->). discriminate. }
  pose proof (Z.div_mod n 2 ltac:(lia)) as Hdm.
  pose proof (Z.mod_pos_bound n 2 ltac:(lia)) as Hmb.
  destruct (n mod 2 =? 0) eqn:Em0.
  { apply Z.eqb_eq in Em0. apply (Hq (n / 2) 2); [lia | lia | lia | exact E]. }
  destruct (n mod 2 =? 1) eqn:Em1.
  { apply Z.eqb_eq in Em1.
    assert (Hd : (n - 1) / 2 = n / 2).
    { pose proof (Z.div_mod (n - 1) 2 ltac:(lia)).
      pose proof (Z.mod_pos_bound (n - 1) 2 ltac:(lia)). lia. }
    apply (Hq ((n - 1) / 2) 3); [lia | lia | lia | exact E]. }
  discriminate.
Qed.

Lemma slot_total (n : Z) (t : pyval) :
  is_noun t = true -> 1 <= n -> exists v, slot n t v /\ is_noun v = true.
Proof.
  intros Ht Hn.
  destruct (fas_returns (S (Z.to_nat (Z.log2 n))) n t Ht Hn) as (v & E & Hv).
  - lia.
  - pose proof (Z.log2_nonneg n). lia.
  - exists v. split; [eexists; exact E | exact Hv].
Qed.

(** An address below 1 keeps halving to an address below 1: the recursion
    never ends, at no depth is there an outcome. *)
Remark fas_nonpositive_diverges (fuel : nat) :
  forall (n : Z) (t : pyval),
    n <= 0 -> is_noun t = true -> _fas fuel <( n, t )> = Timeout.
Proof.
  induction fuel as [| fuel IH]; intros n t Hn Ht; [reflexivity |].
  rewrite fas_S by exact Ht.
  replace (n =? 1) with false by lia.
  replace (n =? 2) with false by lia.
  replace (n =? 3) with false by lia.
  pose proof (Z.div_mod n 2 ltac:(lia)) as Hdm.
  pose proof (Z.mod_pos_bound n 2 ltac:(lia)) as Hmb.
  destruct (n mod 2 =? 0) eqn:E0.
  - rewrite IH; [reflexivity | lia | exact Ht].
  - apply Z.eqb_neq in E0.
    replace (n mod 2 =? 1) with true by lia.
    rewrite IH; [reflexivity | | exact Ht].
    pose proof (Z.div_mod (n - 1) 2 ltac:(lia)).
    pose proof (Z.mod_pos_bound (n - 1) 2 ltac:(lia)). lia.
Qed.

Lemma fas_atom_inv (fuel : nat) :
  forall (n : pyval) (a : Z) (v : pyval),
    _fas fuel <( n, PInt a )> = Ok v -> v = PInt a.
Proof.
  induction fuel as [| fuel IH]; intros n a v E; [discriminate |].
  cbn [_fas _aorc bind] in E.
  assert (Hsub : forall (q : pyval) (k : Z),
    try_TypeError
      (inner <- _fas fuel <( q, PInt a )> ;; _fas fuel <( PInt k, inner )>)
      (Ok (PInt a)) = Ok v -> v = PInt a).
  { intros q k H.
    destruct (_fas fuel <( q, PInt a )>) as [m | e |] eqn:Em.
    - apply IH in Em. subst m. cbn [bind] in H.
      destruct (_fas fuel <( PInt k, PInt a )>) as [w | e |] eqn:Ew.
      + apply IH in Ew. cbn in H. congruence.
      + destruct e; cbn in H; congruence.
      + discriminate.
    - destruct e; cbn in H; congruence.
    - discriminate. }
  destruct (py_eq n 1); [cbn in E; congruence |].
  destruct (py_eq n 2); [cbn in E; congruence |].
  destruct (py_eq n 3); [cbn in E; congruence |].
  destruct n as [z | l |]; cbn [py_mod bind] in E;
    try (cbn in E; congruence).
  destruct (py_eq (PInt (z mod 2)) 0); cbn [py_floordiv py_sub bind] in E;
    [now apply Hsub in E |].
  destruct (py_eq (PInt (z mod 2)) 1); cbn [py_floordiv py_sub bind] in E;
    [now apply Hsub in E |].
  cbn in E. congruence.
Qed.

Lemma crashed_Ok {A} (a : A) : ~ crashed (Ok a).
Proof. intros (e & H). discriminate. Qed.

Lemma crashed_Timeout {A} : ~ crashed (@Timeout A).
Proof. intros (e & H). discriminate. Qed.

Lemma fas_noun_no_crash (fuel : nat) (n : Z) (t : pyval) :
  is_noun t = true ->
  ~ crashed (_fas fuel <( n, t )>)
  /\ (small <( n, t )> = true -> ~ crashed (fas fuel <( n, t )>)).
Proof.
  intros Ht.
  assert (C : ~ crashed (_fas fuel <( n, t )>)).
  { destruct (fas_noun fuel n t Ht) as [(v & -> & _) | ->];
      auto using crashed_Ok, crashed_Timeout. }
  split; [exact C |]. intros S. now rewrite fas_public.
Qed.

(** C6.  [_fas] follows the binary path of the address.  On a noun [t]:
    address 1 gives [t]; on a cell, address 2 gives the head and address 3
    the tail; an even address [e > 2] gives the slot 2 of the slot [e / 2];
    an odd address [o > 3] gives the slot 3 of the slot [(o - 1) / 2]; each
    of them returns, and returns one value only.  In the tree
    [((4, 5), (6, (14, 15)))] slot 7 is [(14, 15)]; in [(a, (b, (c, d)))]
    the slots 2, 6, 14 and 15 are [a], [b], [c] and [d].  The public [fas]
    returns what [_fas] returns when the address and the noun are of
    machine integers, and raises from its log rendering when not. *)
Theorem fas_binary_path (t h tl a b c d : pyval) (e o : Z)
  (Ht : is_noun t = true) (Hh : is_noun h = true) (Htl : is_noun tl = true)
  (Ha : is_noun a = true) (Hb : is_noun b = true)
  (Hc : is_noun c = true) (Hd : is_noun d = true)
  (He : 2 < e) (Heven : e mod 2 = 0) (Ho : 3 < o) (Hodd : o mod 2 = 1) :
  slot 1 t t /\
  slot 2 <( h, tl )> h /\
  slot 3 <( h, tl )> tl /\
  (forall v, slot e t v <-> exists m, slot (e / 2) t m /\ slot 2 m v) /\
  (forall v, slot o t v <-> exists m, slot ((o - 1) / 2) t m /\ slot 3 m v) /\
  (exists v, slot e t v) /\
  (exists v, slot o t v) /\
  (forall (n : Z) v v', slot n t v -> slot n t v' -> v = v') /\
  slot 7 <( <( 4, 5 )>, <( 6, <( 14, 15 )> )> )> <( 14, 15 )> /\
  slot 2 <( a, <( b, <( c, d )> )> )> a /\
  slot 6 <( a, <( b, <( c, d )> )> )> b /\
  slot 14 <( a, <( b, <( c, d )> )> )> c /\
  slot 15 <( a, <( b, <( c, d )> )> )> d /\
  (forall fuel (n : Z),
      fas fuel <( n, t )>
      = if small <( n, t )> then _fas fuel <( n, t )> else Raise TypeError).
Proof.
  assert (Hcd : is_noun <( c, d )> = true) by (simpl; now rewrite Hc, Hd).
  assert (Hbcd : is_noun <( b, <( c, d )> )> = true)
    by (cbn [is_noun]; cbn [is_noun] in Hcd; now rewrite Hb, Hcd).
  assert (Hall : is_noun <( a, <( b, <( c, d )> )> )> = true)
    by (cbn [is_noun]; cbn [is_noun] in Hbcd; now rewrite Ha, Hbcd).
  assert (S3 : slot 3 <( a, <( b, <( c, d )> )> )> <( b, <( c, d )> )>)
    by now apply slot_tail.
  assert (S7 : slot 7 <( a, <( b, <( c, d )> )> )> <( c, d )>).
  { apply (slot_odd 7); [exact Hall | lia | reflexivity |].
    exists <( b, <( c, d )> )>. split; [exact S3 | now apply slot_tail]. }
  repeat match goal with |- _ /\ _ => split end.
  - now apply slot_one.
  - now apply slot_head.
  - now apply slot_tail.
  - now apply slot_even.
  - now apply slot_odd.
  - destruct (slot_total e t Ht) as (v & Hv & _); [lia | now exists v].
  - destruct (slot_total o t Ht) as (v & Hv & _); [lia | now exists v].
  - intros n v v'. apply slot_det.
  - exists 2%nat. reflexivity.
  - now apply slot_head.
  - apply (slot_even 6); [exact Hall | lia | reflexivity |].
    exists <( b, <( c, d )> )>. split; [exact S3 | now apply slot_head].
  - apply (slot_even 14); [exact Hall | lia | reflexivity |].
    exists <( c, d )>. split; [exact S7 | now apply slot_head].
  - apply (slot_odd 15); [exact Hall | lia | reflexivity |].
    exists <( c, d )>. split; [exact S7 | now apply slot_tail].
  - intros fuel n. now apply fas_public_if.
Qed.

Lemma fas_binary_path_witness :
  slot 6 <( 10, <( 20, <( 30, 40 )> )> )> 20 /\
  (forall v, slot 12 <( 10, <( 20, <( 30, 40 )> )> )> v <->
     exists m, slot (12 / 2) <( 10, <( 20, <( 30, 40 )> )> )> m /\ slot 2 m v).
Proof.
  destruct (fas_binary_path <( 10, <( 20, <( 30, 40 )> )> )> 1 2 10 20 30 40
              12 5)
    as (_ & _ & _ & E & _ & _ & _ & _ & _ & _ & S6 & _);
    try reflexivity; try lia.
  split; [exact S6 | exact E].
Defined.

(** C3, as the specification states it, fails: taking slot 2 of the atom 7
    returns 7, at every depth, and nothing is raised. *)
Lemma fas_into_atom_returns :
  _fas 1 <( 2, 7 )> = Ok (PInt 7) /\
  fas 1 <( 2, 7 )> = Ok (PInt 7) /\
  ~ crashed (fas 1 <( 2, 7 )>) /\
  (forall fuel, ~ crashed (fas fuel <( 2, 7 )>)).
Proof.
  split; [reflexivity | split; [reflexivity | split]].
  - apply crashed_Ok.
  - intros fuel. now apply fas_noun_no_crash.
Qed.

(** C3 (amended).  For every address [n >= 2], [_fas] returns an atom
    unchanged: the [TypeError] of taking the head or tail of an atom is
    caught inside [_fas], which then returns the noun it was given.  With
    depth [log2 n] available, an address [n >= 2] into any noun returns a
    noun; at no depth does it raise.  The public [fas] does the same when
    the address and the noun are of machine integers. *)
Theorem fas_atom_unchanged (n a : Z) (t : pyval) (fuel : nat)
  (Hn : 2 <= n) (Ha : 0 <= a) (Ht : is_noun t = true)
  (Hfuel : Z.log2 n <= Z.of_nat fuel) :
  _fas fuel <( n, a )> = Ok (PInt a) /\
  (small <( n, a )> = true -> fas fuel <( n, a )> = Ok (PInt a)) /\
  (exists v, _fas fuel <( n, t )> = Ok v /\
             (small <( n, t )> = true -> fas fuel <( n, t )> = Ok v) /\
             is_noun v = true) /\
  (forall k, ~ crashed (_fas k <( n, t )>) /\
             (small <( n, t )> = true -> ~ crashed (fas k <( n, t )>))).
Proof.
  assert (Hf1 : (1 <= fuel)%nat).
  { pose proof (Z.log2_le_mono 2 n Hn) as H.
    change (Z.log2 2) with 1 in H. lia. }
  assert (Hna : is_noun (PInt a) = true) by (simpl; lia).
  assert (Ea : _fas fuel <( n, a )> = Ok (PInt a)).
  { destruct (fas_returns fuel n (PInt a) Hna) as (v & E & _); try lia.
    rewrite E. f_equal. now apply fas_atom_inv in E. }
  repeat match goal with |- _ /\ _ => split end.
  - exact Ea.
  - intros S. now rewrite fas_public.
  - destruct (fas_returns fuel n t Ht) as (v & E & Hv); try lia.
    exists v. split; [exact E | split; [| exact Hv]].
    intros S. now rewrite fas_public.
  - intros k. now apply fas_noun_no_crash.
Qed.

Lemma fas_atom_unchanged_witness :
  _fas 3 <( 9, 5 )> = Ok (PInt 5) /\ fas 3 <( 9, 5 )> = Ok (PInt 5).
Proof.
  destruct (fas_atom_unchanged 9 5 <( 1, 2 )> 3) as (E1 & E2 & _);
    [lia | lia | reflexivity | vm_compute; discriminate |].
  split; [exact E1 | apply E2; reflexivity].
Defined.

(** ** The reducer and the constructor *)

Lemma _tar_normalises (fuel : nat) (lst : list pyval) (v : pyval) :
  _t lst = Ok v -> _tar fuel (PTuple lst) = _tar fuel v.
Proof.
  intros E. destruct fuel as [| fuel]; [reflexivity |].
  destruct (t_pair lst v E) as (x & y & -> & _).
  cbn [_tar]. unfold tar_body. cbn [star bind].
  now rewrite E, (t_idem lst x y E).
Qed.

Lemma tar_normalises (fuel : nat) (lst : list pyval) (v : pyval) :
  _t lst = Ok v -> tar fuel (PTuple lst) = tar fuel v.
Proof.
  intros E. unfold tar, _public.
  rewrite (_tar_normalises fuel lst v E).
  apply r_then.
  - destruct (t_pair lst v E) as (_ & _ & _ & _ & _ & N). now rewrite N.
  - now rewrite (t_small lst v E).
Qed.

(** C10.  [_tar] passes its argument through [_t] first: when [_t]
    constructs [v] from the elements of a tuple of length 2 or more,
    reducing the tuple and reducing [v] have the same outcome at every
    depth, for [_tar] and for the public [tar].  In particular [(a, b, c)]
    and [(a, (b, c))] reduce alike, whatever [a], [b] and [c] are. *)
Theorem tar_normalises_input (fuel : nat) (lst : list pyval) (v a b c : pyval)
  (Hlen : (2 <= List.length lst)%nat) (Hv : _t lst = Ok v) :
  _tar fuel (PTuple lst) = _tar fuel v /\
  tar fuel (PTuple lst) = tar fuel v /\
  _tar fuel <( a, b, c )> = _tar fuel <( a, <( b, c )> )> /\
  tar fuel <( a, b, c )> = tar fuel <( a, <( b, c )> )>.
Proof.
  assert (Eabc : _t [a; b; c] = _t [a; <( b, c )>]).
  { rewrite t_more, (t_two a <( b, c )>), aorc_tuple. reflexivity. }
  assert (Nabc : none_free <( a, b, c )> = none_free <( a, <( b, c )> )>).
  { simpl. now rewrite !andb_true_r. }
  assert (Sabc : small <( a, b, c )> = small <( a, <( b, c )> )>).
  { simpl. now rewrite !andb_true_r. }
  assert (Raise_t : forall k l (r : res pyval),
             _t l = r -> (forall w, r <> Ok w) -> _tar k (PTuple l) =
               match k with O => Timeout | S _ => r end).
  { intros k l r E N. destruct k as [| k]; [reflexivity |].
    cbn [_tar]. unfold tar_body. cbn [star bind]. rewrite E.
    destruct r as [w | e |]; [now elim (N w) | reflexivity | reflexivity]. }
  assert (E_tar : _tar fuel <( a, b, c )> = _tar fuel <( a, <( b, c )> )>).
  { destruct (_t [a; b; c]) as [w | e |] eqn:Ew.
    - rewrite (_tar_normalises fuel _ w Ew).
      symmetry. apply _tar_normalises. now rewrite <- Eabc.
    - rewrite (Raise_t fuel _ (Raise e) Ew) by discriminate.
      symmetry. apply Raise_t; [now rewrite <- Eabc | discriminate].
    - now apply t_no_timeout in Ew. }
  repeat match goal with |- _ /\ _ => split end.
  - now apply _tar_normalises.
  - now apply tar_normalises.
  - exact E_tar.
  - unfold tar, _public. rewrite (r_then _ _ _ Nabc Sabc). now rewrite E_tar.
Qed.

Lemma tar_normalises_input_witness :
  tar 9 <( 42, 8, <( 4, 0, 1 )>, <( 0, 1 )> )>
  = tar 9 <( 42, <( 8, <( <( 4, <( 0, 1 )> )>, <( 0, 1 )> )> )> )>.
Proof.
  destruct (tar_normalises_input 9
              [PInt 42; PInt 8; <( 4, 0, 1 )>; <( 0, 1 )>]
              <( 42, <( 8, <( <( 4, <( 0, 1 )> )>, <( 0, 1 )> )> )> )>
              1 2 3)
    as (_ & E & _); [simpl; lia | reflexivity |].
  exact E.
Defined.

(** ** Carving the argument of [_tar] *)

Lemma binary_pair (x y : pyval) :
  binary <( x, y )> = true <-> binary x = true /\ binary y = true.
Proof. simpl. apply andb_true_iff. Qed.

Lemma try_try {A} (m : res A) (a : A) (h : res A) :
  try_TypeError (try_TypeError m (Ok a)) h = try_TypeError m (Ok a).
Proof. now destruct m as [v | [] |]. Qed.

Lemma fas_head (fuel : nat) (x y : pyval) :
  binary <( x, y )> = true -> _fas (S fuel) <( 2, <( x, y )> )> = Ok x.
Proof. intros B. now rewrite fas_unfold. Qed.

Lemma fas_tail (fuel : nat) (x y : pyval) :
  binary <( x, y )> = true -> _fas (S fuel) <( 3, <( x, y )> )> = Ok y.
Proof. intros B. now rewrite fas_unfold. Qed.

Lemma fas_head_int (fuel : nat) (z : Z) :
  _fas (S fuel) <( 2, PInt z )> = Ok (PInt z).
Proof. reflexivity. Qed.

Lemma fas_tail_int (fuel : nat) (z : Z) :
  _fas (S fuel) <( 3, PInt z )> = Ok (PInt z).
Proof. reflexivity. Qed.

Lemma fas_six (fuel : nat) (x y : pyval) :
  binary <( x, y )> = true ->
  _fas (S (S fuel)) <( 6, <( x, y )> )> = _fas (S fuel) <( 2, y )>.
Proof.
  intros B. rewrite fas_unfold by exact B.
  change (6 =? 1) with false. change (6 =? 2) with false.
  change (6 =? 3) with false. change (6 mod 2 =? 0) with true.
  change (6 / 2) with 3. cbv iota.
  rewrite (fas_tail fuel x y B). cbn [bind].
  apply binary_pair in B as [_ By].
  rewrite (fas_unfold fuel _ y By). apply try_try.
Qed.

Lemma fas_seven (fuel : nat) (x y : pyval) :
  binary <( x, y )> = true ->
  _fas (S (S fuel)) <( 7, <( x, y )> )> = _fas (S fuel) <( 3, y )>.
Proof.
  intros B. rewrite fas_unfold by exact B.
  change (7 =? 1) with false. change (7 =? 2) with false.
  change (7 =? 3) with false. change (7 mod 2 =? 0) with false.
  change (7 mod 2 =? 1) with true.
  change ((7 - 1) / 2) with 3. cbv iota.
  rewrite (fas_tail fuel x y B). cbn [bind].
  apply binary_pair in B as [_ By].
  rewrite (fas_unfold fuel _ y By). apply try_try.
Qed.

(** With a cell formula [(h, t)]: [subj], [op], [obj] are the subject,
    [h] and [t]. *)
Lemma tar_carve_cell (fuel : nat) (lst : list pyval) (s h t : pyval) :
  _t lst = Ok <( s, <( h, t )> )> ->
  _tar (S (S (S fuel))) (PTuple lst) =
  tar_dispatch (_fas (S (S fuel))) (fas (S (S fuel))) (tar (S (S fuel)))
    s h t.
Proof.
  intros E. destruct (t_pair lst _ E) as (x & y & Ev & Bx & By & _).
  injection Ev as <- <-.
  assert (B : binary <( s, <( h, t )> )> = true) by now apply binary_pair.
  cbn [_tar]. unfold tar_body. cbn [star bind]. rewrite E. cbn [bind].
  rewrite (fas_head (S fuel) _ _ B). cbn [bind].
  rewrite (fas_six fuel _ _ B), (fas_head fuel _ _ By). cbn [bind].
  rewrite (fas_seven fuel _ _ B), (fas_tail fuel _ _ By). cbn [bind].
  reflexivity.
Qed.

(** With an atom formula [z]: [op] and [obj] are both [z]. *)
Lemma tar_carve_atom (fuel : nat) (lst : list pyval) (s : pyval) (z : Z) :
  _t lst = Ok <( s, PInt z )> ->
  _tar (S (S (S fuel))) (PTuple lst) =
  tar_dispatch (_fas (S (S fuel))) (fas (S (S fuel))) (tar (S (S fuel)))
    s (PInt z) (PInt z).
Proof.
  intros E. destruct (t_pair lst _ E) as (x & y & Ev & Bx & By & _).
  injection Ev as <- <-.
  assert (B : binary <( s, PInt z )> = true) by now apply binary_pair.
  cbn [_tar]. unfold tar_body. cbn [star bind]. rewrite E. cbn [bind].
  rewrite (fas_head (S fuel) _ _ B). cbn [bind].
  rewrite (fas_six fuel _ _ B), (fas_head_int fuel). cbn [bind].
  rewrite (fas_seven fuel _ _ B), (fas_tail_int fuel). cbn [bind].
  reflexivity.
Qed.

(** ** Opcodes outside 0..10 *)

(** Outside 0..10 no opcode test holds for an [int]; a [long] is taken
    for a cell by [_wut], and the autocons branch reduces it as a formula
    first. *)
Lemma dispatch_invalid (F1 F2 F3 : pyval -> res pyval) (s obj : pyval)
  (op : Z) :
  op < 0 \/ 10 < op ->
  tar_dispatch F1 F2 F3 s (PInt op) obj
  = if is_int (PInt op) then Ok PNone
    else x <- F3 <( s, op )> ;; y <- F3 <( s, obj )> ;; Ok <( x, y )>.
Proof.
  intros Hop. unfold tar_dispatch. cbn [_wut bind py_eq].
  destruct (is_int (PInt op)); [| reflexivity].
  change (NO =? YES) with false. cbv iota.
  unfold OP_FAS, OP_CON, OP_TAR, OP_WUT, OP_LUS, OP_TIS, OP_IF, OP_H07,
    OP_H08, OP_H09, OP_H10.
  repeat match goal with
         | |- context [op =? ?k] =>
             replace (op =? k) with false by (symmetry; apply Z.eqb_neq; lia)
         end.
  reflexivity.
Qed.

Lemma dispatch_invalid_tar (k : nat) (F1 F2 : pyval -> res pyval)
  (s obj : pyval) (op : Z) :
  op < 0 \/ 10 < op ->
  tar_dispatch F1 F2 (tar k) s (PInt op) obj
  = if is_int (PInt op) then Ok PNone else Raise TypeError.
Proof.
  intros Hop. rewrite dispatch_invalid by exact Hop.
  destruct (is_int (PInt op)) eqn:I; [reflexivity |].
  unfold tar. rewrite public_long; [reflexivity |].
  cbn [small forallb]. now rewrite I, andb_false_r.
Qed.

Lemma _tar_invalid (fuel : nat) (s : pyval) (op : Z) (rest : list pyval) :
  op < 0 \/ 10 < op ->
  _tar (S (S (S fuel))) <( s, PTuple (PInt op :: rest) )> = Ok PNone \/
  crashed (_tar (S (S (S fuel))) <( s, PTuple (PInt op :: rest) )>).
Proof.
  intros Hop.
  destruct (_t [s; PTuple (PInt op :: rest)]) as [v | e |] eqn:E.
  - pose proof E as E'. rewrite t_two in E'.
    apply bind_Ok in E' as (x & _ & E'). apply bind_Ok in E' as (y & Ey & E').
    injection E' as <-. rewrite aorc_tuple in Ey.
    apply t_head_int in Ey as (r & ->).
    rewrite (tar_carve_cell fuel _ _ _ _ E).
    rewrite dispatch_invalid_tar by exact Hop.
    destruct (is_int (PInt op)); [now left | right; now exists TypeError].
  - right. exists e. cbn [_tar]. unfold tar_body. cbn [star bind].
    now rewrite E.
  - now apply t_no_timeout in E.
Qed.

Lemma r_no_timeout (v : pyval) : _r v <> Timeout.
Proof.
  pose proof (r_spec v) as H.
  destruct (none_free v && small v); [destruct H as (s & ->) | rewrite H];
    discriminate.
Qed.

(** C2.  A formula whose head is an integer outside 0..10 makes the public
    [tar] raise, whatever the subject and the rest of the formula are: no
    opcode test of [_tar] holds, its body ends without a [return], and the
    wrapper raises [TypeError] when it renders the [None] it got for the
    log.  At no depth does [tar] return a value.  (A head beyond
    [sys.maxint] is a [long]: [_tar] then takes the formula for a pair of
    formulas and raises itself.) *)
Theorem tar_invalid_opcode (s : pyval) (op : Z) (rest : list pyval)
  (fuel : nat) (Hop : op < 0 \/ 10 < op) (Hfuel : (3 <= fuel)%nat) :
  crashed (tar fuel <( s, PTuple (PInt op :: rest) )>) /\
  (forall k v, tar k <( s, PTuple (PInt op :: rest) )> <> Ok v) /\
  (forall v, _t [s; PTuple (PInt op :: rest)] = Ok v ->
             none_free v = true ->
             _tar fuel <( s, PTuple (PInt op :: rest) )>
             = (if is_int (PInt op) then Ok PNone else Raise TypeError) /\
             tar fuel <( s, PTuple (PInt op :: rest) )> = Raise TypeError).
Proof.
  set (x := <( s, PTuple (PInt op :: rest) )>).
  assert (Crash : forall k, crashed (tar (S (S (S k))) x)).
  { intros k. unfold tar, _public.
    destruct (_r x) as [str | e |] eqn:Er; cbn [bind];
      [| now exists e |].
    - destruct (_tar_invalid k s op rest Hop) as [E | (e & E)];
        fold x in E; rewrite E; cbn [bind].
      + now exists TypeError.
      + now exists e.
    - now apply r_no_timeout in Er. }
  destruct fuel as [| [| [| fuel]]]; try lia.
  split; [apply Crash | split].
  - intros k v E.
    apply (tar_mono k (S (S (S k)))) in E; [| lia | discriminate].
    destruct (Crash k) as (e & E'). congruence.
  - intros v Ev Nv.
    assert (E : _tar (S (S (S fuel))) x
                = if is_int (PInt op) then Ok PNone else Raise TypeError).
    { pose proof Ev as E'. rewrite t_two in E'.
      apply bind_Ok in E' as (a & _ & E').
      apply bind_Ok in E' as (y & Ey & E').
      injection E' as <-. rewrite aorc_tuple in Ey.
      apply t_head_int in Ey as (r & ->).
      subst x. rewrite (tar_carve_cell fuel _ _ _ _ Ev).
      now apply dispatch_invalid_tar. }
    split; [exact E |].
    unfold tar, _public. pose proof (r_spec x) as Hr.
    destruct (none_free x && small x).
    + destruct Hr as (str & ->). cbn [bind]. rewrite E.
      now destruct (is_int (PInt op)).
    + now rewrite Hr.
Qed.

Lemma tar_invalid_opcode_witness :
  crashed (tar 3 <( 42, <( 11, 5 )> )>) /\
  tar 3 <( 42, <( 11, 5 )> )> = Raise TypeError.
Proof.
  destruct (tar_invalid_opcode 42 11 [PInt 5] 3) as (C & _ & H);
    [lia | lia |].
  split; [exact C |].
  destruct (H <( 42, <( 11, 5 )> )> eq_refl eq_refl) as (_ & E). exact E.
Defined.

(** The same holds when the whole formula is an atom outside 0..10: [op]
    and [obj] are both that atom. *)
Remark tar_invalid_atom_formula (k : nat) (s : pyval) (op : Z) :
  value s = true -> op < 0 \/ 10 < op ->
  _tar (S (S (S k))) <( s, PInt op )>
  = (if is_int (PInt op) then Ok PNone else Raise TypeError) /\
  tar (S (S (S k))) <( s, PInt op )> = Raise TypeError.
Proof.
  intros Vs Hop. apply andb_true_iff in Vs as [Bs Ns].
  assert (E : _tar (S (S (S k))) <( s, PInt op )>
              = if is_int (PInt op) then Ok PNone else Raise TypeError).
  { rewrite (tar_carve_atom k [s; PInt op] s op).
    - now apply dispatch_invalid_tar.
    - now rewrite t_two, (aorc_binary s Bs). }
  split; [exact E |].
  unfold tar, _public. pose proof (r_spec <( s, PInt op )>) as Hr.
  destruct (none_free <( s, PInt op )> && small <( s, PInt op )>).
  - destruct Hr as (str & ->). cbn [bind]. rewrite E.
    now destruct (is_int (PInt op)).
  - now rewrite Hr.
Qed.

(** ** Outcomes of a reduction *)

Lemma reduces_det (x : pyval) (r r' : res pyval) :
  reduces x r -> reduces x r' -> r = r'.
Proof.
  intros (f & E & En) (f' & E' & En').
  apply (tar_mono f (Nat.max f f')) in E; [| lia | exact En].
  apply (tar_mono f' (Nat.max f f')) in E'; [| lia | exact En'].
  congruence.
Qed.

Lemma reduces_at (fuel : nat) (x v : pyval) :
  tar fuel x = Ok v -> reduces x (Ok v).
Proof. intros E. exists fuel. split; [exact E | discriminate]. Qed.

Lemma reduces_raise_at (fuel : nat) (x : pyval) (e : exn) :
  tar fuel x = Raise e -> reduces x (Raise e).
Proof. intros E. exists fuel. split; [exact E | discriminate]. Qed.

(** ** Values through the reducer *)

Lemma value_split (v : pyval) :
  value v = true <-> binary v = true /\ none_free v = true.
Proof. unfold value. apply andb_true_iff. Qed.

Lemma value_pair (x y : pyval) :
  value <( x, y )> = true <-> value x = true /\ value y = true.
Proof.
  rewrite !value_split, binary_pair. simpl. rewrite andb_true_r.
  rewrite andb_true_iff. tauto.
Qed.

Lemma noun_value (v : pyval) : is_noun v = true -> value v = true.
Proof.
  intros H. apply value_split. auto using noun_binary, noun_none_free.
Qed.

Lemma public_Ok_inv (g : pyval -> res pyval) (x v : pyval) :
  _public g x = Ok v -> g x = Ok v /\ none_free v = true.
Proof.
  unfold _public. intros E.
  apply bind_Ok in E as (s & _ & E). apply bind_Ok in E as (r & Er & E).
  apply bind_Ok in E as (s' & Es & E). injection E as <-.
  split; [exact Er |]. now apply r_Ok_inv in Es.
Qed.

(** What a public function returns, and what it returns on, holds no
    [long]: both were rendered. *)
Lemma public_Ok_small (g : pyval -> res pyval) (x v : pyval) :
  _public g x = Ok v ->
  small v = true /\ small x = true /\ none_free x = true.
Proof.
  unfold _public. intros E.
  apply bind_Ok in E as (s & Ex & E). apply bind_Ok in E as (r & Er & E).
  apply bind_Ok in E as (s' & Es & E). injection E as <-.
  apply r_Ok_inv in Es as [_ Sv]. apply r_Ok_inv in Ex as [Nx Sx]. auto.
Qed.

(** Rendering the result of a public function once more changes nothing. *)
Lemma public_idem (g : pyval -> res pyval) (x : pyval) :
  (result <- _public g x ;; _r result ;;; Ok result) = _public g x.
Proof.
  destruct (_public g x) as [v | e |] eqn:E; [| reflexivity | reflexivity].
  pose proof (public_Ok_small g x v E) as (S & _).
  apply public_Ok_inv in E as (_ & N).
  destruct (r_none_free v N S) as (s & Es). cbn [bind]. now rewrite Es.
Qed.

Lemma bind_assoc {A B C} (m : res A) (k : A -> res B) (g : B -> res C) :
  bind (bind m k) g = bind m (fun a => bind (k a) g).
Proof. now destruct m. Qed.

Lemma bind_ext {A B} (m : res A) (k k' : A -> res B) :
  (forall a, m = Ok a -> k a = k' a) -> bind m k = bind m k'.
Proof. destruct m as [a | e |]; intros H; [now apply H | easy | easy]. Qed.

Lemma fas_binary (fuel : nat) :
  forall (n t v : pyval), _fas fuel <( n, t )> = Ok v -> binary v = true.
Proof.
  induction fuel as [| fuel IH]; intros n t v E; [discriminate |].
  cbn [_fas] in E. apply bind_Ok in E as (t' & Et & E).
  destruct (aorc_post_all t t' Et) as (Bt & _).
  assert (G : forall (i : nat) (w : pyval),
             getitem t' i = Ok w -> binary w = true).
  { intros i w Ew. destruct t' as [z | l |]; try discriminate.
    destruct l as [| h [| tl [| ? ?]]]; try discriminate.
    apply binary_pair in Bt as [Bh Btl].
    destruct i as [| [| i]]; simpl in Ew;
      [now injection Ew as <- | now injection Ew as <- |].
    destruct i; discriminate. }
  assert (R : forall (q : pyval) (k : Z) (w : pyval),
             (inner <- _fas fuel <( q, t' )> ;; _fas fuel <( PInt k, inner )>)
             = Ok w -> binary w = true).
  { intros q k w Ew. apply bind_Ok in Ew as (m & _ & Ew). now apply IH in Ew. }
  assert (T : forall (m : res pyval),
             (forall w, m = Ok w -> binary w = true) ->
             try_TypeError m (Ok t') = Ok v -> binary v = true).
  { intros m Hm Em. destruct m as [w | [] |]; cbn in Em; try discriminate;
      try (injection Em as <-; assumption).
    now apply Hm. }
  revert E. apply T. intros w.
  destruct (py_eq n 1); [intros Ew; now injection Ew as <- |].
  destruct (py_eq n 2); [apply G |].
  destruct (py_eq n 3); [apply G |].
  destruct n as [z | l |]; cbn [py_mod bind]; try discriminate.
  destruct (py_eq (PInt (z mod 2)) 0); cbn [py_floordiv py_sub bind];
    [apply R |].
  destruct (py_eq (PInt (z mod 2)) 1); cbn [py_floordiv py_sub bind];
    [apply R |].
  intros Ew; now injection Ew as <-.
Qed.

Lemma fas_binary_any (fuel : nat) (arg v : pyval) :
  _fas fuel arg = Ok v -> binary v = true.
Proof.
  destruct arg as [z | l |]; try (destruct fuel; discriminate).
  destruct l as [| n [| t [| ? ?]]]; try (destruct fuel; discriminate).
  apply fas_binary.
Qed.

Lemma public_binary (g : pyval -> res pyval) :
  (forall x v, g x = Ok v -> binary v = true) ->
  forall x v, _public g x = Ok v -> binary v = true.
Proof. intros H x v E. apply public_Ok_inv in E as (E & _). eauto. Qed.

Lemma dispatch_binary (F1 F2 F3 : pyval -> res pyval) :
  (forall x v, F1 x = Ok v -> binary v = true) ->
  (forall x v, F2 x = Ok v -> binary v = true) ->
  (forall x v, F3 x = Ok v -> binary v = true) ->
  forall s op obj v,
    binary obj = true ->
    tar_dispatch F1 F2 F3 s op obj = Ok v -> binary v = true.
Proof.
  intros H1 H2 H3 s op obj v Bobj E. unfold tar_dispatch in E.
  assert (W : forall r w, wut r = Ok w -> binary w = true).
  { intros r w Ew. apply public_Ok_inv in Ew as (Ew & _).
    injection Ew as <-. reflexivity. }
  assert (L : forall r w, binary r = true -> lus r = Ok w -> binary w = true).
  { intros r w Br Ew. apply public_Ok_inv in Ew as (Ew & _).
    destruct r as [z | l |]; cbn [_lus] in Ew;
      try destruct (is_int (PInt z)); injection Ew as <-; auto. }
  assert (Ti : forall r w, tis r = Ok w -> binary w = true).
  { intros r w Ew. apply public_Ok_inv in Ew as (Ew & _).
    unfold _tis in Ew. apply bind_Ok in Ew as (a & _ & Ew).
    apply bind_Ok in Ew as (b & _ & Ew). injection Ew as <-. reflexivity. }
  repeat match type of E with
         | bind _ _ = Ok _ =>
             let a := fresh "a" in
             let Ea := fresh "Ea" in
             apply bind_Ok in E as (a & Ea & E)
         | (if ?c then _ else _) = Ok _ => destruct c
         end;
    try (injection E as <-);
    eauto.
  apply binary_pair. eauto.
Qed.

Lemma _tar_binary (fuel : nat) :
  forall x v, _tar fuel x = Ok v -> binary v = true.
Proof.
  induction fuel as [| fuel IH]; intros x v E; [discriminate |].
  cbn [_tar] in E. unfold tar_body in E.
  apply bind_Ok in E as (lst & _ & E). apply bind_Ok in E as (noun & En & E).
  apply bind_Ok in E as (subj & _ & E). apply bind_Ok in E as (op & _ & E).
  apply bind_Ok in E as (obj & Eobj & E).
  apply fas_binary in Eobj.
  revert E. apply dispatch_binary; auto.
  - apply fas_binary_any.
  - apply public_binary, fas_binary_any.
  - now apply public_binary.
Qed.

(** What the public [tar] returns is a value. *)
Lemma tar_value (fuel : nat) (x v : pyval) :
  tar fuel x = Ok v -> value v = true.
Proof.
  intros E. apply public_Ok_inv in E as (E & N).
  apply value_split. split; [now apply _tar_binary in E | exact N].
Qed.

(** ** The rules of the reducer *)

Section Dispatch.
Variables F1 F2 F3 : pyval -> res pyval.
Variables s obj : pyval.

Lemma dispatch_cons (l : list pyval) :
  tar_dispatch F1 F2 F3 s (PTuple l) obj =
  x <- F3 <( s, PTuple l )> ;; y <- F3 <( s, obj )> ;; Ok <( x, y )>.
Proof. reflexivity. Qed.

Lemma dispatch_fas : tar_dispatch F1 F2 F3 s 0 obj = F2 <( obj, s )>.
Proof. reflexivity. Qed.

Lemma dispatch_con : tar_dispatch F1 F2 F3 s 1 obj = Ok obj.
Proof. reflexivity. Qed.

Lemma dispatch_tar :
  tar_dispatch F1 F2 F3 s 2 obj =
  b <- F1 <( 2, obj )> ;; c <- F1 <( 3, obj )> ;;
  s' <- F3 <( s, b )> ;; f <- F3 <( s, c )> ;; F3 <( s', f )>.
Proof. reflexivity. Qed.

Lemma dispatch_wut :
  tar_dispatch F1 F2 F3 s 3 obj = r <- F3 <( s, obj )> ;; wut r.
Proof. reflexivity. Qed.

Lemma dispatch_lus :
  tar_dispatch F1 F2 F3 s 4 obj = r <- F3 <( s, obj )> ;; lus r.
Proof. reflexivity. Qed.

Lemma dispatch_tis :
  tar_dispatch F1 F2 F3 s 5 obj = r <- F3 <( s, obj )> ;; tis r.
Proof. reflexivity. Qed.

Lemma dispatch_if :
  tar_dispatch F1 F2 F3 s 6 obj =
  b <- F1 <( 2, obj )> ;; c <- F1 <( 6, obj )> ;; d <- F1 <( 7, obj )> ;;
  F3 <( s, 2, <( 0, 1 )>, 2, <( 1, c, d )>, <( 1, 0 )>, 2,
        <( 1, 2, 3 )>, <( 1, 0 )>, 4, 4, b )>.
Proof. reflexivity. Qed.

Lemma dispatch_h07 :
  tar_dispatch F1 F2 F3 s 7 obj =
  b <- F1 <( 2, obj )> ;; c <- F1 <( 3, obj )> ;; F3 <( s, 2, b, 1, c )>.
Proof. reflexivity. Qed.

Lemma dispatch_h08 :
  tar_dispatch F1 F2 F3 s 8 obj =
  b <- F1 <( 2, obj )> ;; c <- F1 <( 3, obj )> ;;
  F3 <( s, 7, <( <( 7, <( 0, 1 )>, b )>, 0, 1 )>, c )>.
Proof. reflexivity. Qed.

Lemma dispatch_h09 :
  tar_dispatch F1 F2 F3 s 9 obj =
  b <- F1 <( 2, obj )> ;; c <- F1 <( 3, obj )> ;;
  F3 <( s, 7, c, 2, <( 0, 1 )>, 0, b )>.
Proof. reflexivity. Qed.

Lemma dispatch_h10 :
  tar_dispatch F1 F2 F3 s 10 obj =
  hint <- F1 <( 2, obj )> ;;
  if is_int hint then c <- F1 <( 3, obj )> ;; F3 <( s, c )>
  else c <- F1 <( 2, hint )> ;; F3 <( s, 8, c, 7, <( 0, 3 )>, obj )>.
Proof.
  unfold tar_dispatch. change (_wut 10) with (Ok (PInt NO)).
  cbn [bind py_eq].
  change (NO =? YES) with false. cbv iota.
  change (py_eq 10 OP_FAS) with false. change (py_eq 10 OP_CON) with false.
  change (py_eq 10 OP_TAR) with false. change (py_eq 10 OP_WUT) with false.
  change (py_eq 10 OP_LUS) with false. change (py_eq 10 OP_TIS) with false.
  change (py_eq 10 OP_IF) with false. change (py_eq 10 OP_H07) with false.
  change (py_eq 10 OP_H08) with false. change (py_eq 10 OP_H09) with false.
  change (py_eq 10 OP_H10) with true. cbv iota.
  apply bind_ext. intros hint _. unfold _wut. cbn [bind py_eq].
  now destruct (is_int hint).
Qed.

End Dispatch.

Lemma value_binary (v : pyval) : value v = true -> binary v = true.
Proof. intros H. now apply value_split in H. Qed.

Lemma value_none_free (v : pyval) : value v = true -> none_free v = true.
Proof. intros H. now apply value_split in H. Qed.

Lemma word_split (v : pyval) :
  word v = true <-> value v = true /\ small v = true.
Proof. unfold word. apply andb_true_iff. Qed.

Lemma word_value (v : pyval) : word v = true -> value v = true.
Proof. intros H. now apply word_split in H. Qed.

Lemma word_small (v : pyval) : word v = true -> small v = true.
Proof. intros H. now apply word_split in H. Qed.

Lemma word_binary (v : pyval) : word v = true -> binary v = true.
Proof. intros H. now apply value_binary, word_value. Qed.

Lemma word_none_free (v : pyval) : word v = true -> none_free v = true.
Proof. intros H. now apply value_none_free, word_value. Qed.

Lemma word_pair (x y : pyval) :
  word <( x, y )> = true <-> word x = true /\ word y = true.
Proof. rewrite !word_split, value_pair, small_pair. tauto. Qed.

Lemma word_int (z : Z) : is_int (PInt z) = true -> word (PInt z) = true.
Proof. intros H. apply word_split. split; [reflexivity | exact H]. Qed.

Lemma word_renders (v : pyval) : word v = true -> exists s, _r v = Ok s.
Proof.
  intros H. apply r_none_free; [now apply word_none_free | now apply word_small].
Qed.

Lemma public_ok_word (f : pyval -> res pyval) (x v : pyval) :
  word x = true -> f x = Ok v -> word v = true -> _public f x = Ok v.
Proof.
  intros Wx E Wv.
  apply public_ok; auto using word_none_free, word_small.
Qed.

Lemma public_word (g : pyval -> res pyval) (x v : pyval) :
  (forall y w, g y = Ok w -> binary w = true) ->
  _public g x = Ok v -> word v = true.
Proof.
  intros B E. pose proof (public_Ok_small _ _ _ E) as (S & _).
  apply public_Ok_inv in E as (E & N). apply word_split.
  split; [| exact S]. apply value_split. split; [now apply B in E | exact N].
Qed.

Lemma fas_word (fuel : nat) (x v : pyval) :
  fas fuel x = Ok v -> word v = true.
Proof. apply public_word. apply fas_binary_any. Qed.

(** A noun of machine integers. *)
Lemma noun_word (v : pyval) :
  is_noun v = true -> small v = true -> word v = true.
Proof. intros H S. apply word_split. split; [now apply noun_value | exact S]. Qed.

(** What the public [tar] returns, and what it returns on, is rendered. *)
Lemma tar_word (fuel : nat) (x v : pyval) :
  tar fuel x = Ok v -> word v = true.
Proof.
  intros E. apply word_split. split; [now apply tar_value in E |].
  now apply public_Ok_small in E.
Qed.

Lemma reduces_small (x v : pyval) : reduces x (Ok v) -> small x = true.
Proof. intros (f & E & _). now apply public_Ok_small in E. Qed.

(** On an argument that holds a [long] the one outcome of [tar] is the
    [TypeError] of the log rendering. *)
Lemma reduces_long (x : pyval) (r : res pyval) :
  small x = false -> reduces x r <-> r = Raise TypeError.
Proof.
  intros S. split.
  - intros (f & E & _). unfold tar in E. now rewrite public_long in E.
  - intros ->. exists O. split; [now apply public_long | discriminate].
Qed.

Ltac solve_value :=
  repeat (apply word_pair; split);
  first [assumption | reflexivity | apply word_int; assumption].

Ltac solve_binary := apply word_binary; solve_value.

Ltac t_norm :=
  repeat first
    [ rewrite t_more
    | rewrite t_two
    | rewrite aorc_tuple
    | rewrite aorc_binary by solve_binary
    | progress cbn [bind] ].

(** A subject and a cell formula, both values: one level of [tar]. *)
Lemma tar_cell (k : nat) (s h t : pyval) :
  word s = true -> word h = true -> word t = true ->
  tar (S (S (S k))) <( s, <( h, t )> )> =
  (result <- tar_dispatch (_fas (S (S k))) (fas (S (S k))) (tar (S (S k)))
               s h t ;;
   _r result ;;; Ok result).
Proof.
  intros Vs Vh Vt.
  assert (Vx : word <( s, <( h, t )> )> = true) by solve_value.
  unfold tar at 1. unfold _public at 1.
  destruct (word_renders _ Vx) as (str & ->).
  cbn [bind].
  rewrite (tar_carve_cell k [s; <( h, t )>] s h t); [reflexivity |].
  t_norm. reflexivity.
Qed.

Lemma tar_idem (k : nat) (x : pyval) :
  (result <- tar k x ;; _r result ;;; Ok result) = tar k x.
Proof. apply public_idem. Qed.

Ltac finish_rule :=
  repeat (rewrite bind_assoc; apply bind_ext; intros ? ?);
  first [apply tar_idem | apply public_idem].

Section Rules.
Variable k : nat.
Variables s b c d : pyval.
Hypothesis Vs : word s = true.
Hypothesis Vb : word b = true.
Hypothesis Vc : word c = true.
Hypothesis Vd : word d = true.

(** Rule 21: [(0, b)] is the slot [b] of the subject. *)
Lemma rule_fas :
  tar (S (S (S k))) <( s, <( 0, b )> )> = fas (S (S k)) <( b, s )>.
Proof.
  rewrite tar_cell by solve_value. rewrite dispatch_fas. apply public_idem.
Qed.

(** Rule 22: [(1, b)] is [b]. *)
Lemma rule_con : tar (S (S (S k))) <( s, <( 1, b )> )> = Ok b.
Proof.
  rewrite tar_cell by solve_value. rewrite dispatch_con. cbn [bind].
  destruct (word_renders b Vb) as (str & ->). reflexivity.
Qed.

(** Rule 19: a formula with a cell for head is the pair of two
    reductions. *)
Lemma rule_cons (x y : pyval) :
  word x = true -> word y = true ->
  tar (S (S (S k))) <( s, <( <( x, y )>, c )> )> =
  v <- tar (S (S k)) <( s, <( x, y )> )> ;;
  w <- tar (S (S k)) <( s, c )> ;;
  Ok <( v, w )>.
Proof.
  intros Vx Vy. rewrite tar_cell by solve_value. rewrite dispatch_cons.
  rewrite bind_assoc. apply bind_ext. intros v Ev.
  rewrite bind_assoc. apply bind_ext. intros w Ew.
  apply tar_word in Ev, Ew. cbn [bind].
  assert (Vvw : word <( v, w )> = true) by solve_value.
  destruct (word_renders _ Vvw) as (str & ->).
  reflexivity.
Qed.

(** Rule 23. *)
Lemma rule_tar :
  tar (S (S (S k))) <( s, <( 2, <( b, c )> )> )> =
  s' <- tar (S (S k)) <( s, b )> ;;
  f <- tar (S (S k)) <( s, c )> ;;
  tar (S (S k)) <( s', f )>.
Proof.
  rewrite tar_cell by solve_value. rewrite dispatch_tar.
  rewrite fas_head, fas_tail by solve_binary. cbn [bind].
  finish_rule.
Qed.

(** Rules 24 to 26. *)
Lemma rule_wut :
  tar (S (S (S k))) <( s, <( 3, b )> )> =
  r <- tar (S (S k)) <( s, b )> ;; wut r.
Proof. rewrite tar_cell by solve_value. rewrite dispatch_wut. finish_rule. Qed.

Lemma rule_lus :
  tar (S (S (S k))) <( s, <( 4, b )> )> =
  r <- tar (S (S k)) <( s, b )> ;; lus r.
Proof. rewrite tar_cell by solve_value. rewrite dispatch_lus. finish_rule. Qed.

Lemma rule_tis :
  tar (S (S (S k))) <( s, <( 5, b )> )> =
  r <- tar (S (S k)) <( s, b )> ;; tis r.
Proof. rewrite tar_cell by solve_value. rewrite dispatch_tis. finish_rule. Qed.

(** Rule 28, as [_tar] has it: the macro expansion, reduced one level
    down. *)
Lemma rule_if :
  tar (S (S (S k))) <( s, <( 6, <( b, <( c, d )> )> )> )> =
  tar (S (S k))
    <( s, <( 2, <( <( 0, 1 )>,
       <( 2, <( <( 1, <( c, d )> )>,
          <( <( 1, 0 )>,
             <( 2, <( <( 1, <( 2, 3 )> )>,
                <( <( 1, 0 )>, <( 4, <( 4, b )> )> )> )> )> )> )> )> )> )> )>.
Proof.
  rewrite tar_cell by solve_value. rewrite dispatch_if.
  rewrite fas_head by solve_binary. cbn [bind].
  rewrite fas_six, fas_seven by solve_binary.
  rewrite fas_head, fas_tail by solve_binary. cbn [bind].
  rewrite tar_idem. apply tar_normalises. t_norm. reflexivity.
Qed.

(** Rule 29. *)
Lemma rule_h07 :
  tar (S (S (S k))) <( s, <( 7, <( b, c )> )> )> =
  tar (S (S k)) <( s, <( 2, <( b, <( 1, c )> )> )> )>.
Proof.
  rewrite tar_cell by solve_value. rewrite dispatch_h07.
  rewrite fas_head, fas_tail by solve_binary. cbn [bind].
  rewrite tar_idem. apply tar_normalises. t_norm. reflexivity.
Qed.

(** Rule 30. *)
Lemma rule_h08 :
  tar (S (S (S k))) <( s, <( 8, <( b, c )> )> )> =
  tar (S (S k))
    <( s, <( 7, <( <( <( 7, <( <( 0, 1 )>, b )> )>, <( 0, 1 )> )>, c )> )> )>.
Proof.
  rewrite tar_cell by solve_value. rewrite dispatch_h08.
  rewrite fas_head, fas_tail by solve_binary. cbn [bind].
  rewrite tar_idem. apply tar_normalises. t_norm. reflexivity.
Qed.

(** Rule 31. *)
Lemma rule_h09 :
  tar (S (S (S k))) <( s, <( 9, <( b, c )> )> )> =
  tar (S (S k))
    <( s, <( 7, <( c, <( 2, <( <( 0, 1 )>, <( 0, b )> )> )> )> )> )>.
Proof.
  rewrite tar_cell by solve_value. rewrite dispatch_h09.
  rewrite fas_head, fas_tail by solve_binary. cbn [bind].
  rewrite tar_idem. apply tar_normalises. t_norm. reflexivity.
Qed.

(** Rule 33: an atom hint is dropped. *)
Lemma rule_h10_atom (h : Z) :
  is_int (PInt h) = true ->
  tar (S (S (S k))) <( s, <( 10, <( PInt h, c )> )> )> =
  tar (S (S k)) <( s, c )>.
Proof.
  intros Ih.
  rewrite tar_cell by solve_value. rewrite dispatch_h10.
  rewrite fas_head by solve_binary. cbn [bind]. rewrite Ih.
  rewrite fas_tail by solve_binary. cbn [bind].
  apply tar_idem.
Qed.

(** Rule 32, as [_tar] has it: with the hint [(b, c)] and the formula [d],
    it is the head [b] of the hint that goes into the expansion, and the
    whole [((b, c), d)] instead of [d]. *)
Lemma rule_h10_cell :
  tar (S (S (S k))) <( s, <( 10, <( <( b, c )>, d )> )> )> =
  tar (S (S k))
    <( s, <( 8, <( b, <( 7, <( <( 0, 3 )>, <( <( b, c )>, d )> )> )> )> )> )>.
Proof.
  rewrite tar_cell by solve_value. rewrite dispatch_h10.
  rewrite fas_head by solve_binary. cbn [bind is_int].
  rewrite fas_head by solve_binary. cbn [bind].
  rewrite tar_idem. apply tar_normalises. t_norm. reflexivity.
Qed.

End Rules.

(** ** Slots through the public [fas] *)

Lemma fas_pub_one (k : nat) (t : pyval) :
  word t = true -> fas (S k) <( 1, t )> = Ok t.
Proof.
  intros Vt. apply public_ok_word; [solve_value | | exact Vt].
  rewrite fas_unfold by solve_binary. reflexivity.
Qed.

Lemma fas_pub_head (k : nat) (x y : pyval) :
  word x = true -> word y = true -> fas (S k) <( 2, <( x, y )> )> = Ok x.
Proof.
  intros Vx Vy. apply public_ok_word; [solve_value | | exact Vx].
  apply fas_head. solve_binary.
Qed.

Lemma fas_pub_tail (k : nat) (x y : pyval) :
  word x = true -> word y = true -> fas (S k) <( 3, <( x, y )> )> = Ok y.
Proof.
  intros Vx Vy. apply public_ok_word; [solve_value | | exact Vy].
  apply fas_tail. solve_binary.
Qed.

Lemma ev_self (k : nat) (s : pyval) :
  word s = true -> tar (S (S (S k))) <( s, <( 0, 1 )> )> = Ok s.
Proof. intros Vs. rewrite rule_fas by solve_value. now apply fas_pub_one. Qed.

Lemma ev_head (k : nat) (x y : pyval) :
  word x = true -> word y = true ->
  tar (S (S (S k))) <( <( x, y )>, <( 0, 2 )> )> = Ok x.
Proof.
  intros Vx Vy. rewrite rule_fas by solve_value. now apply fas_pub_head.
Qed.

Lemma ev_tail (k : nat) (x y : pyval) :
  word x = true -> word y = true ->
  tar (S (S (S k))) <( <( x, y )>, <( 0, 3 )> )> = Ok y.
Proof.
  intros Vx Vy. rewrite rule_fas by solve_value. now apply fas_pub_tail.
Qed.

Lemma lus_int (z : Z) :
  is_int (PInt z) = true -> is_int (PInt (1 + z)) = true ->
  lus (PInt z) = Ok (PInt (1 + z)).
Proof.
  intros I I'. apply public_ok_word; try now apply word_int.
  unfold _lus. now rewrite I.
Qed.

(** ** What opcode 6 computes *)

Lemma lus_value (r w : pyval) :
  word r = true -> lus r = Ok w -> word w = true.
Proof.
  intros Vr E. pose proof (public_Ok_small _ _ _ E) as (S & _).
  apply public_Ok_inv in E as (E & N). apply word_split.
  split; [| exact S]. apply value_split. split; [| exact N].
  destruct r as [z | l |]; cbn [_lus] in E;
    try destruct (is_int (PInt z)); injection E as <-;
    try reflexivity; solve_binary.
Qed.

(** The expansion of rule 28, level by level: the test yields [tv],
    incremented twice it is the address that selects [v] in [(2, 3)], and
    [v] is the address into [(c, d)] of the formula that is reduced. *)
Lemma if_chain (j : nat) (s b c d tv t1 t2 v : pyval) :
  word s = true -> word b = true -> word c = true -> word d = true ->
  tar (2 + j) <( s, b )> = Ok tv ->
  lus tv = Ok t1 -> lus t1 = Ok t2 ->
  fas (4 + j) <( t2, <( 2, 3 )> )> = Ok v ->
  tar (10 + j)
    <( s, <( 6, <( b, <( c, d )> )> )> )> =
  f <- fas (6 + j) <( v, <( c, d )> )> ;;
  tar (8 + j) <( s, f )>.
Proof.
  cbn [Nat.add]. intros Vs Vb Vc Vd Eb E1 E2 Ev.
  assert (Vtv : word tv = true) by now apply tar_word in Eb.
  assert (Vt1 : word t1 = true) by now apply (lus_value tv).
  assert (Vt2 : word t2 = true) by now apply (lus_value t1).
  assert (Vv : word v = true).
  { now apply fas_word in Ev. }
  rewrite rule_if by assumption.
  rewrite rule_tar by solve_value.
  rewrite ev_self by assumption. cbn [bind].
  rewrite rule_tar by solve_value.
  rewrite rule_con by solve_value. cbn [bind].
  rewrite rule_cons by solve_value.
  rewrite rule_con by solve_value. cbn [bind].
  rewrite rule_tar by solve_value.
  rewrite rule_con by solve_value. cbn [bind].
  rewrite rule_cons by solve_value.
  rewrite rule_con by solve_value. cbn [bind].
  rewrite rule_lus by solve_value.
  rewrite rule_lus by solve_value.
  rewrite Eb. cbn [bind]. rewrite E1. cbn [bind]. rewrite E2. cbn [bind].
  rewrite rule_fas by solve_value.
  rewrite Ev. cbn [bind].
  rewrite rule_fas by solve_value.
  reflexivity.
Qed.

(** The expansion of rule 28 up to the test: everything that follows
    hangs on what the test [b] yields. *)
Lemma if_prefix (j : nat) (s b c d : pyval) :
  word s = true -> word b = true -> word c = true -> word d = true ->
  tar (10 + j) <( s, <( 6, <( b, <( c, d )> )> )> )> =
  tv <- tar (2 + j) <( s, b )> ;;
  t1 <- lus tv ;;
  t2 <- lus t1 ;;
  v <- fas (4 + j) <( t2, <( 2, 3 )> )> ;;
  f <- fas (6 + j) <( v, <( c, d )> )> ;;
  tar (8 + j) <( s, f )>.
Proof.
  cbn [Nat.add]. intros Vs Vb Vc Vd.
  rewrite rule_if by assumption.
  rewrite rule_tar by solve_value.
  rewrite ev_self by assumption. cbn [bind].
  rewrite rule_tar by solve_value.
  rewrite rule_con by solve_value. cbn [bind].
  rewrite rule_cons by solve_value.
  rewrite rule_con by solve_value. cbn [bind].
  rewrite rule_tar by solve_value.
  rewrite rule_con by solve_value. cbn [bind].
  rewrite rule_cons by solve_value.
  rewrite rule_con by solve_value. cbn [bind].
  rewrite rule_lus by solve_value.
  rewrite rule_lus by solve_value.
  rewrite !bind_assoc. apply bind_ext. intros tv Etv. cbn beta.
  apply tar_word in Etv.
  rewrite ?bind_assoc. apply bind_ext. intros t1 E1. cbn beta.
  pose proof (lus_value _ _ Etv E1) as Vt1.
  rewrite ?bind_assoc. apply bind_ext. intros t2 E2. cbn beta.
  pose proof (lus_value _ _ Vt1 E2) as Vt2.
  cbn [bind].
  rewrite rule_fas by solve_value.
  rewrite ?bind_assoc. apply bind_ext. intros v Ev. cbn beta.
  assert (Vv : word v = true).
  { now apply fas_word in Ev. }
  cbn [bind].
  rewrite rule_fas by solve_value.
  reflexivity.
Qed.

(** Two outcomes that agree from some depth on, up to a shift of the
    depth, are the same outcome. *)
Lemma reduces_shift (x y : pyval) (m n j0 : nat) :
  (forall j, (j0 <= j)%nat -> tar (m + j) x = tar (n + j) y) ->
  forall r, reduces x r <-> reduces y r.
Proof.
  intros H r. split; intros (f & E & En).
  - exists (n + Nat.max j0 f)%nat. split; [| exact En].
    rewrite <- H by lia. apply (tar_mono f); [lia | exact E | exact En].
  - exists (m + Nat.max j0 f)%nat. split; [| exact En].
    rewrite H by lia. apply (tar_mono f); [lia | exact E | exact En].
Qed.

Lemma reduces_Ok_at (x v : pyval) :
  reduces x (Ok v) -> exists f, forall j, (f <= j)%nat -> tar j x = Ok v.
Proof.
  intros (f & E & En). exists f. intros j Hj.
  apply (tar_mono f); assumption.
Qed.

(** The slots of [(2, 3)] are 2 and 3, at every address from 2 on. *)
Lemma fas_two_three (fuel : nat) :
  forall (n : Z) (v : pyval),
    2 <= n -> _fas fuel <( n, <( 2, 3 )> )> = Ok v ->
    v = PInt 2 \/ v = PInt 3.
Proof.
  induction fuel as [| fuel IH]; intros n v Hn E; [discriminate |].
  rewrite fas_S in E by reflexivity.
  assert (Sub : forall (q k : Z), 2 <= q ->
            try_TypeError
              (inner <- _fas fuel <( q, <( 2, 3 )> )> ;;
               _fas fuel <( k, inner )>) (Ok <( 2, 3 )>) = Ok v ->
            v = PInt 2 \/ v = PInt 3).
  { intros q k Hq H.
    destruct (fas_noun fuel q <( 2, 3 )> eq_refl) as [(m & Em & _) | Em];
      rewrite Em in H; [| discriminate].
    cbn [bind] in H. destruct (IH q m Hq Em) as [-> | ->].
    - destruct (fas_noun fuel k 2 eq_refl) as [(w & Ew & _) | Ew];
        rewrite Ew in H; [| discriminate].
      apply fas_atom_inv in Ew. subst w. injection H as <-. now left.
    - destruct (fas_noun fuel k 3 eq_refl) as [(w & Ew & _) | Ew];
        rewrite Ew in H; [| discriminate].
      apply fas_atom_inv in Ew. subst w. injection H as <-. now right. }
  destruct (n =? 1) eqn:E1; [lia |].
  destruct (n =? 2) eqn:E2; [injection E as <-; now left |].
  destruct (n =? 3) eqn:E3; [injection E as <-; now right |].
  apply Z.eqb_neq in E2, E3.
  pose proof (Z.div_mod n 2 ltac:(lia)) as Hdm.
  pose proof (Z.mod_pos_bound n 2 ltac:(lia)) as Hmb.
  destruct (n mod 2 =? 0) eqn:Em0.
  { apply (Sub (n / 2) 2); [lia | exact E]. }
  destruct (n mod 2 =? 1) eqn:Em1.
  { apply (Sub ((n - 1) / 2) 3); [| exact E].
    pose proof (Z.div_mod (n - 1) 2 ltac:(lia)).
    pose proof (Z.mod_pos_bound (n - 1) 2 ltac:(lia)). lia. }
  apply Z.eqb_neq in Em0, Em1. lia.
Qed.

Section If.
Variables s b c d : pyval.
Hypothesis Vs : word s = true.
Hypothesis Vb : word b = true.
Hypothesis Vc : word c = true.
Hypothesis Vd : word d = true.

Lemma if_selected (tv t1 t2 v f : pyval) :
  reduces <( s, b )> (Ok tv) ->
  lus tv = Ok t1 -> lus t1 = Ok t2 ->
  (exists k0, forall k, (k0 <= k)%nat -> fas k <( t2, <( 2, 3 )> )> = Ok v) ->
  (forall k, fas (S k) <( v, <( c, d )> )> = Ok f) ->
  forall r, reduces <( s, <( 6, <( b, <( c, d )> )> )> )> r <->
            reduces <( s, f )> r.
Proof.
  intros Rb E1 E2 (k0 & Hv) Hf.
  apply reduces_Ok_at in Rb as (f0 & Hb).
  apply (reduces_shift _ _ 10 8 (Nat.max f0 k0)). intros j Hj.
  rewrite (if_chain j s b c d tv t1 t2 v); try assumption.
  - change (6 + j)%nat with (S (5 + j)). rewrite Hf. reflexivity.
  - apply Hb. lia.
  - apply Hv. lia.
Qed.

(** The test yields 0: the formula reduces as [c] does. *)
Lemma if_yes :
  reduces <( s, b )> (Ok (PInt 0)) ->
  forall r, reduces <( s, <( 6, <( b, <( c, d )> )> )> )> r <->
            reduces <( s, c )> r.
Proof.
  intros Rb. apply (if_selected 0 1 2 2); try reflexivity; try assumption.
  - exists 1%nat. intros [| k] Hk; [lia | reflexivity].
  - intros k. now apply fas_pub_head.
Qed.

(** The test yields 1: the formula reduces as [d] does. *)
Lemma if_no :
  reduces <( s, b )> (Ok (PInt 1)) ->
  forall r, reduces <( s, <( 6, <( b, <( c, d )> )> )> )> r <->
            reduces <( s, d )> r.
Proof.
  intros Rb. apply (if_selected 1 2 3 3); try reflexivity; try assumption.
  - exists 1%nat. intros [| k] Hk; [lia | reflexivity].
  - intros k. now apply fas_pub_tail.
Qed.

Lemma is_int_range (z : Z) :
  is_int (PInt z) = true <-> - sys_maxint - 1 <= z <= sys_maxint.
Proof. unfold is_int. rewrite andb_true_iff, !Z.leb_le. tauto. Qed.

(** The test yields an atom from 2 on, two below [sys.maxint] at most: the
    formula still reduces as one of [c] and [d] does. *)
Lemma if_other_atom (t : Z) :
  2 <= t -> t + 2 <= sys_maxint ->
  reduces <( s, b )> (Ok (PInt t)) ->
  (forall r, reduces <( s, <( 6, <( b, <( c, d )> )> )> )> r <->
             reduces <( s, c )> r) \/
  (forall r, reduces <( s, <( 6, <( b, <( c, d )> )> )> )> r <->
             reduces <( s, d )> r).
Proof.
  intros Ht Hm Rb.
  set (n := 1 + (1 + t)).
  assert (It : is_int (PInt t) = true)
    by (apply is_int_range; unfold sys_maxint in *; lia).
  assert (It1 : is_int (PInt (1 + t)) = true)
    by (apply is_int_range; unfold sys_maxint in *; lia).
  assert (In : is_int (PInt n) = true)
    by (apply is_int_range; unfold n, sys_maxint in *; lia).
  destruct (slot_total n <( 2, 3 )> eq_refl) as (v & (k0 & Ev) & _);
    [lia |].
  assert (Hv : exists k0, forall k, (k0 <= k)%nat ->
                 fas k <( n, <( 2, 3 )> )> = Ok v).
  { exists k0. intros k Hk. rewrite fas_public; [| reflexivity |].
    - now apply (fas_mono k0).
    - apply small_pair. split; [exact In | reflexivity]. }
  destruct (fas_two_three k0 n v ltac:(lia) Ev) as [-> | ->].
  - left. apply (if_selected t (1 + t) n 2); try assumption;
      try (now apply lus_int).
    intros k. now apply fas_pub_head.
  - right. apply (if_selected t (1 + t) n 3); try assumption;
      try (now apply lus_int).
    intros k. now apply fas_pub_tail.
Qed.

(** The test yields a cell: the pair [(c, d)] itself is reduced as a
    formula. *)
(** The test yields an atom whose second successor is beyond
    [sys.maxint]: [lus] cannot render it, and the formula raises. *)
Lemma if_overflow (t : Z) :
  sys_maxint < t + 2 ->
  reduces <( s, b )> (Ok (PInt t)) ->
  reduces <( s, <( 6, <( b, <( c, d )> )> )> )> (Raise TypeError).
Proof.
  intros Hm Rb.
  assert (It : is_int (PInt t) = true).
  { destruct Rb as (f & E & _). apply tar_word in E.
    now apply word_small in E. }
  apply is_int_range in It.
  apply reduces_Ok_at in Rb as (f0 & Hb).
  exists (10 + f0)%nat. split; [| discriminate].
  rewrite if_prefix by assumption. rewrite Hb by lia. cbn [bind].
  assert (C : t = sys_maxint \/ t = sys_maxint - 1) by lia.
  destruct C as [-> | ->].
  - now replace (lus (PInt sys_maxint)) with (@Raise pyval TypeError).
  - replace (lus (PInt (sys_maxint - 1))) with (Ok (PInt sys_maxint))
      by reflexivity.
    cbn [bind].
    now replace (lus (PInt sys_maxint)) with (@Raise pyval TypeError).
Qed.

Lemma if_cell (x y : pyval) :
  reduces <( s, b )> (Ok <( x, y )>) ->
  forall r, reduces <( s, <( 6, <( b, <( c, d )> )> )> )> r <->
            reduces <( s, <( c, d )> )> r.
Proof.
  intros Rb.
  assert (Vxy : word <( x, y )> = true).
  { destruct Rb as (f & E & _). now apply tar_word in E. }
  assert (L : lus <( x, y )> = Ok <( x, y )>)
    by (apply public_ok_word; [exact Vxy | reflexivity | exact Vxy]).
  pose proof Vxy as Vxy'. apply word_pair in Vxy' as [Vx Vy].
  apply (if_selected <( x, y )> <( x, y )> <( x, y )> <( 2, 3 )>);
    try assumption.
  - exists 1%nat. intros [| k] Hk; [lia |].
    apply public_ok_word; [solve_value | reflexivity | reflexivity].
  - intros k. apply public_ok_word; [solve_value | | solve_value].
    cbn [_fas]. rewrite aorc_binary by solve_binary. reflexivity.
Qed.

End If.

(** ** What opcode 10 computes on a cell hint *)

Lemma pair_neq_tail (y : pyval) : forall x, <( x, y )> <> y.
Proof.
  induction y as [z | | l IH] using pyval_ind'; intros x E;
    try discriminate.
  injection E as El. rewrite <- El in IH.
  inversion IH as [| ? ? _ IH']; subst.
  inversion IH' as [| ? ? Hy _]; subst.
  apply (Hy x). now rewrite <- El at 2.
Qed.

(** The expansion that [_tar] builds for the hint [(b, c)] and the formula
    [d], level by level: [b] is reduced and dropped, then the pair
    [((b, c), d)] is reduced as a formula, which is rule 19. *)
Lemma h10_chain (j : nat) (s b c d : pyval) :
  word s = true -> word b = true -> word c = true -> word d = true ->
  tar (10 + j)
    <( s, <( 10, <( <( b, c )>, d )> )> )> =
  v <- tar (3 + j) <( s, b )> ;;
  x <- tar (3 + j) <( s, <( b, c )> )> ;;
  y <- tar (3 + j) <( s, d )> ;;
  Ok <( x, y )>.
Proof.
  cbn [Nat.add]. intros Vs Vb Vc Vd.
  rewrite rule_h10_cell by assumption.
  rewrite rule_h08 by solve_value.
  rewrite rule_h07 by solve_value.
  rewrite rule_tar by solve_value.
  rewrite rule_cons by solve_value.
  rewrite ev_self by assumption.
  rewrite rule_h07 by solve_value.
  rewrite rule_tar by solve_value.
  rewrite ev_self by assumption. cbn [bind].
  rewrite rule_con by solve_value. cbn [bind].
  rewrite (rule_con _ s) by solve_value.
  rewrite !bind_assoc. apply bind_ext. intros v Ev. cbn [bind].
  apply tar_word in Ev.
  rewrite rule_h07 by solve_value.
  rewrite rule_tar by solve_value.
  rewrite ev_tail by assumption. cbn [bind].
  rewrite rule_con by solve_value. cbn [bind].
  rewrite rule_cons by solve_value.
  reflexivity.
Qed.

Lemma h10_cell_result (s b c d r : pyval) :
  word s = true -> word b = true -> word c = true -> word d = true ->
  reduces <( s, <( 10, <( <( b, c )>, d )> )> )> (Ok r) <->
  exists v x y,
    reduces <( s, b )> (Ok v) /\
    reduces <( s, <( b, c )> )> (Ok x) /\
    reduces <( s, d )> (Ok y) /\
    r = <( x, y )>.
Proof.
  intros Vs Vb Vc Vd. split.
  - intros (f & E & En).
    apply (tar_mono f (10 + f)) in E; [| lia | exact En].
    rewrite h10_chain in E by assumption.
    apply bind_Ok in E as (v & Ev & E). apply bind_Ok in E as (x & Ex & E).
    apply bind_Ok in E as (y & Ey & E). injection E as <-.
    exists v, x, y.
    repeat split; eapply reduces_at; eassumption.
  - intros (v & x & y & Rv & Rx & Ry & ->).
    apply reduces_Ok_at in Rv as (f1 & Hv).
    apply reduces_Ok_at in Rx as (f2 & Hx).
    apply reduces_Ok_at in Ry as (f3 & Hy).
    set (j := Nat.max f1 (Nat.max f2 f3)).
    apply (reduces_at (10 + j)).
    rewrite h10_chain by assumption.
    rewrite Hv, Hx, Hy by lia. reflexivity.
Qed.

(** C1.  The claim gives [reduce(s, d)] for a cell hint.  [_tar] takes the
    head of the hint where rule 32 takes its tail, and passes the whole
    [obj] where the rule passes [d].  So for every subject [s], hint
    [(b, c)] and formula [d]: when the reduction returns [r] and [d]
    reduces to [y], then [r] is the pair [(x, y)] with [x] what the hint
    itself reduces to as a formula, and [r] is never [y].  At
    [(42, (10, (1, (1, 5)), (4, 0, 1)))] the formula [(1, 5)] of the hint
    reduces to 5 and [(4, 0, 1)] to 43, and [tar] returns [((1, 5), 43)]
    instead of 43; with the hint [(37, (1, 5))] it reduces the atom 37 as
    a formula and raises. *)
Theorem tar_cell_hint_returns_pair (s b c d r y : pyval)
  (Hs : is_noun s = true) (Hb : is_noun b = true)
  (Hc : is_noun c = true) (Hd : is_noun d = true)
  (Hr : reduces <( s, <( 10, <( <( b, c )>, d )> )> )> (Ok r))
  (Hy : reduces <( s, d )> (Ok y)) :
  (exists x, r = <( x, y )> /\ reduces <( s, <( b, c )> )> (Ok x)) /\
  (exists v, reduces <( s, b )> (Ok v)) /\
  r <> y /\
  reduces <( 42, <( 1, 5 )> )> (Ok (PInt 5)) /\
  reduces <( 42, <( 4, 0, 1 )> )> (Ok (PInt 43)) /\
  reduces <( 42, <( 10, <( 1, <( 1, 5 )> )>, <( 4, 0, 1 )> )> )>
    (Ok <( <( 1, 5 )>, 43 )>) /\
  ~ reduces <( 42, <( 10, <( 1, <( 1, 5 )> )>, <( 4, 0, 1 )> )> )>
    (Ok (PInt 43)) /\
  reduces <( 42, <( 10, <( 37, <( 1, 5 )> )>, <( 4, 0, 1 )> )> )>
    (Raise TypeError).
Proof.
  pose proof (reduces_small _ _ Hr) as S.
  apply small_pair in S as [Ss S]. apply small_pair in S as [_ S].
  apply small_pair in S as [S Sd]. apply small_pair in S as [Sb Sc].
  apply h10_cell_result in Hr as (v & x & y' & Rv & Rx & Ry & ->);
    auto using noun_word.
  pose proof (reduces_det _ _ _ Hy Ry) as Eyy. injection Eyy as <-.
  assert (R : reduces <( 42, <( 10, <( 1, <( 1, 5 )> )>, <( 4, 0, 1 )> )> )>
                (Ok <( <( 1, 5 )>, 43 )>))
    by (apply (reduces_at 20); vm_compute; reflexivity).
  repeat match goal with |- _ /\ _ => split end.
  - now exists x.
  - now exists v.
  - apply pair_neq_tail.
  - apply (reduces_at 5). vm_compute. reflexivity.
  - apply (reduces_at 8). vm_compute. reflexivity.
  - exact R.
  - intros R'. pose proof (reduces_det _ _ _ R R'). discriminate.
  - apply (reduces_raise_at 20). vm_compute. reflexivity.
Qed.

Lemma tar_cell_hint_returns_pair_witness :
  exists x,
    <( <( 1, 5 )>, 43 )> = <( x, 43 )> /\
    reduces <( 42, <( 1, <( 1, 5 )> )> )> (Ok x).
Proof.
  destruct (tar_cell_hint_returns_pair 42 1 <( 1, 5 )> <( 4, <( 0, 1 )> )>
              <( <( 1, 5 )>, 43 )> 43) as (H & _);
    try reflexivity.
  - apply (reduces_at 20). vm_compute. reflexivity.
  - apply (reduces_at 8). vm_compute. reflexivity.
  - exact H.
Defined.

(** C4.  With a test that yields 0 the formula [(6, b, c, d)] reduces as
    [c] does, and with a test that yields 1 as [d] does.  With any other
    test value the claim requires a crash.  [_tar] reduces the macro
    expansion of rule 28, whose address [t + 2] into [(2, 3)] runs into an
    atom when [t >= 2]; [_fas] catches the [TypeError] and returns that
    atom: the formula reduces as one of [c] and [d] does,
    and when the test yields a cell it is the pair [(c, d)] that is
    reduced as a formula.  At [(42, (6, (1, 7), (4, 0, 1), (1, 233)))] the
    test yields 7 and [tar] returns 43, the "then" branch, and raises
    nothing.  With the tests [(1, 0)] and [(1, 1)] the results are 43 and
    233.  (The branch that is not taken is still rendered for the log,
    and so is the address [t + 2]: when [c] or [d] holds a [long], or
    [t + 2] lies beyond [sys.maxint], the formula raises [TypeError].) *)
Theorem tar_if_selects_a_branch (s b c d : pyval)
  (Hs : is_noun s = true) (Hb : is_noun b = true)
  (Hc : is_noun c = true) (Hd : is_noun d = true) :
  (reduces <( s, b )> (Ok (PInt 0)) -> small d = true ->
   forall r, reduces <( s, <( 6, <( b, <( c, d )> )> )> )> r <->
             reduces <( s, c )> r) /\
  (reduces <( s, b )> (Ok (PInt 1)) -> small c = true ->
   forall r, reduces <( s, <( 6, <( b, <( c, d )> )> )> )> r <->
             reduces <( s, d )> r) /\
  (forall t : Z,
      2 <= t -> reduces <( s, b )> (Ok (PInt t)) ->
      t + 2 <= sys_maxint -> small c = true -> small d = true ->
      (forall r, reduces <( s, <( 6, <( b, <( c, d )> )> )> )> r <->
                 reduces <( s, c )> r) \/
      (forall r, reduces <( s, <( 6, <( b, <( c, d )> )> )> )> r <->
                 reduces <( s, d )> r)) /\
  (forall x y,
      reduces <( s, b )> (Ok <( x, y )>) ->
      forall r, reduces <( s, <( 6, <( b, <( c, d )> )> )> )> r <->
                reduces <( s, <( c, d )> )> r) /\
  reduces <( 42, <( 6, <( 1, 0 )>, <( 4, 0, 1 )>, <( 1, 233 )> )> )>
    (Ok (PInt 43)) /\
  reduces <( 42, <( 6, <( 1, 1 )>, <( 4, 0, 1 )>, <( 1, 233 )> )> )>
    (Ok (PInt 233)) /\
  reduces <( 42, <( 1, 7 )> )> (Ok (PInt 7)) /\
  reduces <( 42, <( 6, <( 1, 7 )>, <( 4, 0, 1 )>, <( 1, 233 )> )> )>
    (Ok (PInt 43)) /\
  ~ (exists e,
        reduces <( 42, <( 6, <( 1, 7 )>, <( 4, 0, 1 )>, <( 1, 233 )> )> )>
          (Raise e)) /\
  (small <( c, d )> = false ->
   reduces <( s, <( 6, <( b, <( c, d )> )> )> )> (Raise TypeError)) /\
  (forall t : Z,
      reduces <( s, b )> (Ok (PInt t)) -> sys_maxint < t + 2 ->
      reduces <( s, <( 6, <( b, <( c, d )> )> )> )> (Raise TypeError)).
Proof.
  assert (W : forall v, reduces <( s, b )> (Ok v) ->
                        word s = true /\ word b = true).
  { intros v R. apply reduces_small in R. apply small_pair in R as [Ss Sb].
    split; now apply noun_word. }
  assert (X6 : small <( c, d )> = false ->
               forall r, reduces <( s, <( 6, <( b, <( c, d )> )> )> )> r
                         <-> r = Raise TypeError).
  { intros S r. apply reduces_long. cbn [small forallb] in S |- *.
    rewrite andb_true_r in S. rewrite !andb_true_r.
    change (is_int 6) with true. cbn [andb].
    destruct (small s), (small b); cbn [andb]; auto. }
  assert (R : reduces
                <( 42, <( 6, <( 1, 7 )>, <( 4, 0, 1 )>, <( 1, 233 )> )> )>
                (Ok (PInt 43)))
    by (apply (reduces_at 30); vm_compute; reflexivity).
  repeat match goal with |- _ /\ _ => split end.
  - intros Rb Sd. destruct (W _ Rb) as [Ws Wb].
    destruct (small c) eqn:Sc.
    + apply if_yes; auto using noun_word.
    + intros r. rewrite X6 by (cbn [small forallb]; now rewrite Sc).
      rewrite reduces_long; [reflexivity |].
      cbn [small forallb]. now rewrite Sc, andb_false_r.
  - intros Rb Sc. destruct (W _ Rb) as [Ws Wb].
    destruct (small d) eqn:Sd.
    + apply if_no; auto using noun_word.
    + intros r.
      rewrite X6 by (cbn [small forallb]; now rewrite Sd, !andb_false_r).
      rewrite reduces_long; [reflexivity |].
      cbn [small forallb]. now rewrite Sd, andb_false_r.
  - intros t Ht Rb Hm Sc Sd. destruct (W _ Rb) as [Ws Wb].
    apply (if_other_atom s b c d) with (t := t); auto using noun_word.
  - intros x y Rb. destruct (W _ Rb) as [Ws Wb].
    destruct (small <( c, d )>) eqn:Scd.
    + apply small_pair in Scd as [Sc Sd].
      apply (if_cell s b c d Ws Wb) with (x := x) (y := y);
        auto using noun_word.
    + intros r. rewrite X6 by reflexivity.
      rewrite reduces_long; [reflexivity |].
      change (small <( s, <( c, d )> )>)
        with (small s && (small <( c, d )> && true)).
      now rewrite Scd, andb_false_r.
  - apply (reduces_at 30). vm_compute. reflexivity.
  - apply (reduces_at 30). vm_compute. reflexivity.
  - apply (reduces_at 5). vm_compute. reflexivity.
  - exact R.
  - intros (e & R'). pose proof (reduces_det _ _ _ R R'). discriminate.
  - intros Scd. now apply X6.
  - intros t Rb Hm. destruct (W _ Rb) as [Ws Wb].
    destruct (small <( c, d )>) eqn:Scd; [| now apply X6].
    apply small_pair in Scd as [Sc Sd].
    apply (if_overflow s b c d) with (t := t); auto using noun_word.
Qed.

Lemma tar_if_selects_a_branch_witness :
  (forall r, reduces <( 42, <( 6, <( <( 1, 7 )>,
                       <( <( 4, <( 0, 1 )> )>, <( 1, 233 )> )> )> )> )> r <->
             reduces <( 42, <( 4, <( 0, 1 )> )> )> r) \/
  (forall r, reduces <( 42, <( 6, <( <( 1, 7 )>,
                       <( <( 4, <( 0, 1 )> )>, <( 1, 233 )> )> )> )> )> r <->
             reduces <( 42, <( 1, 233 )> )> r).
Proof.
  destruct (tar_if_selects_a_branch 42 <( 1, 7 )> <( 4, <( 0, 1 )> )>
              <( 1, 233 )>) as (_ & _ & H & _);
    try reflexivity.
  apply (H 7); [lia | | unfold sys_maxint; lia | reflexivity | reflexivity].
  apply (reduces_at 5). vm_compute. reflexivity.
Defined.

(** * Further properties *)

(** ** Outcomes at every depth from some depth on *)

Lemma reduces_from (x : pyval) (r : res pyval) :
  reduces x r -> exists f, forall j, (f <= j)%nat -> tar j x = r.
Proof.
  intros (f & E & En). exists f. intros j Hj.
  apply (tar_mono f); assumption.
Qed.

Lemma reduces_const (x : pyval) (r : res pyval) (m j0 : nat) :
  (forall j, (j0 <= j)%nat -> tar (m + j) x = r) -> ended r -> reduces x r.
Proof. intros H En. exists (m + j0)%nat. split; [apply H; lia | exact En]. Qed.

Lemma never_reduces (x : pyval) (m : nat) :
  (forall j, tar (m + j) x = Timeout) -> forall r, ~ reduces x r.
Proof.
  intros H r (f & E & En).
  apply (tar_mono f (m + f)) in E; [| lia | exact En].
  rewrite H in E. now subst r.
Qed.

Lemma public_ended (g : pyval -> res pyval) (x : pyval) :
  ended (g x) -> ended (_public g x).
Proof.
  unfold ended, _public. intros En.
  pose proof (r_no_timeout x) as Hx.
  destruct (_r x) as [str | e |]; cbn [bind]; try discriminate; [| easy].
  destruct (g x) as [v | e |]; cbn [bind]; try discriminate; [| easy].
  pose proof (r_no_timeout v) as Hv.
  destruct (_r v) as [str' | e |]; cbn [bind]; try discriminate; easy.
Qed.

Lemma getitem_ended (v : pyval) (i : nat) : getitem v i <> Timeout.
Proof.
  destruct v as [z | l |]; try discriminate.
  cbn. destruct (nth_error l i); discriminate.
Qed.

Lemma axiom_ended (v : pyval) : ended (wut v) /\ ended (lus v) /\ ended (tis v).
Proof.
  repeat split; apply public_ended; unfold ended.
  - discriminate.
  - destruct v as [z | l |]; cbn [_lus]; try discriminate.
    destruct (is_int (PInt z)); discriminate.
  - unfold _tis. pose proof (getitem_ended v 0). pose proof (getitem_ended v 1).
    destruct (getitem v 0) as [a | e |]; cbn [bind]; try easy.
    destruct (getitem v 1) as [b | e |]; cbn [bind]; easy.
Qed.

(** ** Opcodes 0 and 1 *)

Lemma small_pair_eq (x y : pyval) :
  small <( x, y )> = small x && small y.
Proof. cbn [small forallb]. now rewrite andb_true_r. Qed.

Lemma reduces_raise_long (x : pyval) :
  small x = false -> reduces x (Raise TypeError).
Proof. intros S. now apply reduces_long. Qed.

(** Two arguments that both hold a [long] have the same outcome. *)
Lemma reduces_both_long (x y : pyval) (r : res pyval) :
  small x = false -> small y = false -> reduces x r <-> reduces y r.
Proof. intros Sx Sy. now rewrite !reduces_long. Qed.

(** X1.  Opcode 0 is the slot operator on the subject: for a noun [s] and
    an address [n], both of machine integers, [(s, (0, n))] reduces to
    [v] exactly when [_fas((n, s))] returns [v], and the reduction raises
    nothing; when one of them holds a [long], the log rendering raises
    [TypeError]. *)
Theorem tar_op0_is_slot (s : pyval) (n : Z) (v : pyval)
  (Hs : is_noun s = true) :
  (small <( n, s )> = true ->
   (reduces <( s, <( 0, n )> )> (Ok v) <-> slot n s v) /\
   (forall e, ~ reduces <( s, <( 0, n )> )> (Raise e))) /\
  (small <( n, s )> = false ->
   reduces <( s, <( 0, n )> )> (Raise TypeError)).
Proof.
  split.
  - intros Sm. pose proof Sm as Sm'. apply small_pair in Sm' as [Sn Ss].
    pose proof (noun_word _ Hs Ss) as Vs.
    pose proof (word_int n Sn) as Vn.
    assert (R : forall k, tar (S (S (S k))) <( s, <( 0, n )> )>
                          = _fas (S (S k)) <( n, s )>).
    { intros k. rewrite rule_fas by solve_value. now apply fas_public. }
    split; [split |].
    + intros (f & E & _).
      apply (tar_mono f (S (S (S f)))) in E; [| lia | discriminate].
      rewrite R in E. now exists (S (S f)).
    + intros (f & E). apply (reduces_at (S (S (S f)))). rewrite R.
      apply (fas_mono f); [lia | exact E].
    + intros e (f & E & _).
      apply (tar_mono f (S (S (S f)))) in E; [| lia | discriminate].
      rewrite R in E.
      destruct (fas_noun (S (S f)) n s Hs) as [(w & Ew & _) | Ew];
        congruence.
  - intros Sm. apply reduces_raise_long.
    rewrite small_pair_eq in Sm. rewrite !small_pair_eq.
    change (small (PInt 0)) with true. cbn [andb].
    now rewrite andb_comm.
Qed.

Lemma tar_op0_is_slot_witness :
  reduces <( <( <( 4, 5 )>, <( 6, 7 )> )>, <( 0, 5 )> )> (Ok (PInt 5)) <->
  slot 5 <( <( 4, 5 )>, <( 6, 7 )> )> 5.
Proof.
  destruct (tar_op0_is_slot <( <( 4, 5 )>, <( 6, 7 )> )> 5 5 eq_refl)
    as (H & _).
  destruct (H eq_refl) as (H' & _). exact H'.
Defined.

(** X2.  An address below 1 never gives an outcome: [_fas] keeps halving it
    and the recursion does not end.  The public [fas] and opcode 0 run on
    in the same way on machine integers; on a [long] their log rendering
    raises before the slot is looked up. *)
Theorem fas_below_one_never_ends (n : Z) (t : pyval)
  (Hn : n <= 0) (Ht : is_noun t = true) :
  (forall fuel, _fas fuel <( n, t )> = Timeout) /\
  (forall fuel, fas fuel <( n, t )>
                = if small <( n, t )> then Timeout else Raise TypeError) /\
  (forall v, ~ slot n t v) /\
  (small <( n, t )> = true -> forall r, ~ reduces <( t, <( 0, n )> )> r).
Proof.
  assert (F : forall fuel, _fas fuel <( n, t )> = Timeout)
    by (intros fuel; now apply fas_nonpositive_diverges).
  repeat match goal with |- _ /\ _ => split end.
  - exact F.
  - intros fuel. rewrite fas_public_if by exact Ht. now rewrite F.
  - intros v (fuel & E). rewrite F in E. discriminate.
  - intros Sm. pose proof Sm as Sm'. apply small_pair in Sm' as [Sn St].
    pose proof (noun_word _ Ht St) as Vt.
    pose proof (word_int n Sn) as Vn.
    apply (never_reduces _ 3). intros j. cbn [Nat.add].
    rewrite rule_fas by solve_value.
    rewrite fas_public by assumption. apply F.
Qed.

Lemma fas_below_one_never_ends_witness :
  fas 7 <( 0, <( 1, 2 )> )> = Timeout.
Proof.
  destruct (fas_below_one_never_ends 0 <( 1, 2 )>) as (_ & H & _);
    [lia | reflexivity |].
  exact (H 7%nat).
Defined.

(** X3.  An address that is a cell is no address: [n % 2] raises
    [TypeError], [_fas] catches it and returns the noun it was given, and
    so do the public [fas] and opcode 0 with a cell for address, on
    machine integers. *)
Theorem fas_cell_address_returns_noun (x y t : pyval) (fuel : nat)
  (Hx : is_noun x = true) (Hy : is_noun y = true) (Ht : is_noun t = true) :
  _fas (S fuel) <( <( x, y )>, t )> = Ok t /\
  (small <( <( x, y )>, t )> = true ->
   fas (S fuel) <( <( x, y )>, t )> = Ok t) /\
  (small <( <( x, y )>, t )> = true ->
   reduces <( t, <( 0, <( x, y )> )> )> (Ok t)).
Proof.
  assert (E : forall k, _fas (S k) <( <( x, y )>, t )> = Ok t).
  { intros k. cbn [_fas]. rewrite (aorc_noun t Ht). reflexivity. }
  assert (P : small <( <( x, y )>, t )> = true ->
              word x = true /\ word y = true /\ word t = true /\
              forall k, fas (S k) <( <( x, y )>, t )> = Ok t).
  { intros Sm. apply small_pair in Sm as [Sm St].
    apply small_pair in Sm as [Sx Sy].
    pose proof (noun_word _ Hx Sx) as Vx.
    pose proof (noun_word _ Hy Sy) as Vy.
    pose proof (noun_word _ Ht St) as Vt.
    repeat split; try assumption.
    intros k. apply public_ok_word; [solve_value | apply E | exact Vt]. }
  repeat match goal with |- _ /\ _ => split end.
  - apply E.
  - intros Sm. now apply P.
  - intros Sm. destruct (P Sm) as (Vx & Vy & Vt & Pk).
    apply (reduces_at 3). rewrite rule_fas by solve_value. apply Pk.
Qed.

Lemma fas_cell_address_returns_noun_witness :
  fas 1 <( <( 1, 2 )>, <( 8, 9 )> )> = Ok <( 8, 9 )>.
Proof.
  destruct (fas_cell_address_returns_noun 1 2 <( 8, 9 )> 0) as (_ & H & _);
    [reflexivity | reflexivity | reflexivity | apply H; reflexivity].
Defined.

(** ** The rules for the other opcodes *)

(** A reduction that first reduces [y] and goes on with [K] of its
    result. *)
Lemma reduces_bind (x y : pyval) (K : pyval -> pyval) (m n p j0 : nat) :
  (forall j, (j0 <= j)%nat ->
             tar (m + j) x = a <- tar (n + j) y ;; tar (p + j) (K a)) ->
  (forall v, reduces y (Ok v) ->
             forall r, reduces x r <-> reduces (K v) r) /\
  (forall e, reduces y (Raise e) -> reduces x (Raise e)).
Proof.
  intros H. split.
  - intros v Ry. apply reduces_from in Ry as (f & Hy).
    apply (reduces_shift _ _ m p (Nat.max j0 f)). intros j Hj.
    rewrite H by lia. rewrite Hy by lia. reflexivity.
  - intros e Ry. apply reduces_from in Ry as (f & Hy).
    apply (reduces_const _ _ m (Nat.max j0 f)); [| discriminate].
    intros j Hj. rewrite H by lia. rewrite Hy by lia. reflexivity.
Qed.

(** A reduction that reduces [y] and applies an axiomatic function. *)
Lemma reduces_axiom (x y : pyval) (g : pyval -> res pyval) (m n j0 : nat) :
  (forall j, (j0 <= j)%nat -> tar (m + j) x = a <- tar (n + j) y ;; g a) ->
  (forall v, ended (g v)) ->
  (forall v, reduces y (Ok v) -> reduces x (g v)) /\
  (forall e, reduces y (Raise e) -> reduces x (Raise e)).
Proof.
  intros H G. split.
  - intros v Ry. apply reduces_from in Ry as (f & Hy).
    apply (reduces_const _ _ m (Nat.max j0 f)); [| apply G].
    intros j Hj. rewrite H by lia. rewrite Hy by lia. reflexivity.
  - intros e Ry. apply reduces_from in Ry as (f & Hy).
    apply (reduces_const _ _ m (Nat.max j0 f)); [| discriminate].
    intros j Hj. rewrite H by lia. rewrite Hy by lia. reflexivity.
Qed.

Section Chains.
Variable j : nat.
Variables s b c : pyval.
Hypothesis Vs : word s = true.
Hypothesis Vb : word b = true.
Hypothesis Vc : word c = true.

(** Rule 29 through rule 23: [b] first, then [c] on its result. *)
Lemma h07_chain :
  tar (5 + j) <( s, <( 7, <( b, c )> )> )> =
  v <- tar (3 + j) <( s, b )> ;; tar (3 + j) <( v, c )>.
Proof.
  cbn [Nat.add].
  rewrite rule_h07 by assumption.
  rewrite rule_tar by solve_value.
  rewrite (rule_con j s) by solve_value.
  reflexivity.
Qed.

End Chains.

(** Rule 30 through rules 29, 19 and 23: [c] on the pair of the result of
    [b] and the subject. *)
Lemma h08_chain (j : nat) (s b c : pyval) :
  word s = true -> word b = true -> word c = true ->
  tar (10 + j) <( s, <( 8, <( b, c )> )> )> =
  v <- tar (4 + j) <( s, b )> ;; tar (7 + j) <( <( v, s )>, c )>.
Proof.
  cbn [Nat.add]. intros Vs Vb Vc.
  rewrite rule_h08 by assumption.
  rewrite rule_h07 by solve_value.
  rewrite rule_tar by solve_value.
  rewrite rule_cons by solve_value.
  rewrite ev_self by assumption.
  rewrite rule_h07 by solve_value.
  rewrite rule_tar by solve_value.
  rewrite ev_self by assumption. cbn [bind].
  rewrite rule_con by solve_value. cbn [bind].
  rewrite (rule_con _ s) by solve_value.
  rewrite !bind_assoc. apply bind_ext. intros v Ev. cbn [bind].
  reflexivity.
Qed.

(** Rule 31 through rules 29 and 23: the formula at slot [b] of the core,
    on the core. *)
Lemma h09_chain (j : nat) (s b c : pyval) :
  word s = true -> word b = true -> word c = true ->
  tar (7 + j) <( s, <( 9, <( b, c )> )> )> =
  core <- tar (4 + j) <( s, c )> ;;
  f <- tar (3 + j) <( core, <( 0, b )> )> ;;
  tar (3 + j) <( core, f )>.
Proof.
  cbn [Nat.add]. intros Vs Vb Vc.
  rewrite rule_h09 by assumption.
  rewrite rule_h07 by solve_value.
  rewrite rule_tar by solve_value.
  rewrite (rule_con _ s) by solve_value.
  apply bind_ext. intros core Ec. cbn [bind].
  apply tar_word in Ec.
  rewrite rule_tar by solve_value.
  rewrite ev_self by assumption. cbn [bind].
  reflexivity.
Qed.

(** ** Opcode 1 and rule 19 *)

(** X4.  Opcode 1 quotes: on machine integers [(s, (1, b))] reduces to
    [b], and the outcome is the same for two subjects that are both of
    machine integers, or both not. *)
Theorem tar_op1_quotes (s s' b : pyval)
  (Hs : is_noun s = true) (Hs' : is_noun s' = true)
  (Hb : is_noun b = true) :
  (small <( s, b )> = true -> reduces <( s, <( 1, b )> )> (Ok b)) /\
  (small s = small s' ->
   forall r, reduces <( s, <( 1, b )> )> r <-> reduces <( s', <( 1, b )> )> r).
Proof.
  assert (Q : forall x, is_noun x = true -> small <( x, b )> = true ->
                        forall k, tar (S (S (S k))) <( x, <( 1, b )> )> = Ok b).
  { intros x Hx Sm k. apply small_pair in Sm as [Sx Sb].
    apply rule_con; now apply noun_word. }
  assert (L : forall x, small <( x, b )> = false ->
                        small <( x, <( 1, b )> )> = false).
  { intros x Sm. rewrite small_pair_eq in Sm. rewrite !small_pair_eq.
    change (small (PInt 1)) with true. exact Sm. }
  split.
  - intros Sm. apply (reduces_at 3). now apply Q.
  - intros E r. destruct (small <( s, b )>) eqn:Sm.
    + assert (Sm' : small <( s', b )> = true)
        by (rewrite small_pair_eq in *; now rewrite <- E).
      apply (reduces_shift _ _ 3 3 0). intros j _. cbn [Nat.add].
      now rewrite !Q.
    + assert (Sm' : small <( s', b )> = false)
        by (rewrite small_pair_eq in *; now rewrite <- E).
      apply reduces_both_long; now apply L.
Qed.

Lemma tar_op1_quotes_witness :
  reduces <( 42, <( 1, <( 153, 218 )> )> )> (Ok <( 153, 218 )>).
Proof.
  destruct (tar_op1_quotes 42 7 <( 153, 218 )>) as (H & _);
    [reflexivity | reflexivity | reflexivity | apply H; reflexivity].
Defined.

(** X5.  Rule 19: a formula whose head [(x, y)] is a cell reduces to a
    pair, the results of the head and of the tail [c] against the same
    subject; it returns exactly when both return. *)
Theorem tar_cons_pairs (s x y c r : pyval)
  (Hs : is_noun s = true) (Hx : is_noun x = true) (Hy : is_noun y = true)
  (Hc : is_noun c = true) :
  reduces <( s, <( <( x, y )>, c )> )> (Ok r) <->
  exists v w,
    r = <( v, w )> /\
    reduces <( s, <( x, y )> )> (Ok v) /\
    reduces <( s, c )> (Ok w).
Proof.
  split.
  - intros R. pose proof (reduces_small _ _ R) as Sm.
    apply small_pair in Sm as [Ss Sm]. apply small_pair in Sm as [Sm Sc].
    apply small_pair in Sm as [Sx Sy].
    pose proof (noun_word _ Hs Ss) as Vs. pose proof (noun_word _ Hx Sx) as Vx.
    pose proof (noun_word _ Hy Sy) as Vy. pose proof (noun_word _ Hc Sc) as Vc.
    destruct R as (f & E & En).
    apply (tar_mono f (S (S (S f)))) in E; [| lia | exact En].
    rewrite rule_cons in E by assumption.
    apply bind_Ok in E as (v & Ev & E). apply bind_Ok in E as (w & Ew & E).
    injection E as <-. exists v, w.
    repeat split; eapply reduces_at; eassumption.
  - intros (v & w & -> & Rv & Rw).
    pose proof (reduces_small _ _ Rv) as Sm.
    apply small_pair in Sm as [Ss Sm]. apply small_pair in Sm as [Sx Sy].
    pose proof (reduces_small _ _ Rw) as Sm. apply small_pair in Sm as [_ Sc].
    pose proof (noun_word _ Hs Ss) as Vs. pose proof (noun_word _ Hx Sx) as Vx.
    pose proof (noun_word _ Hy Sy) as Vy. pose proof (noun_word _ Hc Sc) as Vc.
    apply reduces_from in Rv as (f1 & Hv).
    apply reduces_from in Rw as (f2 & Hw).
    apply (reduces_at (S (S (S (Nat.max f1 f2))))).
    rewrite rule_cons by assumption.
    rewrite Hv, Hw by lia. reflexivity.
Qed.

Lemma tar_cons_pairs_witness :
  reduces <( 42, <( <( 4, <( 0, 1 )> )>, <( 3, <( 0, 1 )> )> )> )>
    (Ok <( 43, 1 )>) <->
  exists v w,
    <( 43, 1 )> = <( v, w )> /\
    reduces <( 42, <( 4, <( 0, 1 )> )> )> (Ok v) /\
    reduces <( 42, <( 3, <( 0, 1 )> )> )> (Ok w).
Proof.
  apply (tar_cons_pairs 42 4 <( 0, 1 )> <( 3, <( 0, 1 )> )> <( 43, 1 )>);
    reflexivity.
Defined.

(** ** Opcodes 2 to 5 *)

(** X6.  Opcode 2: when [b] reduces to [s'] and [c] to [f'] against the
    subject, [(s, (2, b, c))] reduces exactly as [(s', f')] does. *)
Theorem tar_op2_evaluates (s b c s' f' : pyval)
  (Hs : is_noun s = true) (Hb : is_noun b = true) (Hc : is_noun c = true)
  (Rb : reduces <( s, b )> (Ok s')) (Rc : reduces <( s, c )> (Ok f')) :
  forall r, reduces <( s, <( 2, <( b, c )> )> )> r <-> reduces <( s', f' )> r.
Proof.
  pose proof (reduces_small _ _ Rb) as Sm. apply small_pair in Sm as [Ss Sb].
  pose proof (reduces_small _ _ Rc) as Sm. apply small_pair in Sm as [_ Sc].
  pose proof (noun_word _ Hs Ss) as Vs. pose proof (noun_word _ Hb Sb) as Vb.
  pose proof (noun_word _ Hc Sc) as Vc.
  apply reduces_from in Rb as (f1 & H1).
  apply reduces_from in Rc as (f2 & H2).
  apply (reduces_shift _ _ 3 2 (Nat.max f1 f2)). intros j Hj.
  cbn [Nat.add]. rewrite rule_tar by assumption.
  rewrite H1, H2 by lia. reflexivity.
Qed.

Lemma tar_op2_evaluates_witness :
  reduces <( 77, <( 2, <( <( 1, 42 )>, <( 1, <( 1, <( 153, 218 )> )> )> )> )> )>
    (Ok <( 153, 218 )>)
  <-> reduces <( 42, <( 1, <( 153, 218 )> )> )> (Ok <( 153, 218 )>).
Proof.
  apply (tar_op2_evaluates 77 <( 1, 42 )> <( 1, <( 1, <( 153, 218 )> )> )>);
    try reflexivity.
  - apply (reduces_at 3). vm_compute. reflexivity.
  - apply (reduces_at 3). vm_compute. reflexivity.
Defined.

(** X7.  Opcodes 3 and 4 apply [wut] and [lus] to what [b] reduces to: on
    an atom [z] opcode 3 gives 1 and opcode 4 gives [z + 1], or raises
    [TypeError] at [sys.maxint], whose successor is a [long] that the log
    cannot render; on a cell opcode 3 gives 0 and opcode 4 gives the
    cell. *)
Theorem tar_op3_op4 (s b v : pyval)
  (Hs : is_noun s = true) (Hb : is_noun b = true)
  (Rb : reduces <( s, b )> (Ok v)) :
  reduces <( s, <( 3, b )> )> (Ok (PInt (if is_int v then 1 else 0))) /\
  reduces <( s, <( 4, b )> )>
    (match v with
     | PInt z => if z <? sys_maxint then Ok (PInt (z + 1))
                 else Raise TypeError
     | _ => Ok v
     end).
Proof.
  pose proof (reduces_small _ _ Rb) as Sm. apply small_pair in Sm as [Ss Sb].
  pose proof (noun_word _ Hs Ss) as Vs. pose proof (noun_word _ Hb Sb) as Vb.
  assert (Vv : word v = true).
  { destruct Rb as (f & E & _). now apply tar_word in E. }
  split.
  - replace (Ok (PInt (if is_int v then 1 else 0))) with (wut v).
    + apply (reduces_axiom _ <( s, b )> wut 3 2 0); [| apply axiom_ended | exact Rb].
      intros j _. cbn [Nat.add]. now apply rule_wut.
    + apply public_ok_word; [exact Vv | reflexivity |].
      now destruct (is_int v).
  - match goal with |- reduces _ ?r => replace r with (lus v) end.
    + apply (reduces_axiom _ <( s, b )> lus 3 2 0); [| apply axiom_ended | exact Rb].
      intros j _. cbn [Nat.add]. now apply rule_lus.
    + destruct v as [z | l |].
      * pose proof (word_small _ Vv) as Iz. cbn [small] in Iz.
        pose proof Iz as Rz. apply is_int_range in Rz.
        destruct (z <? sys_maxint) eqn:Hz.
        -- apply Z.ltb_lt in Hz. rewrite Z.add_comm. apply lus_int; [exact Iz |].
           apply is_int_range. unfold sys_maxint in *. lia.
        -- apply Z.ltb_ge in Hz. unfold lus, _public.
           destruct (word_renders _ Vv) as (str & ->). cbn [bind _lus].
           rewrite Iz. cbn [bind].
           rewrite r_long; [reflexivity |]. cbn [small].
           destruct (is_int (PInt (1 + z))) eqn:I1; [| reflexivity].
           apply is_int_range in I1. unfold sys_maxint in *. lia.
      * apply public_ok_word; [exact Vv | reflexivity | exact Vv].
      * discriminate.
Qed.

Lemma tar_op3_op4_witness :
  reduces <( 57, <( 4, <( 0, 1 )> )> )> (Ok (PInt 58)).
Proof.
  destruct (tar_op3_op4 57 <( 0, 1 )> 57) as (_ & H);
    [reflexivity | reflexivity | | exact H].
  apply (reduces_at 3). vm_compute. reflexivity.
Defined.

(** X8.  Opcode 5 applies [tis] to what [b] reduces to: on a cell it gives
    0 when the two halves are the same noun and 1 when they differ; on an
    atom [tis] takes [noun[0]] of an integer and the reduction raises
    [TypeError]. *)
Theorem tar_op5_compares (s b v : pyval)
  (Hs : is_noun s = true) (Hb : is_noun b = true)
  (Rb : reduces <( s, b )> (Ok v)) :
  (forall x y, v = <( x, y )> -> x = y ->
               reduces <( s, <( 5, b )> )> (Ok (PInt 0))) /\
  (forall x y, v = <( x, y )> -> x <> y ->
               reduces <( s, <( 5, b )> )> (Ok (PInt 1))) /\
  (forall z, v = PInt z -> reduces <( s, <( 5, b )> )> (Raise TypeError)).
Proof.
  pose proof (reduces_small _ _ Rb) as Sm. apply small_pair in Sm as [Ss Sb].
  pose proof (noun_word _ Hs Ss) as Vs. pose proof (noun_word _ Hb Sb) as Vb.
  assert (Vv : word v = true).
  { destruct Rb as (f & E & _). now apply tar_word in E. }
  assert (R : reduces <( s, <( 5, b )> )> (tis v)).
  { apply (reduces_axiom _ <( s, b )> tis 3 2 0); [| apply axiom_ended | exact Rb].
    intros j _. cbn [Nat.add]. now apply rule_tis. }
  repeat match goal with |- _ /\ _ => split end.
  - intros x y -> <-.
    replace (Ok (PInt 0)) with (tis <( x, x )>); [exact R |].
    apply public_ok_word; [exact Vv | | reflexivity].
    rewrite tis_pair, py_eq_refl. reflexivity.
  - intros x y -> Hxy.
    replace (Ok (PInt 1)) with (tis <( x, y )>); [exact R |].
    apply public_ok_word; [exact Vv | | reflexivity].
    apply py_eq_false in Hxy. now rewrite tis_pair, Hxy.
  - intros z ->.
    replace (Raise TypeError) with (tis (PInt z)); [exact R |].
    unfold tis, _public. destruct (word_renders _ Vv) as (str & ->).
    reflexivity.
Qed.

Lemma tar_op5_compares_witness :
  reduces <( 57, <( 5, <( 0, 1 )> )> )> (Raise TypeError).
Proof.
  destruct (tar_op5_compares 57 <( 0, 1 )> 57) as (_ & _ & H);
    [reflexivity | reflexivity | | exact (H 57 eq_refl)].
  apply (reduces_at 3). vm_compute. reflexivity.
Defined.

(** ** Opcodes 7 to 10 *)

(** X9.  Opcode 7 composes: when [b] reduces to [v] against the subject,
    [(s, (7, b, c))] reduces exactly as [(v, c)] does. *)
Theorem tar_op7_composes (s b c v : pyval)
  (Hs : is_noun s = true) (Hb : is_noun b = true) (Hc : is_noun c = true)
  (Rb : reduces <( s, b )> (Ok v)) :
  forall r, reduces <( s, <( 7, <( b, c )> )> )> r <-> reduces <( v, c )> r.
Proof.
  pose proof (reduces_small _ _ Rb) as Sm. apply small_pair in Sm as [Ss Sb].
  pose proof (noun_word _ Hs Ss) as Vs. pose proof (noun_word _ Hb Sb) as Vb.
  destruct (small c) eqn:Sc.
  - pose proof (noun_word _ Hc Sc) as Vc.
    apply (reduces_bind _ <( s, b )> (fun a => <( a, c )>) 5 3 3 0);
      [| exact Rb].
    intros j _. now apply h07_chain.
  - intros r. apply reduces_both_long; rewrite !small_pair_eq, Sc;
      now rewrite ?andb_false_r.
Qed.

Lemma tar_op7_composes_witness :
  reduces <( 42, <( 7, <( <( 4, <( 0, 1 )> )>, <( 4, <( 0, 1 )> )> )> )> )>
    (Ok (PInt 44))
  <-> reduces <( 43, <( 4, <( 0, 1 )> )> )> (Ok (PInt 44)).
Proof.
  apply (tar_op7_composes 42 <( 4, <( 0, 1 )> )> <( 4, <( 0, 1 )> )> 43);
    try reflexivity.
  apply (reduces_at 6). vm_compute. reflexivity.
Defined.

(** X10.  Opcode 8 pushes: when [b] reduces to [v] against the subject,
    [(s, (8, b, c))] reduces exactly as [c] does against the pair
    [(v, s)]. *)
Theorem tar_op8_pushes (s b c v : pyval)
  (Hs : is_noun s = true) (Hb : is_noun b = true) (Hc : is_noun c = true)
  (Rb : reduces <( s, b )> (Ok v)) :
  forall r, reduces <( s, <( 8, <( b, c )> )> )> r <->
            reduces <( <( v, s )>, c )> r.
Proof.
  pose proof (reduces_small _ _ Rb) as Sm. apply small_pair in Sm as [Ss Sb].
  pose proof (noun_word _ Hs Ss) as Vs. pose proof (noun_word _ Hb Sb) as Vb.
  destruct (small c) eqn:Sc.
  - pose proof (noun_word _ Hc Sc) as Vc.
    apply (reduces_bind _ <( s, b )> (fun a => <( <( a, s )>, c )>) 10 4 7 0);
      [| exact Rb].
    intros j _. now apply h08_chain.
  - intros r. apply reduces_both_long; rewrite !small_pair_eq, Sc;
      now rewrite ?andb_false_r.
Qed.

Lemma tar_op8_pushes_witness :
  reduces <( 42, <( 8, <( <( 4, <( 0, 1 )> )>, <( 0, 1 )> )> )> )>
    (Ok <( 43, 42 )>)
  <-> reduces <( <( 43, 42 )>, <( 0, 1 )> )> (Ok <( 43, 42 )>).
Proof.
  apply (tar_op8_pushes 42 <( 4, <( 0, 1 )> )> <( 0, 1 )> 43);
    try reflexivity.
  apply (reduces_at 6). vm_compute. reflexivity.
Defined.

(** X11.  Opcode 9 invokes a core: when [c] reduces to [core] against the
    subject and the slot [b] of the core is [f], [(s, (9, b, c))] reduces
    exactly as [(core, f)] does. *)
Theorem tar_op9_invokes (s b c core f : pyval)
  (Hs : is_noun s = true) (Hb : is_noun b = true) (Hc : is_noun c = true)
  (Rc : reduces <( s, c )> (Ok core))
  (Rf : reduces <( core, <( 0, b )> )> (Ok f)) :
  forall r, reduces <( s, <( 9, <( b, c )> )> )> r <->
            reduces <( core, f )> r.
Proof.
  pose proof (reduces_small _ _ Rc) as Sm. apply small_pair in Sm as [Ss Sc].
  pose proof (reduces_small _ _ Rf) as Sm. apply small_pair in Sm as [_ Sm].
  apply small_pair in Sm as [_ Sb].
  pose proof (noun_word _ Hs Ss) as Vs. pose proof (noun_word _ Hb Sb) as Vb.
  pose proof (noun_word _ Hc Sc) as Vc.
  apply reduces_from in Rc as (f1 & H1).
  apply reduces_from in Rf as (f2 & H2).
  apply (reduces_shift _ _ 7 3 (Nat.max f1 f2)). intros j Hj.
  rewrite h09_chain by assumption.
  rewrite H1 by lia. cbn [bind]. rewrite H2 by lia. reflexivity.
Qed.

Lemma tar_op9_invokes_witness :
  reduces <( <( <( 4, <( 0, 3 )> )>, 41 )>, <( 9, <( 2, <( 0, 1 )> )> )> )>
    (Ok (PInt 42))
  <-> reduces <( <( <( 4, <( 0, 3 )> )>, 41 )>, <( 4, <( 0, 3 )> )> )>
        (Ok (PInt 42)).
Proof.
  apply (tar_op9_invokes <( <( 4, <( 0, 3 )> )>, 41 )> 2 <( 0, 1 )>
           <( <( 4, <( 0, 3 )> )>, 41 )> <( 4, <( 0, 3 )> )>);
    try reflexivity.
  - apply (reduces_at 6). vm_compute. reflexivity.
  - apply (reduces_at 6). vm_compute. reflexivity.
Defined.

(** X12.  Opcode 10 with an atom hint that is an [int] drops the hint
    unevaluated: [(s, (10, h, c))] reduces exactly as [(s, c)] does.  A
    hint beyond [sys.maxint] is a [long], which the log cannot render:
    the reduction raises [TypeError]. *)
Theorem tar_op10_atom_hint (s c : pyval) (h : Z)
  (Hs : is_noun s = true) (Hc : is_noun c = true) :
  (is_int (PInt h) = true ->
   forall r, reduces <( s, <( 10, <( PInt h, c )> )> )> r <->
             reduces <( s, c )> r) /\
  (is_int (PInt h) = false ->
   reduces <( s, <( 10, <( PInt h, c )> )> )> (Raise TypeError)).
Proof.
  split.
  - intros Ih r. destruct (small <( s, c )>) eqn:Sm.
    + apply small_pair in Sm as [Ss Sc].
      pose proof (noun_word _ Hs Ss) as Vs.
      pose proof (noun_word _ Hc Sc) as Vc.
      revert r. apply (reduces_shift _ _ 3 2 0). intros j _. cbn [Nat.add].
      now apply rule_h10_atom.
    + apply reduces_both_long; [| exact Sm].
      rewrite small_pair_eq in Sm. rewrite !small_pair_eq.
      change (small (PInt 10)) with true. change (small (PInt h))
        with (is_int (PInt h)). rewrite Ih. exact Sm.
  - intros Ih. apply reduces_raise_long. rewrite !small_pair_eq.
    change (small (PInt h)) with (is_int (PInt h)). rewrite Ih.
    now rewrite !andb_false_r.
Qed.

Lemma tar_op10_atom_hint_witness :
  reduces <( <( 132, 19 )>, <( 10, <( 37, <( 4, <( 0, 3 )> )> )> )> )>
    (Ok (PInt 20))
  <-> reduces <( <( 132, 19 )>, <( 4, <( 0, 3 )> )> )> (Ok (PInt 20)).
Proof.
  destruct (tar_op10_atom_hint <( 132, 19 )> <( 4, <( 0, 3 )> )> 37)
    as (H & _); [reflexivity | reflexivity |].
  apply H. reflexivity.
Defined.

(** ** The constructor: failures and fixed points *)

Lemma lacks_args_cons (a b : pyval) (rest : list pyval) :
  lacks_args (a :: b :: rest) = has_empty a || lacks_args (b :: rest).
Proof. reflexivity. Qed.

Lemma t_outcome (lst : list pyval) :
  Forall aorc_outcome lst ->
  if lacks_args lst then _t lst = Raise IndexError
  else exists x, _t lst = Ok x.
Proof.
  induction 1 as [| a rest Ha Hrest IH]; [reflexivity |].
  unfold aorc_outcome in Ha.
  destruct rest as [| b rest].
  - rewrite t_one. cbn [lacks_args existsb]. rewrite orb_false_r.
    destruct (has_empty a).
    + now rewrite Ha.
    + destruct Ha as (x & ->). now eexists.
  - rewrite lacks_args_cons.
    destruct rest as [| c rest].
    + inversion Hrest as [| ? ? Hb _]; subst. unfold aorc_outcome in Hb.
      rewrite t_two. cbn [lacks_args existsb]. rewrite orb_false_r.
      destruct (has_empty a).
      * now rewrite Ha.
      * destruct Ha as (x & ->). cbn [bind orb].
        destruct (has_empty b).
        -- now rewrite Hb.
        -- destruct Hb as (y & ->). now eexists.
    + rewrite t_more.
      destruct (has_empty a).
      * now rewrite Ha.
      * destruct Ha as (x & ->). cbn [bind orb].
        destruct (lacks_args (b :: c :: rest)).
        -- now rewrite IH.
        -- destruct IH as (y & ->). now eexists.
Qed.

Lemma aorc_outcome_all (a : pyval) : aorc_outcome a.
Proof.
  induction a as [z | | l IH] using pyval_ind'.
  - now exists (PInt z).
  - now exists PNone.
  - unfold aorc_outcome. rewrite aorc_tuple.
    change (has_empty (PTuple l)) with (lacks_args l).
    now apply t_outcome.
Qed.

(** X14.  [_aorc] and [_t] raise [IndexError] exactly when there is nothing
    to build from -- [_t] got no argument, or an empty tuple sits somewhere
    inside -- and return in every other case: they raise nothing else. *)
Theorem t_fails_on_empty_only (a : pyval) (lst : list pyval) :
  (_aorc a = Raise IndexError <-> has_empty a = true) /\
  ((exists x, _aorc a = Ok x) <-> has_empty a = false) /\
  (_t lst = Raise IndexError <-> lacks_args lst = true) /\
  ((exists x, _t lst = Ok x) <-> lacks_args lst = false).
Proof.
  pose proof (aorc_outcome_all a) as Ha. unfold aorc_outcome in Ha.
  assert (Hl : if lacks_args lst then _t lst = Raise IndexError
               else exists x, _t lst = Ok x).
  { apply t_outcome. apply Forall_forall. intros b _.
    apply aorc_outcome_all. }
  repeat match goal with |- _ /\ _ => split end.
  - destruct (has_empty a); [now split |].
    destruct Ha as (x & ->). split; discriminate.
  - destruct (has_empty a).
    + rewrite Ha. split; [intros (x & E) |]; discriminate.
    + split; [reflexivity | intros _; exact Ha].
  - destruct (lacks_args lst); [now split |].
    destruct Hl as (x & ->). split; discriminate.
  - destruct (lacks_args lst).
    + rewrite Hl. split; [intros (x & E) |]; discriminate.
    + split; [reflexivity | intros _; exact Hl].
Qed.

(** X15.  What the constructor returns is a fixed point of the
    constructor: it is built of pairs only, constructing it again returns
    it unchanged, and it holds [None] exactly when the argument did. *)
Theorem aorc_idempotent (a x : pyval) (lst : list pyval) (v : pyval)
  (Ha : _aorc a = Ok x) (Hv : _t lst = Ok v) :
  _aorc x = Ok x /\ binary x = true /\ none_free x = none_free a /\
  _aorc v = Ok v /\ binary v = true /\
  none_free v = forallb none_free lst /\
  (exists h t, v = <( h, t )> /\ _t [h; t] = Ok v).
Proof.
  destruct (aorc_post_all a x Ha) as (Bx & Nx).
  destruct (t_pair lst v Hv) as (h & t & -> & Bh & Bt & Nv).
  assert (Bv : binary <( h, t )> = true) by (simpl; now rewrite Bh, Bt).
  repeat match goal with |- _ /\ _ => split end;
    auto using aorc_binary.
  exists h, t. split; [reflexivity | now apply (t_idem lst)].
Qed.

Lemma aorc_idempotent_witness :
  _aorc <( 1, <( 2, <( 3, 4 )> )> )> = Ok <( 1, <( 2, <( 3, 4 )> )> )>.
Proof.
  destruct (aorc_idempotent <( 1, 2, 3, 4 )> <( 1, <( 2, <( 3, 4 )> )> )>
              [PInt 5; PInt 6; PInt 7] <( 5, <( 6, 7 )> )> eq_refl eq_refl)
    as (H & _).
  exact H.
Defined.

(** ** Nouns in, nouns out *)

Lemma noun_iff (v : pyval) :
  is_noun v = true <-> binary v = true /\ natural v = true.
Proof.
  induction v as [z | | l IH] using pyval_ind'.
  - simpl. tauto.
  - simpl. split; [discriminate | intros [_ H]; discriminate].
  - destruct l as [| h [| t [| ? ?]]];
      try (simpl; split; [discriminate | intros [H _]; discriminate]).
    inversion IH as [| ? ? IHh IH']; subst.
    inversion IH' as [| ? ? IHt _]; subst.
    cbn [is_noun binary natural forallb].
    rewrite andb_true_r, !andb_true_iff, IHh, IHt. tauto.
Qed.

Lemma natural_none_free (v : pyval) :
  natural v = true -> none_free v = true.
Proof.
  induction v as [z | | l IH] using pyval_ind'; intros H;
    [reflexivity | discriminate |].
  cbn [natural none_free] in *. rewrite forallb_forall in *.
  rewrite Forall_forall in IH. auto.
Qed.

Lemma natural_pair (x y : pyval) :
  natural <( x, y )> = true <-> natural x = true /\ natural y = true.
Proof. simpl. rewrite andb_true_r. apply andb_true_iff. Qed.

Lemma t_natural (lst : list pyval) :
  Forall (fun a => forall x, _aorc a = Ok x -> natural x = natural a) lst ->
  forall v, _t lst = Ok v -> natural v = forallb natural lst.
Proof.
  induction 1 as [| a rest Ha Hrest IH]; intros v E; [discriminate |].
  destruct rest as [| b rest].
  - rewrite t_one in E. apply bind_Ok in E as (x & Ex & E).
    injection E as <-. simpl. now rewrite (Ha x Ex).
  - destruct rest as [| c rest].
    + rewrite t_two in E. apply bind_Ok in E as (x & Ex & E).
      apply bind_Ok in E as (y & Ey & E). injection E as <-.
      inversion Hrest as [| ? ? Hb _]; subst.
      simpl. now rewrite (Ha x Ex), (Hb y Ey).
    + rewrite t_more in E. apply bind_Ok in E as (x & Ex & E).
      apply bind_Ok in E as (y & Ey & E). injection E as <-.
      change (natural <( x, y )>) with (natural x && (natural y && true)).
      rewrite (Ha x Ex), (IH y Ey), andb_true_r. reflexivity.
Qed.

Lemma aorc_natural (a : pyval) :
  forall x, _aorc a = Ok x -> natural x = natural a.
Proof.
  induction a as [z | | l IH] using pyval_ind'; intros x E.
  - now injection E as <-.
  - now injection E as <-.
  - rewrite aorc_tuple in E. now apply t_natural.
Qed.

Lemma fas_natural (fuel : nat) :
  forall (n t v : pyval),
    natural t = true -> _fas fuel <( n, t )> = Ok v -> natural v = true.
Proof.
  induction fuel as [| fuel IH]; intros n t v Nt E; [discriminate |].
  cbn [_fas] in E. apply bind_Ok in E as (t' & Et & E).
  assert (Nt' : natural t' = true) by now rewrite (aorc_natural t t' Et).
  assert (G : forall (i : nat) (w : pyval),
             getitem t' i = Ok w -> natural w = true).
  { intros i w Ew. destruct t' as [z | l |]; try discriminate.
    cbn in Ew. destruct (nth_error l i) eqn:En; [| discriminate].
    injection Ew as <-. apply nth_error_In in En.
    cbn [natural] in Nt'. rewrite forallb_forall in Nt'. auto. }
  assert (R : forall (q : pyval) (k : Z) (w : pyval),
             (inner <- _fas fuel <( q, t' )> ;; _fas fuel <( PInt k, inner )>)
             = Ok w -> natural w = true).
  { intros q k w Ew. apply bind_Ok in Ew as (m & Em & Ew).
    apply IH in Em; [| exact Nt']. now apply IH in Ew. }
  assert (T : forall (m : res pyval),
             (forall w, m = Ok w -> natural w = true) ->
             try_TypeError m (Ok t') = Ok v -> natural v = true).
  { intros m Hm Em. destruct m as [w | [] |]; cbn in Em; try discriminate;
      try (injection Em as <-; assumption).
    now apply Hm. }
  revert E. apply T. intros w.
  destruct (py_eq n 1); [intros Ew; now injection Ew as <- |].
  destruct (py_eq n 2); [apply G |].
  destruct (py_eq n 3); [apply G |].
  destruct n as [z | l |]; cbn [py_mod bind]; try discriminate.
  destruct (py_eq (PInt (z mod 2)) 0); cbn [py_floordiv py_sub bind];
    [apply R |].
  destruct (py_eq (PInt (z mod 2)) 1); cbn [py_floordiv py_sub bind];
    [apply R |].
  intros Ew; now injection Ew as <-.
Qed.

Lemma fas_keeps_natural (fuel : nat) : keeps_natural (_fas fuel).
Proof.
  intros x v Nx E.
  destruct x as [z | l |]; try (destruct fuel; discriminate).
  destruct l as [| n [| t [| ? ?]]]; try (destruct fuel; discriminate).
  apply natural_pair in Nx as [_ Nt]. revert E. now apply fas_natural.
Qed.

Lemma public_keeps_natural (g : pyval -> res pyval) :
  keeps_natural g -> keeps_natural (_public g).
Proof.
  intros H x v Nx E. apply public_Ok_inv in E as (E & _). eauto.
Qed.

Lemma axioms_keep_natural :
  keeps_natural wut /\ keeps_natural lus /\ keeps_natural tis.
Proof.
  repeat split; apply public_keeps_natural; intros x v Nx E.
  - injection E as <-. now destruct (is_int x).
  - destruct x as [z | l |];
      [| injection E as <-; exact Nx | injection E as <-; exact Nx].
    cbn [_lus] in E. destruct (is_int (PInt z)).
    + replace v with (PInt (1 + z)) by congruence.
      cbn [natural] in *. apply Z.leb_le in Nx. apply Z.leb_le. lia.
    + replace v with (PInt z) by congruence. exact Nx.
  - unfold _tis in E. apply bind_Ok in E as (a & _ & E).
    apply bind_Ok in E as (b & _ & E). injection E as <-.
    now destruct (py_eq a b).
Qed.

Ltac natural_arg :=
  simpl;
  repeat match goal with
         | H : natural ?v = true |- context [natural ?v] => rewrite H
         end;
  reflexivity.

Lemma dispatch_natural (F1 F2 F3 : pyval -> res pyval) :
  keeps_natural F1 -> keeps_natural F2 -> keeps_natural F3 ->
  forall s op obj v,
    natural s = true -> natural op = true -> natural obj = true ->
    tar_dispatch F1 F2 F3 s op obj = Ok v ->
    natural v = true \/ v = PNone.
Proof.
  intros H1 H2 H3 s op obj v Ns Nop Nobj E. unfold tar_dispatch in E.
  destruct axioms_keep_natural as (W & L & Ti).
  repeat match type of E with
         | bind (?F ?x) _ = Ok _ =>
             let a := fresh "a" in
             let Ea := fresh "Ea" in
             let Na := fresh "Na" in
             apply bind_Ok in E as (a & Ea & E);
             match goal with
             | HF : keeps_natural F |- _ =>
                 assert (Na : natural a = true)
                   by (apply (HF x); [natural_arg | exact Ea])
             | _ => idtac
             end
         | (if ?c then _ else _) = Ok _ => destruct c
         end;
    try (injection E as <-);
    try (now right);
    left;
    try assumption;
    try natural_arg;
    match type of E with
    | ?F ?x = Ok _ =>
        match goal with
        | HF : keeps_natural F |- _ => apply (HF x); [natural_arg | exact E]
        end
    end.
Qed.

Lemma _tar_natural (fuel : nat) :
  forall x v, natural x = true -> _tar fuel x = Ok v ->
              natural v = true \/ v = PNone.
Proof.
  induction fuel as [| fuel IH]; intros x v Nx E; [discriminate |].
  cbn [_tar] in E. unfold tar_body in E.
  apply bind_Ok in E as (lst & El & E).
  apply bind_Ok in E as (noun & En & E).
  assert (Nn : natural noun = true).
  { destruct x as [z | l |]; try discriminate. injection El as <-.
    rewrite (t_natural l) with (v := noun); [exact Nx | | exact En].
    apply Forall_forall. intros a _. apply aorc_natural. }
  pose proof (fas_keeps_natural fuel) as HF.
  apply bind_Ok in E as (subj & Es & E).
  apply bind_Ok in E as (op & Eo & E).
  apply bind_Ok in E as (obj & Eb & E).
  apply HF in Es; [| natural_arg].
  apply HF in Eo; [| natural_arg].
  apply HF in Eb; [| natural_arg].
  revert E. apply dispatch_natural; auto.
  - now apply public_keeps_natural.
  - intros y w Ny Ey. apply public_Ok_inv in Ey as (Ey & Nw).
    destruct (IH y w Ny Ey) as [H | ->]; [exact H | discriminate].
Qed.

Lemma tar_natural (fuel : nat) (x v : pyval) :
  natural x = true -> tar fuel x = Ok v -> natural v = true.
Proof.
  intros Nx E. apply public_Ok_inv in E as (E & Nv).
  destruct (_tar_natural fuel x v Nx E) as [H | ->];
    [exact H | discriminate].
Qed.

(** X16.  What [tar] returns is a noun-shaped value whatever it is given:
    built of pairs only, with no [None] inside.  Given a noun, or the flat
    notation of one (naturals and tuples of them), what it returns is a
    noun. *)
Theorem tar_returns_nouns (fuel : nat) (x v : pyval)
  (Hx : natural x = true) (Hv : tar fuel x = Ok v) :
  is_noun v = true /\
  (forall y w k, tar k y = Ok w -> binary w = true /\ none_free w = true).
Proof.
  split.
  - apply noun_iff. split.
    + apply tar_value in Hv. now apply value_binary.
    + now apply (tar_natural fuel x).
  - intros y w k E. apply tar_value in E. now apply value_split.
Qed.

Lemma tar_returns_nouns_witness :
  is_noun <( 43, 42 )> = true.
Proof.
  destruct (tar_returns_nouns 18
              <( 42, <( 8, <( 4, 0, 1 )>, <( 0, 1 )> )> )> <( 43, 42 )>)
    as (H & _); [reflexivity | vm_compute; reflexivity | exact H].
Defined.

(** ** Crashes are never caught *)

Lemma binary_no_empty (v : pyval) : binary v = true -> has_empty v = false.
Proof.
  induction v as [z | | l IH] using pyval_ind'; intros B;
    [reflexivity | reflexivity |].
  destruct l as [| h [| t [| ? ?]]]; try discriminate.
  apply binary_pair in B as [Bh Bt].
  inversion IH as [| ? ? IHh IH']; subst.
  inversion IH' as [| ? ? IHt _]; subst.
  cbn [has_empty existsb]. now rewrite (IHh Bh), (IHt Bt).
Qed.

(** On a value built of pairs [_fas] raises nothing: it catches the one
    exception that its body can raise. *)
Lemma fas_no_raise (fuel : nat) :
  forall (n t : pyval) (e : exn),
    binary t = true -> _fas fuel <( n, t )> <> Raise e.
Proof.
  induction fuel as [| fuel IH]; intros n t e Bt; [discriminate |].
  cbn [_fas]. rewrite (aorc_binary t Bt). cbn [bind].
  assert (T : forall m : res pyval,
             (forall e', m = Raise e' -> e' = TypeError) ->
             try_TypeError m (Ok t) <> Raise e).
  { intros m Hm. destruct m as [w | e' |] eqn:Em; cbn; try discriminate.
    now rewrite (Hm e' eq_refl). }
  assert (G : forall i e', (i < 2)%nat -> getitem t i = Raise e' ->
                           e' = TypeError).
  { intros i e' Hi E. destruct t as [z | l |]; try (now injection E as <-).
    destruct l as [| h [| tl [| ? ?]]]; try discriminate.
    destruct i as [| [| i]]; try discriminate. lia. }
  assert (R : forall (q : pyval) (k : Z) e',
             (inner <- _fas fuel <( q, t )> ;; _fas fuel <( PInt k, inner )>)
             = Raise e' -> e' = TypeError).
  { intros q k e' E.
    destruct (_fas fuel <( q, t )>) as [m | e'' |] eqn:Em; cbn [bind] in E.
    - apply fas_binary in Em. now apply IH in E.
    - now apply IH in Em.
    - discriminate. }
  apply T. intros e'.
  destruct (py_eq n 1); [discriminate |].
  destruct (py_eq n 2); [apply G; lia |].
  destruct (py_eq n 3); [apply G; lia |].
  destruct n as [z | l |]; cbn [py_mod bind];
    try (intros E; now injection E as <-).
  destruct (py_eq (PInt (z mod 2)) 0); cbn [py_floordiv py_sub bind];
    [apply R |].
  destruct (py_eq (PInt (z mod 2)) 1); cbn [py_floordiv py_sub bind];
    [apply R |].
  discriminate.
Qed.

Lemma r_raise (v : pyval) (e : exn) : _r v = Raise e -> e = TypeError.
Proof.
  intros E. pose proof (r_spec v) as H.
  destruct (none_free v && small v); [destruct H as (s & H) |]; congruence.
Qed.

Lemma public_raise (g : pyval -> res pyval) (x : pyval) (e : exn) :
  (forall e', g x = Raise e' -> e' = TypeError) ->
  _public g x = Raise e -> e = TypeError.
Proof.
  unfold _public. intros Hg E.
  destruct (_r x) as [str | e' |] eqn:Ex; cbn [bind] in E;
    [| injection E as <-; now apply r_raise in Ex | discriminate].
  destruct (g x) as [v | e' |] eqn:Eg; cbn [bind] in E;
    [| injection E as <-; now apply Hg | discriminate].
  destruct (_r v) as [str' | e' |] eqn:Ev; cbn [bind] in E;
    [discriminate | injection E as <-; now apply r_raise in Ev
     | discriminate].
Qed.

Lemma axioms_raise (r : pyval) (e : exn) :
  binary r = true ->
  (wut r = Raise e -> e = TypeError)
  /\ (lus r = Raise e -> e = TypeError)
  /\ (tis r = Raise e -> e = TypeError).
Proof.
  intros Br. repeat split; apply public_raise; intros e' E.
  - discriminate.
  - destruct r as [z | l |]; cbn [_lus] in E; try discriminate.
    destruct (is_int (PInt z)); discriminate.
  - unfold _tis in E. destruct r as [z | l |];
      try (now injection E as <-).
    destruct l as [| h [| tl [| ? ?]]]; try discriminate.
Qed.

Lemma fas_pub_raise (fuel : nat) (n t : pyval) (e : exn) :
  binary t = true -> fas fuel <( n, t )> = Raise e -> e = TypeError.
Proof.
  intros Bt. apply public_raise. intros e' E.
  now apply fas_no_raise in E.
Qed.

Ltac no_empty_arg :=
  cbn [has_empty existsb];
  repeat match goal with
         | H : has_empty ?v = false |- context [has_empty ?v] => rewrite H
         end;
  reflexivity.

(** What the dispatch raises is a [TypeError], when what it calls raises
    nothing else. *)
Lemma dispatch_raise (fuel : nat) (F3 : pyval -> res pyval) :
  (forall x e, has_empty x = false -> F3 x = Raise e -> e = TypeError) ->
  (forall x v, F3 x = Ok v -> binary v = true) ->
  forall s op obj e,
    binary s = true -> binary op = true -> binary obj = true ->
    tar_dispatch (_fas fuel) (fas fuel) F3 s op obj = Raise e ->
    e = TypeError.
Proof.
  intros H3 B3 s op obj e Bs Bop Bobj E. unfold tar_dispatch in E.
  pose proof (binary_no_empty _ Bs) as Es.
  pose proof (binary_no_empty _ Bop) as Eop.
  pose proof (binary_no_empty _ Bobj) as Eobj.
  repeat match type of E with
         | bind (_fas fuel ?x) _ = Raise _ =>
             let a := fresh "a" in
             let Ea := fresh "Ea" in
             let Ba := fresh "Ba" in
             let Na := fresh "Na" in
             destruct (_fas fuel x) as [a | ? |] eqn:Ea; cbn [bind] in E;
             [ pose proof (fas_binary_any _ _ _ Ea) as Ba;
               pose proof (binary_no_empty _ Ba) as Na
             | exfalso; revert Ea; apply fas_no_raise; assumption
             | discriminate ]
         | bind (F3 ?x) _ = Raise _ =>
             let a := fresh "a" in
             let Ea := fresh "Ea" in
             let Ba := fresh "Ba" in
             let Na := fresh "Na" in
             destruct (F3 x) as [a | ? |] eqn:Ea; cbn [bind] in E;
             [ pose proof (B3 _ _ Ea) as Ba;
               pose proof (binary_no_empty _ Ba) as Na
             | injection E as <-; revert Ea; apply H3; no_empty_arg
             | discriminate ]
         | bind (_wut ?x) _ = Raise _ => cbn [_wut bind] in E
         | (if ?c then _ else _) = Raise _ => destruct c
         end;
    try discriminate;
    match type of E with
    | F3 ?x = Raise _ => revert E; apply H3; no_empty_arg
    | fas fuel _ = Raise _ => revert E; now apply fas_pub_raise
    | wut ?r = Raise _ => revert E; now apply axioms_raise
    | lus ?r = Raise _ => revert E; now apply axioms_raise
    | tis ?r = Raise _ => revert E; now apply axioms_raise
    end.
Qed.

Lemma _tar_raise (fuel : nat) :
  forall x e, has_empty x = false -> _tar fuel x = Raise e -> e = TypeError.
Proof.
  induction fuel as [| fuel IH]; intros x e Nx E; [discriminate |].
  cbn [_tar] in E. unfold tar_body in E.
  destruct x as [z | lst |]; cbn [star bind] in E;
    try (now injection E as <-).
  pose proof (aorc_outcome_all (PTuple lst)) as O. unfold aorc_outcome in O.
  rewrite Nx, aorc_tuple in O. destruct O as (noun & En).
  rewrite En in E. cbn [bind] in E.
  destruct (t_pair lst noun En) as (a & b & -> & Ba & Bb & _).
  assert (Bn : binary <( a, b )> = true) by now apply binary_pair.
  repeat match type of E with
         | bind (_fas fuel ?y) _ = Raise _ =>
             let v := fresh "v" in
             let Ev := fresh "Ev" in
             destruct (_fas fuel y) as [v | ? |] eqn:Ev; cbn [bind] in E;
             [ apply fas_binary_any in Ev
             | exfalso; revert Ev; apply fas_no_raise; assumption
             | discriminate ]
         end.
  revert E. apply dispatch_raise; try assumption.
  - intros y e' Ny. apply public_raise. intros e''. now apply IH.
  - apply public_binary, _tar_binary.
Qed.

(** On an argument without an empty tuple inside, the one exception that
    [tar] raises is [TypeError]. *)
Lemma tar_raise (fuel : nat) (x : pyval) (e : exn) :
  has_empty x = false -> tar fuel x = Raise e -> e = TypeError.
Proof.
  intros Nx. apply public_raise. intros e'. now apply _tar_raise.
Qed.

Ltac long_arg :=
  apply reduces_raise_long; rewrite !small_pair_eq;
  repeat match goal with
         | H : small _ = _ |- _ => rewrite H
         end;
  rewrite ?andb_false_r; reflexivity.

(** X13.  No opcode catches what the reduction of its first operand
    raises: when [(s, b)] raises [e], so does every formula that reduces
    [b] first against [s] -- opcodes 2 to 8 with [b] as first operand,
    opcode 9 with [b] as its core formula, opcode 10 with an atom hint
    and with [b] as the head of a cell hint. *)
Theorem tar_crash_propagates (s b c d : pyval) (h : Z) (e : exn)
  (Hs : is_noun s = true) (Hb : is_noun b = true)
  (Hc : is_noun c = true) (Hd : is_noun d = true)
  (Rb : reduces <( s, b )> (Raise e)) :
  reduces <( s, <( 2, <( b, c )> )> )> (Raise e) /\
  reduces <( s, <( 3, b )> )> (Raise e) /\
  reduces <( s, <( 4, b )> )> (Raise e) /\
  reduces <( s, <( 5, b )> )> (Raise e) /\
  reduces <( s, <( 6, <( b, <( c, d )> )> )> )> (Raise e) /\
  reduces <( s, <( 7, <( b, c )> )> )> (Raise e) /\
  reduces <( s, <( 8, <( b, c )> )> )> (Raise e) /\
  reduces <( s, <( 9, <( c, b )> )> )> (Raise e) /\
  reduces <( s, <( 10, <( PInt h, b )> )> )> (Raise e) /\
  reduces <( s, <( 10, <( <( b, c )>, d )> )> )> (Raise e).
Proof.
  assert (Et : e = TypeError).
  { destruct Rb as (f & E & _). revert E. apply tar_raise.
    apply binary_no_empty, binary_pair. split; now apply noun_binary. }
  subst e.
  destruct (small s) eqn:Ss;
    [| repeat match goal with |- _ /\ _ => split end; long_arg].
  destruct (small b) eqn:Sb;
    [| repeat match goal with |- _ /\ _ => split end; long_arg].
  pose proof (noun_word _ Hs Ss) as Vs. pose proof (noun_word _ Hb Sb) as Vb.
  pose proof Rb as Rb'. apply reduces_from in Rb' as (f0 & H0).
  assert (En : ended (@Raise pyval TypeError)) by discriminate.
  repeat match goal with |- _ /\ _ => split end.
  - destruct (small c) eqn:Sc; [| long_arg].
    pose proof (noun_word _ Hc Sc) as Vc.
    apply (reduces_const _ _ 3 f0); [| exact En]. intros j Hj.
    cbn [Nat.add]. rewrite rule_tar by assumption.
    rewrite H0 by lia. reflexivity.
  - destruct (reduces_axiom <( s, <( 3, b )> )> <( s, b )> wut 3 2 0)
      as (_ & H); [| apply axiom_ended | now apply H].
    intros j _. cbn [Nat.add]. now apply rule_wut.
  - destruct (reduces_axiom <( s, <( 4, b )> )> <( s, b )> lus 3 2 0)
      as (_ & H); [| apply axiom_ended | now apply H].
    intros j _. cbn [Nat.add]. now apply rule_lus.
  - destruct (reduces_axiom <( s, <( 5, b )> )> <( s, b )> tis 3 2 0)
      as (_ & H); [| apply axiom_ended | now apply H].
    intros j _. cbn [Nat.add]. now apply rule_tis.
  - destruct (small c) eqn:Sc; [| long_arg].
    destruct (small d) eqn:Sd; [| long_arg].
    pose proof (noun_word _ Hc Sc) as Vc. pose proof (noun_word _ Hd Sd) as Vd.
    apply (reduces_const _ _ 10 f0); [| exact En]. intros j Hj.
    rewrite if_prefix by assumption. rewrite H0 by lia. reflexivity.
  - destruct (small c) eqn:Sc; [| long_arg].
    pose proof (noun_word _ Hc Sc) as Vc.
    destruct (reduces_bind <( s, <( 7, <( b, c )> )> )> <( s, b )>
                (fun a => <( a, c )>) 5 3 3 0) as (_ & H); [| now apply H].
    intros j _. now apply h07_chain.
  - destruct (small c) eqn:Sc; [| long_arg].
    pose proof (noun_word _ Hc Sc) as Vc.
    destruct (reduces_bind <( s, <( 8, <( b, c )> )> )> <( s, b )>
                (fun a => <( <( a, s )>, c )>) 10 4 7 0) as (_ & H);
      [| now apply H].
    intros j _. now apply h08_chain.
  - destruct (small c) eqn:Sc; [| long_arg].
    pose proof (noun_word _ Hc Sc) as Vc.
    apply (reduces_const _ _ 7 f0); [| exact En]. intros j Hj.
    rewrite h09_chain by assumption. rewrite H0 by lia. reflexivity.
  - destruct (small (PInt h)) eqn:Sh; [| long_arg].
    apply (reduces_shift <( s, <( 10, <( PInt h, b )> )> )> <( s, b )> 3 2 0);
      [| exact Rb].
    intros j _. cbn [Nat.add]. now apply rule_h10_atom.
  - destruct (small c) eqn:Sc; [| long_arg].
    destruct (small d) eqn:Sd; [| long_arg].
    pose proof (noun_word _ Hc Sc) as Vc. pose proof (noun_word _ Hd Sd) as Vd.
    apply (reduces_const _ _ 10 f0); [| exact En]. intros j Hj.
    rewrite h10_chain by assumption. rewrite H0 by lia. reflexivity.
Qed.

Lemma tar_crash_propagates_witness :
  reduces <( 42, <( 4, <( 5, <( 0, 1 )> )> )> )> (Raise TypeError).
Proof.
  destruct (tar_crash_propagates 42 <( 5, <( 0, 1 )> )> 0 0 0 TypeError)
    as (_ & _ & H & _);
    [reflexivity | reflexivity | reflexivity | reflexivity | | exact H].
  apply (reduces_raise_at 6). vm_compute. reflexivity.
Defined.

(** * The parser *)

(** ** Characters and digit strings *)

Lemma append_assoc (a b c : string) :
  ((a ++ b) ++ c = a ++ (b ++ c))%string.
Proof. induction a as [| x a IH]; cbn; [reflexivity | now rewrite IH]. Qed.

Lemma append_nil_r (a : string) : (a ++ EmptyString)%string = a.
Proof. induction a as [| x a IH]; cbn; [reflexivity | now rewrite IH]. Qed.

Lemma digit_not_token (c : Ascii.ascii) :
  in_NUMBERS c = true -> is_token_char c = false.
Proof.
  destruct c as [[|] [|] [|] [|] [|] [|] [|] [|]];
    vm_compute; congruence.
Qed.

Lemma digit_not_space (c : Ascii.ascii) :
  in_NUMBERS c = true -> isspace c = false.
Proof.
  destruct c as [[|] [|] [|] [|] [|] [|] [|] [|]];
    vm_compute; congruence.
Qed.

Lemma digit_of_char (c : Ascii.ascii) (d : Decimal.uint) :
  in_NUMBERS c = true -> uint_of_char c (Some d) <> None.
Proof.
  destruct c as [[|] [|] [|] [|] [|] [|] [|] [|]];
    vm_compute; congruence.
Qed.

Lemma all_digits_uint (d : Decimal.uint) :
  all_digits (NilEmpty.string_of_uint d) = true.
Proof. induction d; cbn; auto. Qed.

Lemma all_digits_app (a b : string) :
  all_digits (a ++ b) = all_digits a && all_digits b.
Proof.
  induction a as [| x a IH]; cbn; [reflexivity |].
  now rewrite IH, andb_assoc.
Qed.

(** The digits of a natural: a digit string that is not empty and reads
    back as the number. *)
Lemma repr_natural (z : Z) :
  0 <= z ->
  exists d, d <> Decimal.Nil /\ repr z = NilEmpty.string_of_uint d
            /\ Z.of_uint d = z.
Proof.
  intros Hz. destruct z as [| p | p]; [| | lia].
  - exists (Decimal.D0 Decimal.Nil). repeat split. discriminate.
  - exists (Pos.to_uint p).
    pose proof (DecimalPos.Unsigned.to_uint_nonnil p) as Hn.
    split; [exact Hn |]. split.
    + unfold repr. cbn [Z.to_int NilZero.string_of_int].
      unfold NilZero.string_of_uint.
      destruct (Pos.to_uint p); [congruence | reflexivity ..].
    + unfold Z.of_uint. now rewrite DecimalPos.Unsigned.of_to.
Qed.

Lemma uint_string_nonempty (d : Decimal.uint) :
  d <> Decimal.Nil -> NilEmpty.string_of_uint d <> EmptyString.
Proof. destruct d; [congruence | discriminate ..]. Qed.

Lemma rstrip_digits (s : string) :
  all_digits s = true -> rstrip s = s.
Proof.
  induction s as [| c s IH]; [reflexivity |].
  cbn [all_digits rstrip]. intros H. apply andb_prop in H as [Hc Hs].
  rewrite (IH Hs). destruct s; [| reflexivity].
  now rewrite (digit_not_space c Hc).
Qed.

Lemma int_repr (z : Z) : 0 <= z -> int (repr z) = Ok (PInt z).
Proof.
  intros Hz. destruct (repr_natural z Hz) as (d & Hn & -> & Hd).
  unfold int. rewrite rstrip_digits by apply all_digits_uint.
  pose proof (NilZero.usu d Hn) as U.
  unfold NilZero.string_of_uint in U.
  destruct d; [congruence | rewrite U, Hd; reflexivity ..].
Qed.

(** ** The tokens of a rendering *)

Lemma flush_nonempty (num : string) (tokens : list string) :
  num <> EmptyString -> flush num tokens = num :: tokens.
Proof. destruct num; [congruence | reflexivity]. Qed.

Lemma findall_digits (ds : string) :
  all_digits ds = true ->
  forall num s,
    findall_from num (ds ++ s) = findall_from (num ++ ds) s.
Proof.
  induction ds as [| c ds IH]; intros H num s.
  - now rewrite append_nil_r.
  - cbn [all_digits] in H. apply andb_prop in H as [Hc Hd].
    cbn [append findall_from]. rewrite Hc, (IH Hd).
    now rewrite append_assoc.
Qed.

Lemma findall_break (num s : string) :
  starts_digit s = false ->
  findall_from num s = flush num (findall_from EmptyString s).
Proof.
  destruct s as [| c s]; intros H; [reflexivity |].
  cbn [starts_digit] in H. cbn [findall_from]. now rewrite H.
Qed.

Lemma findall_number (ds s : string) :
  all_digits ds = true -> ds <> EmptyString -> starts_digit s = false ->
  findall_from EmptyString (ds ++ s) = ds :: findall_from EmptyString s.
Proof.
  intros Hd Hn Hs. rewrite (findall_digits ds Hd). cbn [append].
  rewrite (findall_break ds s Hs). now apply flush_nonempty.
Qed.

Lemma findall_token_char (c : Ascii.ascii) (s : string) :
  is_token_char c = true ->
  findall_from EmptyString (String c s)
  = String c EmptyString :: findall_from EmptyString s.
Proof.
  intros H. cbn [findall_from].
  destruct (in_NUMBERS c) eqn:D.
  - apply digit_not_token in D. congruence.
  - now rewrite H.
Qed.

Lemma findall_skip (c : Ascii.ascii) (s : string) :
  in_NUMBERS c = false -> is_token_char c = false ->
  findall_from EmptyString (String c s) = findall_from EmptyString s.
Proof. intros D H. cbn [findall_from]. now rewrite D, H. Qed.

(** The rendering of the elements of a tuple, one by one. *)
Lemma r_tuple_inv (l : list pyval) (s : string) :
  _r (PTuple l) = Ok s ->
  exists parts,
    Forall2 (fun v p => _r v = Ok p) l parts
    /\ s = ("[" ++ String.concat " " parts ++ "]")%string.
Proof.
  cbn [_r].
  set (each := fix each (l : list pyval) : res (list string) :=
                 match l with
                 | [] => Ok []
                 | i :: rest => s <- _r i ;; ss <- each rest ;; Ok (s :: ss)
                 end).
  intros E. apply bind_Ok in E as (parts & Ep & E). injection E as <-.
  exists parts. split; [| reflexivity].
  clear - Ep. revert parts Ep.
  induction l as [| v l IH]; intros parts Ep.
  - injection Ep as <-. constructor.
  - cbn [each] in Ep. apply bind_Ok in Ep as (p & Ev & Ep).
    apply bind_Ok in Ep as (ps & El & Ep). injection Ep as <-.
    constructor; [exact Ev | now apply IH].
Qed.

Lemma r_int_inv (z : Z) (s : string) :
  _r (PInt z) = Ok s -> is_int (PInt z) = true /\ s = repr z.
Proof.
  cbn [_r]. destruct (is_int (PInt z)); [| discriminate].
  intros E. injection E as <-. now split.
Qed.

Lemma r_not_star (v : pyval) (s : string) :
  natural v = true -> _r v = Ok s -> String.prefix "*" s = false.
Proof.
  intros N E. destruct v as [z | l |]; [| | discriminate].
  - cbn [natural] in N. apply Z.leb_le in N.
    destruct (repr_natural z N) as (d & Hn & R & _).
    apply r_int_inv in E as (Iz & ->). rewrite R.
    pose proof (all_digits_uint d) as A.
    pose proof (uint_string_nonempty d Hn) as Ne.
    destruct (NilEmpty.string_of_uint d) as [| c s']; [congruence |].
    cbn [all_digits] in A. apply andb_prop in A as [Hc _].
    cbn [String.prefix].
    destruct (Ascii.ascii_dec _ c) as [<- | _]; [discriminate | reflexivity].
  - apply r_tuple_inv in E as (parts & _ & ->). reflexivity.
Qed.

Lemma findall_render (v : pyval) :
  natural v = true ->
  forall s rest,
    _r v = Ok s ->
    (is_int v = true -> starts_digit rest = false) ->
    findall_from EmptyString (s ++ rest)
    = toks v ++ findall_from EmptyString rest.
Proof.
  induction v as [z | | l IH] using pyval_ind'; intros N s rest E Hr;
    [| discriminate |].
  - cbn [natural] in N. apply Z.leb_le in N.
    destruct (repr_natural z N) as (d & Hn & R & _).
    apply r_int_inv in E as (Iz & ->). cbn [toks app]. rewrite R.
    apply findall_number;
      [apply all_digits_uint | now apply uint_string_nonempty | now apply Hr].
  - clear Hr. apply r_tuple_inv in E as (parts & F & ->).
    cbn [natural] in N. cbn [toks].
    rewrite !append_assoc. cbn [append].
    rewrite findall_token_char by reflexivity.
    cbn [app]. f_equal. rewrite <- app_assoc. cbn [app].
    revert parts F N.
    induction IH as [| x xs Hx _ IHxs]; intros parts F N.
    + inversion F; subst. cbn [String.concat append flat_map app].
      now rewrite findall_token_char by reflexivity.
    + inversion F as [| ? p ? ps Ex Fxs]; subst.
      cbn [forallb] in N. apply andb_prop in N as [Nx Nxs].
      cbn [flat_map]. rewrite <- app_assoc.
      destruct ps as [| q ps].
      * inversion Fxs; subst. cbn [String.concat flat_map app].
        rewrite (Hx Nx p _ Ex) by reflexivity.
        now rewrite findall_token_char by reflexivity.
      * specialize (IHxs (q :: ps) Fxs Nxs).
        change (String.concat " " (p :: q :: ps))
          with (p ++ " " ++ String.concat " " (q :: ps))%string.
        rewrite !append_assoc.
        rewrite (Hx Nx p _ Ex) by reflexivity.
        cbn [append]. rewrite findall_skip by reflexivity.
        f_equal. exact IHxs.
Qed.

(** ** The parser on the tokens of a rendering *)

Lemma construct_S (fuel : nat) (token : string) :
  _construct (S fuel) token
  = if (token =? "[")%string then
      token <~ next ;; construct_loop fuel [] token
    else
      match lookup token (OPS fuel) with
      | Some op =>
          token <~ next ;; noun <~ _construct fuel token ;; lift (op noun)
      | None =>
          c <~ lift (first_char token) ;;
          if in_NUMBERS c then lift (int token) else fail SyntaxError
      end.
Proof. reflexivity. Qed.

Lemma loop_S (fuel : nat) (out : list pyval) (token : string) :
  construct_loop (S fuel) out token
  = if (token =? "]")%string then ret (PTuple out)
    else
      x <~ _construct fuel token ;;
      token <~ next ;;
      construct_loop fuel (out ++ [x]) token.
Proof. reflexivity. Qed.

(** A token that starts with a digit is no bracket and no operator. *)
Lemma digit_token (c : Ascii.ascii) (t : string) (fuel : nat) :
  in_NUMBERS c = true ->
  (String c t =? "[")%string = false
  /\ (String c t =? "]")%string = false
  /\ lookup (String c t) (OPS fuel) = None.
Proof.
  intros D.
  destruct c as [[|] [|] [|] [|] [|] [|] [|] [|]];
    try discriminate D; repeat split.
Qed.

Lemma construct_number (fuel : nat) (token : string) :
  starts_digit token = true ->
  _construct (S fuel) token = lift (int token).
Proof.
  intros D. destruct token as [| c t]; [discriminate |].
  cbn [starts_digit] in D.
  destruct (digit_token c t fuel D) as (E1 & _ & E3).
  rewrite construct_S, E1, E3. cbn [first_char]. unfold pbind, lift.
  now rewrite D.
Qed.

Lemma repr_starts_digit (z : Z) : 0 <= z -> starts_digit (repr z) = true.
Proof.
  intros N. destruct (repr_natural z N) as (d & Hn & R & _). rewrite R.
  pose proof (all_digits_uint d) as A.
  pose proof (uint_string_nonempty d Hn) as Ne.
  destruct (NilEmpty.string_of_uint d) as [| c s']; [congruence |].
  cbn [all_digits] in A. now apply andb_prop in A as [Hc _].
Qed.

Lemma starts_digit_not_close (t : string) :
  starts_digit t = true -> (t =? "]")%string = false.
Proof.
  destruct t as [| c t]; [discriminate |]. intros D.
  now destruct (digit_token c t O D) as (_ & E & _).
Qed.

(** The rendering of a value begins with a token that does not close a
    tuple. *)
Lemma toks_head (v : pyval) :
  natural v = true ->
  exists t ts, toks v = t :: ts /\ (t =? "]")%string = false.
Proof.
  destruct v as [z | l |]; intros N; [| | discriminate].
  - cbn [natural] in N. apply Z.leb_le in N.
    exists (repr z), []. split; [reflexivity |].
    now apply starts_digit_not_close, repr_starts_digit.
  - eexists _, _. split; reflexivity.
Qed.

Lemma loop_step (fuel : nat) (out : list pyval) (t : string)
    (tk_iter : list string) :
  (t =? "]")%string = false ->
  (token <~ next ;; construct_loop (S fuel) out token) (t :: tk_iter)
  = (x <~ (token <~ next ;; _construct fuel token) ;;
     token <~ next ;;
     construct_loop fuel (out ++ [x]) token) (t :: tk_iter).
Proof.
  intros H. unfold pbind at 1 3 4. cbn [next].
  now rewrite loop_S, H.
Qed.

Lemma construct_render (v : pyval) :
  natural v = true ->
  forall fuel tk_iter,
    (pcost v <= fuel)%nat ->
    (token <~ next ;; _construct fuel token) (toks v ++ tk_iter)
    = Parsed (v, tk_iter).
Proof.
  induction v as [z | | l IH] using pyval_ind'; intros N fuel tk_iter Hf;
    [| discriminate |].
  - cbn [natural] in N. apply Z.leb_le in N. cbn [pcost] in Hf.
    destruct fuel as [| fuel]; [lia |].
    cbn [toks app]. unfold pbind. cbn [next].
    rewrite construct_number by now apply repr_starts_digit.
    unfold lift. now rewrite int_repr.
  - cbn [natural] in N. cbn [pcost] in Hf.
    destruct fuel as [| fuel]; [lia |].
    cbn [toks app]. unfold pbind at 1. cbn [next].
    rewrite construct_S. cbn [String.eqb Ascii.eqb Bool.eqb andb].
    rewrite <- app_assoc. cbn [app].
    assert (L : forall out f,
               (1 + List.length l + list_sum (map pcost l) <= f)%nat ->
               (token <~ next ;; construct_loop f out token)
                 (flat_map toks l ++ "]"%string :: tk_iter)
               = Parsed (PTuple (out ++ l), tk_iter)).
    { clear Hf fuel. revert N.
      induction IH as [| x xs Hx _ IHxs]; intros N out f Hf.
      - destruct f as [| f]; [cbn in Hf; lia |].
        cbn [flat_map app]. unfold pbind. cbn [next].
        rewrite loop_S. cbn [String.eqb Ascii.eqb Bool.eqb andb].
        unfold ret. now rewrite app_nil_r.
      - cbn [forallb] in N. apply andb_prop in N as [Nx Nxs].
        cbn [List.length map] in Hf. unfold list_sum in *. cbn [fold_right] in Hf.
        destruct f as [| f]; [lia |].
        cbn [flat_map]. rewrite <- app_assoc.
        destruct (toks_head x Nx) as (t & ts & Et & Ht).
        pose proof (Hx Nx f (flat_map toks xs ++ "]"%string :: tk_iter))
          as Ex.
        rewrite Et in Ex |- *. cbn [app] in Ex |- *.
        rewrite loop_step by exact Ht.
        unfold pbind at 1. rewrite Ex by lia.
        rewrite (IHxs Nxs (out ++ [x]) f) by lia.
        now rewrite <- app_assoc. }
    rewrite (L [] fuel) by lia. reflexivity.
Qed.

(** [parse] on a text whose tokens begin with those of a value. *)
Lemma parse_render (v : pyval) (s rest : string) (fuel : nat) :
  natural v = true -> _r v = Ok s ->
  (is_int v = true -> starts_digit rest = false) ->
  (pcost v <= fuel)%nat ->
  parse fuel (s ++ rest) = Parsed v.
Proof.
  intros N E Hr Hf. unfold parse, TOKENS_CP_findall.
  rewrite (findall_render v N s rest E Hr).
  now rewrite (construct_render v N fuel _ Hf).
Qed.

(** ** More depth never changes an outcome of the parser *)

Lemma le_pres_refl {A} (r : pres A) : le_pres r r.
Proof. now right. Qed.

Lemma le_pres_trans {A} (a b c : pres A) :
  le_pres a b -> le_pres b c -> le_pres a c.
Proof. intros [H | H] H'; [now left | now subst]. Qed.

Lemma pbind_le {A B} (m m' : parser A) (k k' : A -> parser B)
    (tk_iter : list string) :
  le_pres (m tk_iter) (m' tk_iter) ->
  (forall a it, le_pres (k a it) (k' a it)) ->
  le_pres (pbind m k tk_iter) (pbind m' k' tk_iter).
Proof.
  unfold pbind. intros [-> | ->] Hk; [now left |].
  destruct (m' tk_iter) as [[a it] | e |];
    [apply Hk | apply le_pres_refl ..].
Qed.

Lemma lift_le {A} (r r' : res A) (tk_iter : list string) :
  le_res r r' -> le_pres (lift r tk_iter) (lift r' tk_iter).
Proof. intros [-> | ->]; [now left | now right]. Qed.

Lemma of_res_le {A} (r r' : res A) :
  le_res r r' -> le_pres (of_res r) (of_res r').
Proof. intros [-> | ->]; [now left | now right]. Qed.

Lemma fas_pub_le (fuel fuel' : nat) (x : pyval) :
  (fuel <= fuel')%nat -> le_res (fas fuel x) (fas fuel' x).
Proof. intros H. apply public_le. intros y. now apply fas_le. Qed.

(** [OPS] holds the same operators at every depth. *)
Lemma ops_le (fuel fuel' : nat) (token : string) :
  (fuel <= fuel')%nat ->
  match lookup token (OPS fuel), lookup token (OPS fuel') with
  | Some op, Some op' => forall x, le_res (op x) (op' x)
  | None, None => True
  | _, _ => False
  end.
Proof.
  intros H. unfold OPS. cbn [lookup].
  repeat match goal with
         | |- context [(token =? ?k)%string] =>
             destruct (token =? k)%string
         end;
    try exact I; intros x;
    first [now apply fas_pub_le | now apply tar_le | apply le_res_refl].
Qed.

Lemma construct_step (fuel : nat) :
  (forall token it,
      le_pres (_construct fuel token it) (_construct (S fuel) token it))
  /\ (forall out token it,
         le_pres (construct_loop fuel out token it)
                 (construct_loop (S fuel) out token it)).
Proof.
  induction fuel as [| fuel [IHc IHl]]; [split; intros; now left |].
  split.
  - intros token it. rewrite (construct_S fuel), (construct_S (S fuel)).
    destruct (token =? "[")%string.
    + apply pbind_le; [apply le_pres_refl | intros; apply IHl].
    + pose proof (ops_le fuel (S fuel) token (Nat.le_succ_diag_r fuel)) as O.
      destruct (lookup token (OPS fuel)) as [op |],
               (lookup token (OPS (S fuel))) as [op' |];
        try contradiction; [| apply le_pres_refl].
      apply pbind_le; [apply le_pres_refl | intros t it'].
      apply pbind_le; [apply IHc | intros x it''].
      apply lift_le, O.
  - intros out token it. rewrite (loop_S fuel), (loop_S (S fuel)).
    destruct (token =? "]")%string; [apply le_pres_refl |].
    apply pbind_le; [apply IHc | intros x it'].
    apply pbind_le; [apply le_pres_refl | intros; apply IHl].
Qed.

Lemma construct_le (fuel fuel' : nat) (token : string)
    (tk_iter : list string) :
  (fuel <= fuel')%nat ->
  le_pres (_construct fuel token tk_iter) (_construct fuel' token tk_iter).
Proof.
  induction 1 as [| k _ IH]; [apply le_pres_refl |].
  eapply le_pres_trans; [exact IH | apply construct_step].
Qed.

Lemma parse_le (fuel fuel' : nat) (s : string) :
  (fuel <= fuel')%nat -> le_pres (parse fuel s) (parse fuel' s).
Proof.
  intros H. unfold parse.
  assert (L : le_pres
                ((token <~ next ;; _construct fuel token)
                   (TOKENS_CP_findall s))
                ((token <~ next ;; _construct fuel' token)
                   (TOKENS_CP_findall s))).
  { apply pbind_le; [apply le_pres_refl | intros; now apply construct_le]. }
  destruct L as [-> | ->]; [now left | now right].
Qed.

Lemma parse_mono (fuel fuel' : nat) (s : string) (r : pres pyval) :
  (fuel <= fuel')%nat -> parse fuel s = r -> r <> Starved ->
  parse fuel' s = r.
Proof.
  intros H E En. destruct (parse_le fuel fuel' s H) as [T | T]; congruence.
Qed.

Lemma parses_det (s : string) (r r' : pres pyval) :
  parses s r -> parses s r' -> r = r'.
Proof.
  intros (f & E & En) (f' & E' & En').
  apply (parse_mono f (Nat.max f f')) in E; [| lia | exact En].
  apply (parse_mono f' (Nat.max f f')) in E'; [| lia | exact En'].
  congruence.
Qed.

Lemma nock_str_le (fuel fuel' : nat) (s : string) :
  (fuel <= fuel')%nat -> le_pres (nock_str fuel s) (nock_str fuel' s).
Proof.
  intros H. unfold nock_str.
  destruct (parse_le fuel fuel' s H) as [-> | ->]; [now left |].
  destruct (parse fuel' s) as [expr | e |]; try apply le_pres_refl.
  destruct (String.prefix "*" s); [apply le_pres_refl |].
  now apply of_res_le, tar_le.
Qed.

Lemma nock_str_mono (fuel fuel' : nat) (s : string) (r : pres pyval) :
  (fuel <= fuel')%nat -> nock_str fuel s = r -> r <> Starved ->
  nock_str fuel' s = r.
Proof.
  intros H E En. destruct (nock_str_le fuel fuel' s H) as [T | T]; congruence.
Qed.

(** ** Reading back what [_r] wrote *)

(** X17.  [parse] reads back what [_r] writes: on the rendering of a value
    that holds only naturals (tuples of any length, the empty one too),
    [parse] returns the value, whatever text follows the rendering; after
    the digits of an integer the text must not go on with a digit. *)
Theorem parse_reads_back_rendering (v : pyval) (s rest : string) :
  natural v = true -> _r v = Ok s ->
  (is_int v = true -> starts_digit rest = false) ->
  parses (s ++ rest) (Parsed v).
Proof.
  intros N E Hr. exists (pcost v). split; [| discriminate].
  now apply parse_render.
Qed.

Lemma parse_reads_back_rendering_witness :
  parses "[1 [22 3] [] [4]]] +" (Parsed <( 1, <( 22, 3 )>, <( )>, <( 4 )> )>).
Proof.
  apply (parse_reads_back_rendering
           <( 1, <( 22, 3 )>, <( )>, <( 4 )> )> "[1 [22 3] [] [4]]" "] +");
    [reflexivity | reflexivity | discriminate].
Defined.

Lemma pbind_assoc {A B C} (m : parser A) (k : A -> parser B)
    (k' : B -> parser C) (tk_iter : list string) :
  pbind (pbind m k) k' tk_iter
  = pbind m (fun a => pbind (k a) k') tk_iter.
Proof. unfold pbind. destruct (m tk_iter) as [[a it] | |]; reflexivity. Qed.

(** [parse] on an operator and the rendering of a value: the operator is
    applied to the value. *)
Lemma parse_op (c : Ascii.ascii) (op : nat -> pyval -> res pyval)
    (v : pyval) (s : string) (fuel : nat) :
  is_token_char c = true ->
  (String c EmptyString =? "[")%string = false ->
  (forall f, lookup (String c EmptyString) (OPS f) = Some (op f)) ->
  natural v = true -> _r v = Ok s -> (pcost v <= fuel)%nat ->
  parse (S fuel) (String c s) = of_res (op fuel v).
Proof.
  intros Hc Hb Hl N E Hf. unfold parse, TOKENS_CP_findall.
  rewrite (findall_token_char c s Hc).
  rewrite <- (append_nil_r s).
  rewrite (findall_render v N s EmptyString E) by reflexivity.
  unfold pbind at 1. cbn [next]. rewrite construct_S, Hb, Hl.
  rewrite <- (pbind_assoc next (_construct fuel)
                (fun noun => lift (op fuel noun))).
  unfold pbind at 1. rewrite (construct_render v N fuel _ Hf).
  unfold lift. now destruct (op fuel v).
Qed.

Lemma of_res_ended {A} (r : res A) : ended r <-> of_res r <> Starved.
Proof. unfold ended. destruct r; cbn; split; congruence. Qed.

(** The outcomes of [parse] on such a text are those of the operator. *)
Lemma parses_op (c : Ascii.ascii) (op : nat -> pyval -> res pyval)
    (v : pyval) (s : string) (r : pres pyval) :
  is_token_char c = true ->
  (String c EmptyString =? "[")%string = false ->
  (forall f, lookup (String c EmptyString) (OPS f) = Some (op f)) ->
  (forall f f' x, (f <= f')%nat -> le_res (op f x) (op f' x)) ->
  natural v = true -> _r v = Ok s ->
  parses (String c s) r
  <-> exists fuel r0, r = of_res r0 /\ op fuel v = r0 /\ ended r0.
Proof.
  intros Hc Hb Hl Hm N E. split.
  - intros (fuel & Ep & En).
    apply (parse_mono fuel (S (Nat.max fuel (pcost v)))) in Ep;
      [| lia | exact En].
    rewrite (parse_op c op v s _ Hc Hb Hl N E) in Ep by lia.
    exists (Nat.max fuel (pcost v)), (op (Nat.max fuel (pcost v)) v).
    split; [now symmetry | split; [reflexivity |]].
    apply of_res_ended. now rewrite Ep.
  - intros (fuel & r0 & -> & Eo & En).
    exists (S (Nat.max fuel (pcost v))). split; [| now apply of_res_ended].
    rewrite (parse_op c op v s _ Hc Hb Hl N E) by lia. f_equal.
    destruct (Hm fuel (Nat.max fuel (pcost v)) v) as [T | T]; [lia | |].
    + unfold ended in En. congruence.
    + congruence.
Qed.

(** X18.  An operator in front of a rendering applies the public function
    of that operator to the value: [+], [?] and [=] give what [lus], [wut]
    and [tis] give, and the outcomes of [*] and [/] are those of [tar] and
    [fas]. *)
Theorem parse_applies_operator (v : pyval) (s : string) :
  natural v = true -> _r v = Ok s ->
  parses ("+" ++ s) (of_res (lus v))
  /\ parses ("?" ++ s) (of_res (wut v))
  /\ parses ("=" ++ s) (of_res (tis v))
  /\ (forall r, parses ("*" ++ s) r
                <-> exists r0, r = of_res r0 /\ reduces v r0)
  /\ (forall r, parses ("/" ++ s) r
                <-> exists fuel r0,
                      r = of_res r0 /\ fas fuel v = r0 /\ ended r0).
Proof.
  intros N E. destruct (axiom_ended v) as (Ew & El & Et).
  repeat match goal with |- _ /\ _ => split end.
  - apply (parses_op _ (fun _ => lus) v s); try reflexivity; try assumption.
    + intros; apply le_res_refl.
    + exists O, (lus v). auto.
  - apply (parses_op _ (fun _ => wut) v s); try reflexivity; try assumption.
    + intros; apply le_res_refl.
    + exists O, (wut v). auto.
  - apply (parses_op _ (fun _ => tis) v s); try reflexivity; try assumption.
    + intros; apply le_res_refl.
    + exists O, (tis v). auto.
  - intros r. cbn [append].
    rewrite (parses_op _ tar v s r); try reflexivity; try assumption.
    + unfold reduces. split.
      * intros (fuel & r0 & H1 & H2 & H3). exists r0. split; [exact H1 |].
        now exists fuel.
      * intros (r0 & H1 & fuel & H2 & H3). now exists fuel, r0.
    + intros f f' x H. now apply tar_le.
  - intros r. apply (parses_op _ fas v s r); try reflexivity; try assumption.
    intros f f' x H. now apply fas_pub_le.
Qed.

Lemma parse_applies_operator_witness :
  parses "+[41 2]" (of_res (lus <( 41, 2 )>)).
Proof.
  destruct (parse_applies_operator <( 41, 2 )> "[41 2]" eq_refl eq_refl)
    as (H & _).
  exact H.
Defined.

(** X19.  [nock] reads a text as [tar] reads the value: on the rendering of
    a value that holds only naturals, with or without a [*] in front, the
    outcomes of [nock] are exactly those of [tar] on the value. *)
Theorem nock_on_text_is_tar (v : pyval) (s : string) (r : pres pyval) :
  natural v = true -> _r v = Ok s ->
  (nock_ends s r <-> exists r0, r = of_res r0 /\ reduces v r0)
  /\ (nock_ends ("*" ++ s) r <-> exists r0, r = of_res r0 /\ reduces v r0).
Proof.
  intros N E.
  assert (P1 : forall f, (pcost v <= f)%nat ->
                         nock_str f s = of_res (tar f v)).
  { intros f Hf. unfold nock_str.
    rewrite <- (append_nil_r s) at 1.
    rewrite (parse_render v s EmptyString f N E) by (reflexivity || exact Hf).
    now rewrite (r_not_star v s N E). }
  assert (P2 : forall f, (pcost v <= f)%nat ->
                         nock_str (S f) ("*" ++ s) = of_res (tar f v)).
  { intros f Hf. unfold nock_str. cbn [append].
    rewrite (parse_op _ tar v s f) by (reflexivity || assumption).
    cbn [String.prefix]. destruct (Ascii.ascii_dec _ _); [| congruence].
    replace (String.prefix EmptyString s) with true by now destruct s.
    now destruct (tar f v). }
  split; split.
  - intros (fuel & En & Ee).
    apply (nock_str_mono fuel (Nat.max fuel (pcost v))) in En;
      [| lia | exact Ee].
    rewrite P1 in En by lia. exists (tar (Nat.max fuel (pcost v)) v).
    split; [now symmetry |]. eexists. split; [reflexivity |].
    apply of_res_ended. now rewrite En.
  - intros (r0 & -> & R). destruct (reduces_from v r0 R) as (f & Hf).
    destruct R as (_ & _ & Ee).
    exists (Nat.max f (pcost v)). split; [| now apply of_res_ended].
    rewrite P1 by lia. now rewrite Hf by lia.
  - intros (fuel & En & Ee).
    apply (nock_str_mono fuel (S (Nat.max fuel (pcost v)))) in En;
      [| lia | exact Ee].
    rewrite P2 in En by lia. exists (tar (Nat.max fuel (pcost v)) v).
    split; [now symmetry |]. eexists. split; [reflexivity |].
    apply of_res_ended. now rewrite En.
  - intros (r0 & -> & R). destruct (reduces_from v r0 R) as (f & Hf).
    destruct R as (_ & _ & Ee).
    exists (S (Nat.max f (pcost v))). split; [| now apply of_res_ended].
    rewrite P2 by lia. now rewrite Hf by lia.
Qed.

Lemma nock_on_text_is_tar_witness :
  nock_ends "*[[4 5] 4 0 3]" (Parsed (PInt 6)).
Proof.
  destruct (nock_on_text_is_tar <( <( 4, 5 )>, 4, 0, 3 )> "[[4 5] 4 0 3]"
              (Parsed (PInt 6)) eq_refl eq_refl) as (_ & H).
  apply H. exists (Ok (PInt 6)). split; [reflexivity |].
  apply (reduces_at 8). vm_compute. reflexivity.
Defined.

(** ** What the parser returns *)

Lemma pbind_Parsed {A B} (m : parser A) (k : A -> parser B)
    (tk_iter it'' : list string) (b : B) :
  pbind m k tk_iter = Parsed (b, it'') ->
  exists a it', m tk_iter = Parsed (a, it') /\ k a it' = Parsed (b, it'').
Proof.
  unfold pbind. destruct (m tk_iter) as [[a it'] | e |]; try discriminate.
  intros H. now exists a, it'.
Qed.

Lemma lift_Parsed {A} (r : res A) (tk_iter it' : list string) (a : A) :
  lift r tk_iter = Parsed (a, it') -> r = Ok a.
Proof. destruct r; cbn; congruence. Qed.

Lemma int_natural (token : string) (v : pyval) :
  int token = Ok v -> natural v = true.
Proof.
  unfold int. destruct (NilZero.uint_of_string (rstrip token)) as [d |];
    [| discriminate].
  intros E. injection E as <-. cbn [natural]. apply Z.leb_le.
  unfold Z.of_uint. apply N2Z.is_nonneg.
Qed.

Lemma ops_natural (fuel : nat) (token : string)
    (op : pyval -> res pyval) :
  lookup token (OPS fuel) = Some op -> keeps_natural op.
Proof.
  destruct axioms_keep_natural as (Hw & Hl & Ht).
  unfold OPS. cbn [lookup].
  repeat match goal with
         | |- context [(token =? ?k)%string] =>
             destruct (token =? k)%string
         end;
    intros E; try discriminate; injection E as <-; try assumption.
  - apply public_keeps_natural, fas_keeps_natural.
  - intros x v. apply tar_natural.
Qed.

Lemma construct_natural (fuel : nat) :
  (forall token it v it',
      _construct fuel token it = Parsed (v, it') -> natural v = true)
  /\ (forall out token it v it',
         forallb natural out = true ->
         construct_loop fuel out token it = Parsed (v, it') ->
         natural v = true).
Proof.
  induction fuel as [| fuel [IHc IHl]]; [split; discriminate |].
  split.
  - intros token it v it'. rewrite construct_S.
    destruct (token =? "[")%string.
    + intros E. apply pbind_Parsed in E as (t & it1 & _ & E).
      now apply IHl in E.
    + destruct (lookup token (OPS fuel)) as [op |] eqn:L.
      * intros E. apply pbind_Parsed in E as (t & it1 & _ & E).
        apply pbind_Parsed in E as (x & it2 & Ex & E).
        apply lift_Parsed in E. apply IHc in Ex.
        exact (ops_natural fuel token op L x v Ex E).
      * intros E. apply pbind_Parsed in E as (c & it1 & _ & E).
        destruct (in_NUMBERS c); [| discriminate].
        apply lift_Parsed in E. now apply int_natural in E.
  - intros out token it v it' No. rewrite loop_S.
    destruct (token =? "]")%string.
    + intros E. injection E as <- _. exact No.
    + intros E. apply pbind_Parsed in E as (x & it1 & Ex & E).
      apply pbind_Parsed in E as (t & it2 & _ & E).
      apply IHl in E; [exact E |]. apply IHc in Ex.
      rewrite forallb_app. cbn [forallb]. now rewrite No, Ex.
Qed.

Lemma parse_natural (fuel : nat) (s : string) (v : pyval) :
  parse fuel s = Parsed v -> natural v = true.
Proof.
  unfold parse.
  destruct ((token <~ next ;; _construct fuel token) (TOKENS_CP_findall s))
    as [[expr it] | e |] eqn:E; try discriminate.
  intros H. injection H as <-.
  apply pbind_Parsed in E as (t & it1 & _ & E).
  now apply (construct_natural fuel) in E.
Qed.

(** X20.  What [parse] and [nock] return from a text holds only naturals
    and no [None], whatever the text: no operator and no reduction brings
    in a negative integer. *)
Theorem text_gives_naturals (fuel : nat) (s : string) (v : pyval) :
  parse fuel s = Parsed v \/ nock_str fuel s = Parsed v ->
  natural v = true /\ none_free v = true.
Proof.
  intros H.
  assert (N : natural v = true).
  { destruct H as [H | H]; [now apply parse_natural in H |].
    unfold nock_str in H.
    destruct (parse fuel s) as [expr | e |] eqn:P; try discriminate.
    apply parse_natural in P.
    destruct (String.prefix "*" s); [congruence |].
    destruct (tar fuel expr) as [w | e |] eqn:T; try discriminate.
    injection H as <-. exact (tar_natural fuel expr w P T). }
  split; [exact N | now apply natural_none_free].
Qed.

Lemma text_gives_naturals_witness :
  natural <( 42, <( 1, 0 )>, 7 )> = true
  /\ none_free <( 42, <( 1, 0 )>, 7 )> = true.
Proof.
  apply (text_gives_naturals 20 "[+41 [?5 =[3 3]] /[3 [6 7]]]").
  left. vm_compute. reflexivity.
Defined.

(** ** The failures of the parser *)

Lemma flush_app (num : string) (a b : list string) :
  flush num a ++ b = flush num (a ++ b).
Proof. now destruct num. Qed.

(** A bracket or an operator ends the scan of what stands before it. *)
Lemma findall_split (c : Ascii.ascii) (rest : string) :
  is_token_char c = true ->
  forall a num,
    findall_from num (a ++ String c rest)
    = findall_from num a
      ++ String c EmptyString :: findall_from EmptyString rest.
Proof.
  intros Hc. induction a as [| x a IH]; intros num.
  - cbn [append findall_from].
    destruct (in_NUMBERS c) eqn:D;
      [apply digit_not_token in D; congruence |].
    rewrite Hc. now rewrite flush_app.
  - cbn [append findall_from]. destruct (in_NUMBERS x); [apply IH |].
    rewrite flush_app. f_equal.
    destruct (is_token_char x); cbn [app]; now rewrite IH.
Qed.

Lemma loop_starves (l : list pyval) :
  forallb natural l = true ->
  forall out fuel,
    (List.length l + list_sum (map pcost l) <= fuel)%nat ->
    (token <~ next ;; construct_loop fuel out token) (flat_map toks l)
    = Failed StopIteration.
Proof.
  induction l as [| x xs IH]; intros N out fuel Hf; [reflexivity |].
  cbn [forallb] in N. apply andb_prop in N as [Nx Nxs].
  cbn [List.length map] in Hf. unfold list_sum in *. cbn [fold_right] in Hf.
  destruct fuel as [| fuel]; [lia |].
  cbn [flat_map].
  destruct (toks_head x Nx) as (t & ts & Et & Ht).
  pose proof (construct_render x Nx fuel (flat_map toks xs)) as Ex.
  rewrite Et in Ex |- *. cbn [app] in Ex |- *.
  rewrite loop_step by exact Ht.
  unfold pbind at 1. rewrite Ex by lia.
  apply IH; [exact Nxs | lia].
Qed.

(** X21.  A tuple left open: on the rendering of a tuple of naturals
    without its last bracket, [parse] runs out of tokens and raises
    [StopIteration]. *)
Theorem parse_unclosed_tuple (l : list pyval) (s : string) :
  natural (PTuple l) = true -> _r (PTuple l) = Ok (s ++ "]")%string ->
  parses s (Failed StopIteration).
Proof.
  intros N E.
  pose proof (findall_render (PTuple l) N _ EmptyString E
                ltac:(discriminate)) as F.
  rewrite append_nil_r in F.
  rewrite (findall_split _ EmptyString) in F by reflexivity.
  cbn [toks findall_from flush] in F. rewrite app_nil_r in F.
  change ("["%string :: flat_map toks l ++ ["]"%string])
    with (("["%string :: flat_map toks l) ++ ["]"%string]) in F.
  apply app_inj_tail in F as [F _].
  exists (S (List.length l + list_sum (map pcost l))).
  split; [| discriminate].
  unfold parse, TOKENS_CP_findall. rewrite F.
  unfold pbind at 1. cbn [next]. rewrite construct_S.
  cbn [String.eqb Ascii.eqb Bool.eqb andb].
  cbn [natural] in N. now rewrite (loop_starves l N).
Qed.

Lemma parse_unclosed_tuple_witness :
  parses "[1 [2 3] 4" (Failed StopIteration).
Proof.
  apply (parse_unclosed_tuple [PInt 1; <( 2, 3 )>; PInt 4] "[1 [2 3] 4");
    reflexivity.
Defined.

Lemma uint_of_digits (t : string) :
  all_digits t = true -> exists d, NilEmpty.uint_of_string t = Some d.
Proof.
  induction t as [| c t IH]; intros H; [now eexists |].
  cbn [all_digits] in H. apply andb_prop in H as [Hc Ht].
  destruct (IH Ht) as (d & Ed). cbn [NilEmpty.uint_of_string]. rewrite Ed.
  pose proof (digit_of_char c d Hc) as Hd.
  destruct (uint_of_char c (Some d)) as [d' |]; [now eexists | congruence].
Qed.

Lemma int_digits (t : string) :
  all_digits t = true -> t <> EmptyString -> exists z, int t = Ok (PInt z).
Proof.
  intros A Ne. unfold int. rewrite (rstrip_digits t A).
  destruct (uint_of_digits t A) as (d & Ed).
  destruct t as [| c t]; [congruence |].
  unfold NilZero.uint_of_string. rewrite Ed. now eexists.
Qed.

Lemma plain_cases (token : string) :
  plain_token token = true ->
  token = "["%string \/ token = "]"%string
  \/ (all_digits token = true /\ token <> EmptyString).
Proof.
  unfold plain_token. intros H.
  apply orb_prop in H as [H | H]; [apply orb_prop in H as [H | H] |].
  - left. now apply String.eqb_eq.
  - right; left. now apply String.eqb_eq.
  - right; right. apply andb_prop in H as [A Ne]. split; [exact A |].
    intros ->. discriminate.
Qed.

Lemma plain_char (c : Ascii.ascii) :
  is_token_char c = true -> is_op_char c = false ->
  plain_token (String c EmptyString) = true.
Proof.
  destruct c as [[|] [|] [|] [|] [|] [|] [|] [|]];
    vm_compute; congruence.
Qed.

Lemma plain_number (num : string) :
  all_digits num = true -> num <> EmptyString -> plain_token num = true.
Proof.
  intros A Ne. unfold plain_token. rewrite A.
  destruct num; [congruence |]. cbn. now rewrite !orb_true_r.
Qed.

Lemma flush_plain (num : string) (tokens : list string) :
  all_digits num = true ->
  Forall (fun t => plain_token t = true) tokens ->
  Forall (fun t => plain_token t = true) (flush num tokens).
Proof.
  intros A F. destruct num as [| c n]; [exact F |].
  constructor; [| exact F]. now apply plain_number.
Qed.

(** A text without operators has only brackets and numbers as tokens. *)
Lemma findall_plain (s : string) :
  operator_free s = true ->
  forall num,
    all_digits num = true ->
    Forall (fun t => plain_token t = true) (findall_from num s).
Proof.
  induction s as [| c s IH]; intros O num A.
  - cbn [findall_from]. apply flush_plain; [exact A | constructor].
  - cbn [operator_free] in O. apply andb_prop in O as [Oc Os].
    apply negb_true_iff in Oc. cbn [findall_from].
    destruct (in_NUMBERS c) eqn:D.
    + apply IH; [exact Os |]. rewrite all_digits_app, A. cbn [all_digits].
      now rewrite D.
    + apply flush_plain; [exact A |].
      destruct (is_token_char c) eqn:Tc.
      * constructor; [now apply plain_char | now apply IH].
      * now apply IH.
Qed.

Lemma pbind_failed {A B} (m : parser A) (k : A -> parser B)
    (tk_iter : list string) (e : pexn) :
  m tk_iter = Failed e -> pbind m k tk_iter = Failed e.
Proof. unfold pbind. now intros ->. Qed.

Lemma pbind_parsed {A B} (m : parser A) (k : A -> parser B)
    (tk_iter it' : list string) (a : A) :
  m tk_iter = Parsed (a, it') -> pbind m k tk_iter = k a it'.
Proof. unfold pbind. now intros ->. Qed.

Lemma construct_close (fuel : nat) (tk_iter : list string) :
  _construct (S fuel) "]" tk_iter = Failed SyntaxError.
Proof. reflexivity. Qed.

(** On brackets and numbers the parser ends, with a value and a shorter
    iterator, or with one of its own two exceptions. *)
Lemma construct_plain (fuel : nat) :
  (forall token it,
      plain_token token = true ->
      Forall (fun t => plain_token t = true) it ->
      (2 * List.length it + 1 <= fuel)%nat ->
      (exists v it', _construct fuel token it = Parsed (v, it')
                     /\ (List.length it' <= List.length it)%nat
                     /\ Forall (fun t => plain_token t = true) it')
      \/ _construct fuel token it = Failed StopIteration
      \/ _construct fuel token it = Failed SyntaxError)
  /\ (forall out token it,
         plain_token token = true ->
         Forall (fun t => plain_token t = true) it ->
         (2 * List.length it + 2 <= fuel)%nat ->
         (exists v it', construct_loop fuel out token it = Parsed (v, it')
                        /\ (List.length it' <= List.length it)%nat
                        /\ Forall (fun t => plain_token t = true) it')
         \/ construct_loop fuel out token it = Failed StopIteration
         \/ construct_loop fuel out token it = Failed SyntaxError).
Proof.
  induction fuel as [| fuel [IHc IHl]]; [split; intros; lia |].
  split.
  - intros token it Pt Pi Hf.
    destruct (plain_cases token Pt) as [-> | [-> | (A & Ne)]].
    + rewrite construct_S. cbn [String.eqb Ascii.eqb Bool.eqb andb].
      unfold pbind. destruct it as [| t it1]; cbn [next]; [now (right; left) |].
      inversion Pi as [| ? ? Pt1 Pi1]; subst. cbn [List.length] in Hf.
      destruct (IHl [] t it1 Pt1 Pi1) as [(v & it' & E & L & P) | H];
        [lia | | exact (or_intror H)].
      left. exists v, it'. cbn [List.length]. repeat split; auto.
    + right; right. apply construct_close.
    + destruct token as [| c t]; [congruence |].
      cbn [all_digits] in A. apply andb_prop in A as [Hc Ht].
      rewrite construct_number by exact Hc.
      destruct (int_digits (String c t)) as (z & ->);
        [cbn [all_digits]; now rewrite Hc, Ht | discriminate |].
      left. exists (PInt z), it. repeat split; auto.
  - intros out token it Pt Pi Hf. rewrite loop_S.
    destruct (token =? "]")%string.
    + left. exists (PTuple out), it. repeat split; auto.
    + destruct (IHc token it Pt Pi) as [(x & it1 & E & L & P) | [E | E]];
        [lia | | |].
      * rewrite (pbind_parsed _ _ _ _ _ E).
        destruct it1 as [| t it2]; [now (right; left) |].
        rewrite (pbind_parsed next _ (t :: it2) it2 t eq_refl).
        inversion P as [| ? ? Pt2 Pi2]; subst. cbn [List.length] in L.
        destruct (IHl (out ++ [x]) t it2 Pt2 Pi2)
          as [(v & it' & E' & L' & P') | H];
          [lia | | exact (or_intror H)].
        left. exists v, it'. repeat split; auto. lia.
      * right; left. now apply pbind_failed.
      * right; right. now apply pbind_failed.
Qed.

(** X22.  Without operators the parser never hangs and raises nothing but
    its own two exceptions: on a text that holds none of the five
    operator characters [parse] ends, with a value, or with
    [StopIteration] (the text ended inside an expression), or with
    [SyntaxError] (a closing bracket where an expression starts); [int]
    never fails on a token. *)
Theorem parse_without_operators (s : string) :
  operator_free s = true ->
  exists r, parses s r /\ parser_outcome r.
Proof.
  intros O.
  pose proof (findall_plain s O EmptyString eq_refl) as F.
  fold (TOKENS_CP_findall s) in F.
  set (n := (2 * List.length (TOKENS_CP_findall s) + 1)%nat).
  exists (parse n s).
  assert (Po : parser_outcome (parse n s)).
  { unfold parse, pbind.
    destruct (TOKENS_CP_findall s) as [| t it] eqn:Et; cbn [next];
      [exact I |].
    inversion F as [| ? ? Pt Pi]; subst.
    destruct (proj1 (construct_plain n) t it Pt Pi)
      as [(v & it' & -> & _) | [-> | ->]]; [| exact I ..].
    subst n. cbn [List.length]. lia. }
  split; [| exact Po].
  exists n. split; [reflexivity |].
  intros H. rewrite H in Po. exact Po.
Qed.

Lemma parse_without_operators_witness :
  exists r, parses "[1 [2 x] ] 3] [" r /\ parser_outcome r.
Proof.
  apply (parse_without_operators "[1 [2 x] ] 3] [").
  reflexivity.
Defined.

(** ** A text that does not begin with the operator *)

Lemma tar_atom (z : Z) : reduces (PInt z) (Raise TypeError).
Proof.
  exists 1%nat. split; [| discriminate].
  unfold tar, _public. cbn [_r]. now destruct (is_int (PInt z)).
Qed.

(** X23.  [nock] looks for the [*] at the very start of the text: behind a
    character that the tokenizer skips (a blank, say) the [*] is still
    applied by [parse], and [nock] then reduces the result once more.
    When the value reduces to [w], the outcomes of [nock] on such a text
    are those of [tar] on [w]; when [w] is an atom that is [TypeError]. *)
Theorem nock_reduces_again (c : Ascii.ascii) (v w : pyval) (s : string) :
  in_NUMBERS c = false -> is_token_char c = false ->
  natural v = true -> _r v = Ok s -> reduces v (Ok w) ->
  (forall r, nock_ends (String c ("*" ++ s)) r
             <-> exists r0, r = of_res r0 /\ reduces w r0)
  /\ (is_int w = true ->
      nock_ends (String c ("*" ++ s)) (Failed (Inner TypeError))).
Proof.
  intros D Tc N E R.
  destruct (reduces_from v (Ok w) R) as (fw & Hw).
  assert (P : forall f, (pcost v <= f)%nat -> (fw <= f)%nat ->
                        nock_str (S f) (String c ("*" ++ s))
                        = of_res (tar (S f) w)).
  { intros f H1 H2. unfold nock_str, parse, TOKENS_CP_findall.
    rewrite (findall_skip c _ D Tc).
    fold (TOKENS_CP_findall ("*" ++ s)). fold (parse (S f) ("*" ++ s)).
    cbn [append].
    rewrite (parse_op _ tar v s f) by (reflexivity || assumption).
    rewrite (Hw f H2). cbn [of_res String.prefix].
    destruct (Ascii.ascii_dec _ c) as [<- | _]; [discriminate | reflexivity]. }
  assert (Q : forall r, nock_ends (String c ("*" ++ s)) r
                        <-> exists r0, r = of_res r0 /\ reduces w r0).
  { intros r. split.
    - intros (fuel & En & Ee).
      set (f := Nat.max fuel (Nat.max (pcost v) fw)).
      apply (nock_str_mono fuel (S f)) in En; [| lia | exact Ee].
      rewrite P in En by lia. exists (tar (S f) w).
      split; [now symmetry |]. eexists. split; [reflexivity |].
      apply of_res_ended. now rewrite En.
    - intros (r0 & -> & R0). destruct (reduces_from w r0 R0) as (f0 & H0).
      destruct R0 as (_ & _ & Ee).
      set (f := Nat.max f0 (Nat.max (pcost v) fw)).
      exists (S f). split; [| now apply of_res_ended].
      rewrite P by lia. now rewrite H0 by lia. }
  split; [exact Q |].
  intros Iw. destruct w as [z | |]; try discriminate.
  apply Q. exists (Raise TypeError). split; [reflexivity | apply tar_atom].
Qed.

Lemma nock_reduces_again_witness :
  nock_ends " *[[4 5] 4 0 3]" (Failed (Inner TypeError)).
Proof.
  destruct (nock_reduces_again Ascii.Space <( <( 4, 5 )>, 4, 0, 3 )> (PInt 6)
              "[[4 5] 4 0 3]") as (_ & H); try reflexivity.
  - apply (reduces_at 8). vm_compute. reflexivity.
  - apply H. reflexivity.
Defined.

(** * A formula that is an atom *)

Lemma timeout_below (n m : nat) (x : pyval) :
  tar n x = Timeout -> (m <= n)%nat -> tar m x = Timeout.
Proof.
  intros E H. destruct (tar_le m n x H) as [T | T]; congruence.
Qed.

(** Two levels are not enough to carve a pair. *)
Lemma tar_two (s f : pyval) :
  word s = true -> word f = true -> tar 2 <( s, f )> = Timeout.
Proof.
  intros Vs Vf.
  assert (Vx : word <( s, f )> = true) by solve_value.
  unfold tar, _public.
  destruct (word_renders _ Vx) as (str & ->).
  cbn [bind _tar]. unfold tar_body. cbn [star bind]. t_norm.
  rewrite fas_head by solve_binary. cbn [bind].
  rewrite fas_unfold by solve_binary. reflexivity.
Qed.

(** A subject and an atom for formula: the atom is both [op] and [obj]. *)
Lemma tar_atom_step (k : nat) (s : pyval) (z : Z) :
  word s = true -> is_int (PInt z) = true ->
  tar (S (S (S k))) <( s, PInt z )> =
  (result <- tar_dispatch (_fas (S (S k))) (fas (S (S k))) (tar (S (S k)))
               s (PInt z) (PInt z) ;;
   _r result ;;; Ok result).
Proof.
  intros Vs Iz.
  assert (Vx : word <( s, PInt z )> = true) by solve_value.
  unfold tar at 1. unfold _public at 1.
  destruct (word_renders _ Vx) as (str & ->).
  cbn [bind].
  rewrite (tar_carve_atom k [s; PInt z] s z); [reflexivity |].
  t_norm. reflexivity.
Qed.

Lemma fas_six_int (fuel : nat) (z : Z) :
  _fas (S (S fuel)) <( 6, PInt z )> = Ok (PInt z).
Proof. reflexivity. Qed.

Lemma fas_seven_int (fuel : nat) (z : Z) :
  _fas (S (S fuel)) <( 7, PInt z )> = Ok (PInt z).
Proof. reflexivity. Qed.

(** The formula [(z, z)] is carved into the same [op] and [obj]. *)
Lemma tar_atom_as_cell (s : pyval) (z : Z) (n : nat) :
  word s = true -> is_int (PInt z) = true ->
  tar n <( s, PInt z )> = tar n <( s, <( z, z )> )>.
Proof.
  intros Vs Iz. destruct n as [| [| [| k]]].
  - rewrite (timeout_below 2 0 <( s, PInt z )>),
      (timeout_below 2 0 <( s, <( z, z )> )>);
      try lia; try reflexivity; apply tar_two; solve_value.
  - rewrite (timeout_below 2 1 <( s, PInt z )>),
      (timeout_below 2 1 <( s, <( z, z )> )>);
      try lia; try reflexivity; apply tar_two; solve_value.
  - rewrite !tar_two by solve_value. reflexivity.
  - rewrite tar_atom_step by assumption.
    rewrite tar_cell by solve_value. reflexivity.
Qed.

Section AtomLoops.
Variable s : pyval.
Hypothesis Vs : word s = true.
Variable k : nat.

(** What the expansions of opcodes 6 to 9 come to when the atom they
    reduce first is still running one level below. *)
Lemma loop_h07 (c : pyval) (z : Z) :
  word c = true -> is_int (PInt z) = true ->
  tar (S (S k)) <( s, PInt z )> = Timeout ->
  tar (S (S k)) <( s, <( 2, <( PInt z, <( 1, c )> )> )> )> = Timeout.
Proof.
  intros Vc Iz H. apply (timeout_below (S (S (S k)))); [| lia].
  rewrite rule_tar by solve_value. now rewrite H.
Qed.

Lemma loop_h09 (b : pyval) (z : Z) :
  word b = true -> is_int (PInt z) = true ->
  tar (S (S k)) <( s, PInt z )> = Timeout ->
  tar (S (S k))
    <( s, <( 7, <( PInt z, <( 2, <( <( 0, 1 )>, <( 0, b )> )> )> )> )> )>
  = Timeout.
Proof.
  intros Vb Iz H. apply (timeout_below (S (S (S (S k))))); [| lia].
  rewrite rule_h07 by solve_value.
  rewrite rule_tar by solve_value. now rewrite H.
Qed.

Lemma loop_h08 (c : pyval) (z : Z) :
  word c = true -> is_int (PInt z) = true ->
  tar (S (S k)) <( s, PInt z )> = Timeout ->
  tar (S (S k))
    <( s, <( 7, <( <( <( 7, <( <( 0, 1 )>, PInt z )> )>, <( 0, 1 )> )>,
               c )> )> )>
  = Timeout.
Proof.
  intros Vc Iz H. destruct k as [| k1]; [apply tar_two; solve_value |].
  apply (timeout_below (8 + k1)); [| lia]. cbn [Nat.add].
  rewrite rule_h07 by solve_value.
  rewrite rule_tar by solve_value.
  rewrite rule_cons by solve_value.
  rewrite rule_h07 by solve_value.
  rewrite rule_tar by solve_value.
  rewrite ev_self by assumption. cbn [bind].
  rewrite rule_con by solve_value. cbn [bind].
  now rewrite H.
Qed.

Lemma loop_if (c d : pyval) (z : Z) :
  word c = true -> word d = true -> is_int (PInt z) = true ->
  tar (S (S k)) <( s, PInt z )> = Timeout ->
  tar (S (S k))
    <( s, <( 2, <( <( 0, 1 )>,
       <( 2, <( <( 1, <( c, d )> )>,
          <( <( 1, 0 )>,
             <( 2, <( <( 1, <( 2, 3 )> )>,
                <( <( 1, 0 )>, <( 4, <( 4, PInt z )> )> )> )> )> )> )> )> )> )> )>
  = Timeout.
Proof.
  intros Vc Vd Iz H. apply (timeout_below (9 + k)); [| lia].
  pose proof (if_prefix k s (PInt z) c d Vs (word_int z Iz) Vc Vd) as P.
  cbn [Nat.add] in P |- *. rewrite rule_if in P by solve_value.
  rewrite P, H. reflexivity.
Qed.

End AtomLoops.

(** An atom from 2 to 10 for formula: every opcode reduces the atom
    itself first, one level down, and so on without end. *)
Lemma atom_formula_loops (s : pyval) (z : Z) :
  word s = true -> 2 <= z <= 10 ->
  forall n, tar n <( s, PInt z )> = Timeout.
Proof.
  intros Vs Hz n.
  assert (Iz : is_int (PInt z) = true)
    by (apply is_int_range; unfold sys_maxint; lia).
  induction n as [n IH] using lt_wf_ind.
  destruct n as [| [| [| k]]];
    try (apply (timeout_below 2); [apply tar_two; solve_value | lia]).
  rewrite tar_atom_step by assumption.
  pose proof (IH (S (S k)) ltac:(lia)) as H.
  assert (C : z = 2 \/ z = 3 \/ z = 4 \/ z = 5 \/ z = 6 \/ z = 7 \/ z = 8
              \/ z = 9 \/ z = 10) by lia.
  destruct C as [-> | [-> | [-> | [-> | [-> | [-> | [-> | [-> | ->]]]]]]]].
  - rewrite dispatch_tar, fas_head_int, fas_tail_int. cbn [bind].
    now rewrite H.
  - rewrite dispatch_wut. now rewrite H.
  - rewrite dispatch_lus. now rewrite H.
  - rewrite dispatch_tis. now rewrite H.
  - rewrite dispatch_if, fas_head_int, fas_six_int, fas_seven_int.
    cbn [bind].
    rewrite (tar_normalises _ _
               <( s, <( 2, <( <( 0, 1 )>,
                  <( 2, <( <( 1, <( 6, 6 )> )>,
                     <( <( 1, 0 )>,
                        <( 2, <( <( 1, <( 2, 3 )> )>,
                           <( <( 1, 0 )>, <( 4, <( 4, 6 )> )> )> )> )> )> )>
                  )> )> )> )>) by (t_norm; reflexivity).
    rewrite (loop_if s Vs k 6 6 6) by (reflexivity || exact H).
    reflexivity.
  - rewrite dispatch_h07, fas_head_int, fas_tail_int. cbn [bind].
    rewrite (tar_normalises _ _ <( s, <( 2, <( 7, <( 1, 7 )> )> )> )>)
      by (t_norm; reflexivity).
    rewrite (loop_h07 s Vs k 7 7) by (reflexivity || exact H).
    reflexivity.
  - rewrite dispatch_h08, fas_head_int, fas_tail_int. cbn [bind].
    rewrite (tar_normalises _ _
               <( s, <( 7, <( <( <( 7, <( <( 0, 1 )>, 8 )> )>, <( 0, 1 )> )>,
                              8 )> )> )>) by (t_norm; reflexivity).
    rewrite (loop_h08 s Vs k 8 8) by (reflexivity || exact H).
    reflexivity.
  - rewrite dispatch_h09, fas_head_int, fas_tail_int. cbn [bind].
    rewrite (tar_normalises _ _
               <( s, <( 7, <( 9, <( 2, <( <( 0, 1 )>, <( 0, 9 )> )> )> )> )>
               )>) by (t_norm; reflexivity).
    rewrite (loop_h09 s Vs k 9 9) by (reflexivity || exact H).
    reflexivity.
  - rewrite dispatch_h10, fas_head_int. cbn [bind is_int].
    rewrite fas_tail_int. cbn [bind]. now rewrite H.
Qed.

(** X24.  An atom where [_tar] expects a formula is carved into itself:
    [_fas] into an atom returns the atom, so [op] and [obj] are both the
    atom and [(s, z)] has exactly the outcomes of [(s, (z, z))].  Against
    a subject of machine integers the atom 1 is returned as it is; against
    a subject that holds a [long] the call raises [TypeError] when its
    argument is rendered.  An atom outside 0..10 raises [TypeError]. *)
Theorem atom_formula_is_its_own_operand (s : pyval) (z : Z) :
  value s = true ->
  (forall r, reduces <( s, PInt z )> r <-> reduces <( s, <( z, z )> )> r)
  /\ (small s = true -> reduces <( s, 1 )> (Ok (PInt 1)))
  /\ (small s = false -> reduces <( s, 1 )> (Raise TypeError))
  /\ (z < 0 \/ 10 < z -> reduces <( s, PInt z )> (Raise TypeError)).
Proof.
  intros Vs. repeat match goal with |- _ /\ _ => split end.
  - intros r. destruct (small s) eqn:Ss.
    + destruct (is_int (PInt z)) eqn:Iz.
      * assert (Ws : word s = true) by (apply word_split; now split).
        unfold reduces.
        split; intros (n & E & En); exists n; split; try exact En;
          [rewrite <- (tar_atom_as_cell s z n Ws Iz)
          | rewrite tar_atom_as_cell]; assumption.
      * apply reduces_both_long; rewrite !small_pair_eq; cbn [small];
          rewrite Iz, ?andb_false_r; reflexivity.
    + apply reduces_both_long; rewrite !small_pair_eq, Ss; reflexivity.
  - intros Ss. assert (Ws : word s = true) by (apply word_split; now split).
    apply (reduces_at 3). rewrite tar_atom_step by (reflexivity || exact Ws).
    rewrite dispatch_con. reflexivity.
  - intros Ss. apply reduces_raise_long. rewrite small_pair_eq, Ss.
    reflexivity.
  - intros Hz. apply (reduces_raise_at 3).
    now apply tar_invalid_atom_formula.
Qed.

Lemma atom_formula_is_its_own_operand_witness :
  reduces <( 42, 1 )> (Ok (PInt 1)).
Proof.
  destruct (atom_formula_is_its_own_operand 42 1) as (_ & H & _);
    [reflexivity | apply H; reflexivity].
Defined.

(** X25.  An atom from 0 to 10 other than 1 for formula, against a noun of
    machine integers, never gives an outcome: opcode 0 looks up the slot
    0, which [_fas] never finds, and every other opcode reduces the same
    atom formula again; at every depth the call is still running.  Against
    a noun that holds a [long] the call raises [TypeError] at every depth,
    when its argument is rendered. *)
Theorem atom_formula_never_ends (s : pyval) (z : Z) :
  is_noun s = true -> 0 <= z <= 10 -> z <> 1 ->
  (forall n, tar n <( s, PInt z )>
             = if small s then Timeout else Raise TypeError)
  /\ (small s = true -> forall r, ~ reduces <( s, PInt z )> r)
  /\ (small s = false -> reduces <( s, PInt z )> (Raise TypeError)).
Proof.
  intros Ns Hz H1.
  assert (Iz : is_int (PInt z) = true)
    by (apply is_int_range; unfold sys_maxint; lia).
  assert (L : small s = true -> forall n, tar n <( s, PInt z )> = Timeout).
  { intros Ss. pose proof (noun_word s Ns Ss) as Vs.
    destruct (Z.eq_dec z 0) as [-> | H0].
    - intros n. destruct n as [| [| [| k]]];
        try (apply (timeout_below 2); [apply tar_two; solve_value | lia]).
      rewrite tar_atom_step by assumption. rewrite dispatch_fas.
      rewrite fas_public
        by (exact Ns || (apply small_pair; now split)).
      rewrite fas_nonpositive_diverges by (lia || exact Ns). reflexivity.
    - apply atom_formula_loops; [exact Vs | lia]. }
  repeat match goal with |- _ /\ _ => split end.
  - intros n. destruct (small s) eqn:Ss; [now apply L |].
    apply public_long. rewrite small_pair_eq, Ss. reflexivity.
  - intros Ss r (n & E & En). rewrite (L Ss) in E. now subst r.
  - intros Ss. apply reduces_raise_long. rewrite small_pair_eq, Ss.
    reflexivity.
Qed.

Lemma atom_formula_never_ends_witness :
  tar 40 <( <( 4, 5 )>, 6 )> = Timeout.
Proof.
  destruct (atom_formula_never_ends <( 4, 5 )> 6) as (H & _);
    [reflexivity | lia | lia |].
  exact (H 40%nat).
Defined.
